(** * ScreenGamma Tuner: the gamma-ramp transform and the restore lifecycle

    A shallow embedding of [screengamma.py] and of the [ScreenGammaGUI] class of
    [gui.py].  Python floats are IEEE-754 binary64 values, modelled by Rocq's
    primitive floats; ctypes structures live in a heap of references, so that
    aliasing between the saved ramp and the scratch buffers is explicit; the
    display driver, the configuration file and the interpreter's exit hooks are
    explicit state, and every driver call is recorded in a trace. *)

From Stdlib Require Import ZArith Lia List Bool Floats Uint63.
From stdpp Require Import base option list gmap.
Import ListNotations.

Set Warnings "-inexact-float".
Local Open Scope Z_scope.

(** ** Python runtime: exceptions *)

Inductive exn :=
| AttributeError
| IndexError
| OSError
| OverflowError
| ValueError
| ZeroDivisionError.

Inductive result (A : Type) : Type :=
| Ok (a : A)
| Raise (e : exn).
Arguments Ok {A} a.
Arguments Raise {A} e.

Definition rbind {A B} (r : result A) (k : A -> result B) : result B :=
  match r with
  | Ok a => k a
  | Raise e => Raise e
  end.

Declare Scope py_scope.
Delimit Scope py_scope with py.
Notation "x <~ r ;; k" := (rbind r (fun x => k))
  (at level 100, r at next level, right associativity) : py_scope.

(** ** Python runtime: floats *)

(** [max(a, b)] keeps its first argument unless the second compares greater;
    [min(a, b)] keeps its first argument unless the second compares smaller.
    A comparison with NaN is false, so a NaN second argument is dropped. *)
Definition py_max (a b : float) : float := if (a <? b)%float then b else a.
Definition py_min (a b : float) : float := if (b <? a)%float then b else a.

(** [a / b] on floats. *)
Definition py_truediv (a b : float) : result float :=
  if (b =? 0)%float then Raise ZeroDivisionError else Ok (a / b)%float.

(** [float(n)] for a small non-negative integer. *)
Definition float_of_int (n : Z) : float := of_uint63 (Uint63.of_Z n).

(** [int(x)]: truncation toward zero; NaN and the infinities raise. *)
Definition py_int (x : float) : result Z :=
  match Prim2SF x with
  | S754_nan => Raise ValueError
  | S754_infinity _ => Raise OverflowError
  | S754_zero _ => Ok 0
  | S754_finite s m e => Ok (cond_Zopp s (Z.shiftl (Zpos m) e))
  end.

(** [round(x)] as the specification uses it: nearest integer, ties to even. *)
Definition py_round (x : float) : result Z :=
  match Prim2SF x with
  | S754_nan => Raise ValueError
  | S754_infinity _ => Raise OverflowError
  | S754_zero _ => Ok 0
  | S754_finite s m e =>
      if 0 <=? e then Ok (cond_Zopp s (Z.shiftl (Zpos m) e))
      else
        let q := Z.shiftr (Zpos m) (- e) in
        let r := Zpos m - Z.shiftl q (- e) in
        let half := Z.shiftl 1 (- e - 1) in
        let up := match r ?= half with
                  | Lt => false
                  | Eq => Z.odd q
                  | Gt => true
                  end in
        Ok (cond_Zopp s (if up then q + 1 else q))
  end.

(** The slice of float exponentiation at exponent one, where [x ** 1.0] is
    [x] itself.  It stands in for the interpreter's power function when the
    transform is evaluated at gamma = 1.0. *)
Definition pow_unit_exponent (x y : float) : result float :=
  if (y =? 1)%float then Ok x else Raise ValueError.

(** ** screengamma.py *)

Definition GAMMA_RAMP_SIZE : nat := 256.

(** [wintypes.USHORT(v)]: ctypes keeps the low 16 bits. *)
Definition USHORT (v : Z) : Z := v mod 65536.

(** [class GammaRamp(ctypes.Structure)]: three arrays of 256 USHORT. *)
Record GammaRamp := mkRamp {
  red : list Z;
  green : list Z;
  blue : list Z
}.

(** [GammaRamp()]: a zero-initialised structure. *)
Definition GammaRamp_new : GammaRamp :=
  let z := replicate GAMMA_RAMP_SIZE 0 in mkRamp z z z.

Definition ramp_wf (t : GammaRamp) : Prop :=
  length (red t) = GAMMA_RAMP_SIZE /\
  length (green t) = GAMMA_RAMP_SIZE /\
  length (blue t) = GAMMA_RAMP_SIZE.

(** ** Process state *)

(** Addresses of ctypes structures. *)
Definition ref := positive.

(** The three keys of config.json. *)
Record Config := mkConfig {
  cfg_gamma : float;
  cfg_brightness : float;
  cfg_contrast : float
}.

(** config.json on disk: missing, present but not loadable, or a loadable
    record.  A loadable file is taken to hold the three keys as numbers. *)
Inductive file :=
| Absent
| Corrupt
| Json (c : Config).

(** Text of the status bar label. *)
Inductive status_text :=
| Ready
| Live (g b c : float)
| UpdateFailed (e : exn)
| ConfigSaved
| ConfigLoaded
| ResetToDefault.

(** The Tk root window and the tray icon, as far as the methods touch them. *)
Record window := mkWindow { visible : bool; quit_requested : bool }.
Record tray := mkTray { tray_visible : bool; tray_running : bool }.

(** Effects visible outside the interpreter, in the order they happen. *)
Inductive event :=
| GetDeviceGammaRamp (buf : ref) (ok : bool)
| SetDeviceGammaRamp (buf : ref) (table : GammaRamp) (ok : bool)
| ConfigWritten (c : Config)
| ShowWarning
| ShowError
| TrayNotify
| TrayStop
| RootQuit.

(** Callables handed to [atexit.register]: the [restore] closure built by
    [backup_and_restore], which captures its argument, and the bound method
    [self._atexit_restore]. *)
Inductive exit_handler :=
| restore_closure (original_ramp : ref)
| atexit_restore_method.

(** Attributes of the [ScreenGammaGUI] instance; [None] is an attribute that has
    not been assigned yet, which is what [hasattr] tests. *)
Record Gui := mkGui {
  original_ramp : option ref;
  root : option window;
  gamma_var : option float;
  brightness_var : option float;
  contrast_var : option float;
  config : option Config;
  status : option status_text;
  icon : option tray
}.

Record World := mkWorld {
  screen : GammaRamp;                (* ramp loaded in the display hardware *)
  gdi_ok : nat -> bool;              (* does the gdi32 call made at trace position n succeed *)
  heap : gmap ref GammaRamp;         (* ctypes structures by address *)
  atexit_handlers : list exit_handler;
  config_json : file;
  disk_ok : bool;                    (* can config.json be opened for writing *)
  trace : list event;
  self : Gui
}.

Definition set_original_ramp (v : option ref) (g : Gui) : Gui :=
  mkGui v (root g) (gamma_var g) (brightness_var g) (contrast_var g) (config g) (status g) (icon g).
Definition set_root (v : option window) (g : Gui) : Gui :=
  mkGui (original_ramp g) v (gamma_var g) (brightness_var g) (contrast_var g) (config g) (status g) (icon g).
Definition set_gamma_var (v : option float) (g : Gui) : Gui :=
  mkGui (original_ramp g) (root g) v (brightness_var g) (contrast_var g) (config g) (status g) (icon g).
Definition set_brightness_var (v : option float) (g : Gui) : Gui :=
  mkGui (original_ramp g) (root g) (gamma_var g) v (contrast_var g) (config g) (status g) (icon g).
Definition set_contrast_var (v : option float) (g : Gui) : Gui :=
  mkGui (original_ramp g) (root g) (gamma_var g) (brightness_var g) v (config g) (status g) (icon g).
Definition set_config (v : option Config) (g : Gui) : Gui :=
  mkGui (original_ramp g) (root g) (gamma_var g) (brightness_var g) (contrast_var g) v (status g) (icon g).
Definition set_status (v : option status_text) (g : Gui) : Gui :=
  mkGui (original_ramp g) (root g) (gamma_var g) (brightness_var g) (contrast_var g) (config g) v (icon g).
Definition set_icon (v : option tray) (g : Gui) : Gui :=
  mkGui (original_ramp g) (root g) (gamma_var g) (brightness_var g) (contrast_var g) (config g) (status g) v.

Definition set_screen (v : GammaRamp) (w : World) : World :=
  mkWorld v (gdi_ok w) (heap w) (atexit_handlers w) (config_json w) (disk_ok w) (trace w) (self w).
Definition set_heap (v : gmap ref GammaRamp) (w : World) : World :=
  mkWorld (screen w) (gdi_ok w) v (atexit_handlers w) (config_json w) (disk_ok w) (trace w) (self w).
Definition set_atexit_handlers (v : list exit_handler) (w : World) : World :=
  mkWorld (screen w) (gdi_ok w) (heap w) v (config_json w) (disk_ok w) (trace w) (self w).
Definition set_config_json (v : file) (w : World) : World :=
  mkWorld (screen w) (gdi_ok w) (heap w) (atexit_handlers w) v (disk_ok w) (trace w) (self w).
Definition set_trace (v : list event) (w : World) : World :=
  mkWorld (screen w) (gdi_ok w) (heap w) (atexit_handlers w) (config_json w) (disk_ok w) v (self w).
Definition set_self (v : Gui) (w : World) : World :=
  mkWorld (screen w) (gdi_ok w) (heap w) (atexit_handlers w) (config_json w) (disk_ok w) (trace w) v.

Definition on_self (f : Gui -> Gui) (w : World) : World := set_self (f (self w)) w.

(** A fresh instance before [__init__] has run. *)
Definition Gui_blank : Gui := mkGui None None None None None None None None.

(** ** Statements that read and write the state, and may raise *)

Definition M (A : Type) : Type := World -> result A * World.

Definition ret {A} (a : A) : M A := fun w => (Ok a, w).
Definition raise {A} (e : exn) : M A := fun w => (Raise e, w).
Definition bind {A B} (m : M A) (k : A -> M B) : M B := fun w =>
  match m w with
  | (Ok a, w') => k a w'
  | (Raise e, w') => (Raise e, w')
  end.
Definition lift {A} (r : result A) : M A := fun w => (r, w).
Definition modify (f : World -> World) : M unit := fun w => (Ok tt, f w).
Definition emit (e : event) : M unit := modify (fun w => set_trace (trace w ++ [e]) w).

(** [try: body / except Exception: handler]. *)
Definition try_except {A} (body : M A) (handler : exn -> M A) : M A := fun w =>
  match body w with
  | (Ok a, w') => (Ok a, w')
  | (Raise e, w') => handler e w'
  end.

(** [try: body / finally: cleanup]. *)
Definition try_finally {A} (body : M A) (cleanup : M unit) : M A := fun w =>
  match body w with
  | (r, w') =>
      match cleanup w' with
      | (Ok _, w'') => (r, w'')
      | (Raise e, w'') => (Raise e, w'')
      end
  end.

(** [self.attr]: AttributeError when the attribute is not there. *)
Definition getattr {A} (attr : Gui -> option A) : M A := fun w =>
  match attr (self w) with
  | Some a => (Ok a, w)
  | None => (Raise AttributeError, w)
  end.

Definition hasattr {A} (attr : Gui -> option A) : M bool := fun w =>
  (Ok (bool_decide (is_Some (attr (self w)))), w).

Notation "x <- m ;; k" := (bind m (fun x => k))
  (at level 100, m at next level, right associativity) : py_scope.
Notation "m ;; k" := (bind m (fun _ => k))
  (at level 100, right associativity) : py_scope.

Fixpoint for_each {A} (l : list A) (body : A -> M unit) : M unit :=
  match l with
  | [] => ret tt
  | x :: l' => (body x ;; for_each l' body)%py
  end.

(** The state after a statement, its outcome dropped. *)
Definition exec {A} (m : M A) (w : World) : World := snd (m w).

(** ** screengamma.py: the driver calls *)

Inductive channel := Red | Green | Blue.

Definition channel_get (c : channel) (t : GammaRamp) : list Z :=
  match c with Red => red t | Green => green t | Blue => blue t end.

Definition channel_set (c : channel) (l : list Z) (t : GammaRamp) : GammaRamp :=
  match c with
  | Red => mkRamp l (green t) (blue t)
  | Green => mkRamp (red t) l (blue t)
  | Blue => mkRamp (red t) (green t) l
  end.

(** [ramp = GammaRamp()]. *)
Definition GammaRamp_alloc : M ref := fun w =>
  let r := fresh (dom (heap w)) in
  (Ok r, set_heap (<[r := GammaRamp_new]> (heap w)) w).

(** [buf.channel[i] = v] on a ctypes array. *)
Definition store (c : channel) (buf : ref) (i : nat) (v : Z) : M unit := fun w =>
  match heap w !! buf with
  | None => (Raise OSError, w)
  | Some t =>
      if bool_decide (i < length (channel_get c t))%nat
      then (Ok tt, set_heap (<[buf := channel_set c (<[i := v]> (channel_get c t)) t]> (heap w)) w)
      else (Raise IndexError, w)
  end.

(** [gdi32.GetDeviceGammaRamp(hdc, byref(buf))]: on success the buffer receives
    the hardware ramp; on failure it is left as it was.  Returns the BOOL. *)
Definition gdi32_GetDeviceGammaRamp (buf : ref) : M bool := fun w =>
  let ok := gdi_ok w (length (trace w)) in
  let w1 := if ok then set_heap (<[buf := screen w]> (heap w)) w else w in
  (Ok ok, set_trace (trace w ++ [GetDeviceGammaRamp buf ok]) w1).

(** [gdi32.SetDeviceGammaRamp(hdc, byref(buf))]: on success the hardware takes
    the table in the buffer.  Returns the BOOL. *)
Definition gdi32_SetDeviceGammaRamp (buf : ref) : M bool := fun w =>
  match heap w !! buf with
  | None => (Raise OSError, w)
  | Some t =>
      let ok := gdi_ok w (length (trace w)) in
      let w1 := if ok then set_screen t w else w in
      (Ok ok, set_trace (trace w ++ [SetDeviceGammaRamp buf t ok]) w1)
  end.

Definition get_gamma_ramp : M ref :=
  (ramp <- GammaRamp_alloc ;;
   _ <- gdi32_GetDeviceGammaRamp ramp ;;
   ret ramp)%py.

Definition set_gamma_ramp (ramp : ref) : M bool :=
  (success <- gdi32_SetDeviceGammaRamp ramp ;;
   ret success)%py.

Definition backup_and_restore (original_ramp : ref) : M unit :=
  modify (fun w => set_atexit_handlers (atexit_handlers w ++ [restore_closure original_ramp]) w).

Section Program.

(** Python's [x ** y] on floats.  It is the C library's [pow] behind the
    interpreter's own case analysis and may raise (ZeroDivisionError,
    OverflowError); it is not part of this repository. *)
Variable float_pow : float -> float -> result float.

(** The clamped value [val] reached at the end of one loop iteration
    (lines 35-42 of screengamma.py). *)
Definition ramp_final (gamma brightness contrast : float) (i : nat) : result float :=
  (normalized <~ py_truediv (float_of_int (Z.of_nat i)) 255.0 ;;
   expo <~ py_truediv 1.0 (py_max gamma 0.1) ;;
   gamma_corrected <~ float_pow normalized expo ;;
   let val := (gamma_corrected + brightness * 0.3)%float in
   let val := py_max 0.0 (py_min 1.0 val) in
   let val := ((val - 0.5) * contrast + 0.5)%float in
   let val := py_max 0.0 (py_min 1.0 val) in
   Ok val)%py.

(** [val_16bit = int(val * 65535)] (line 43). *)
Definition ramp_val_16bit (gamma brightness contrast : float) (i : nat) : result Z :=
  (val <~ ramp_final gamma brightness contrast i ;;
   py_int (val * float_of_int 65535)%float)%py.

(** Lines 44: the three channels receive the same USHORT, red first. *)
Definition ramp_store (original : ref) (i : nat) (val_16bit : Z) : M unit :=
  (let v := USHORT val_16bit in
   store Red original i v ;;
   store Green original i v ;;
   store Blue original i v)%py.

Definition set_gamma_ramp_all_screens (gamma brightness contrast : float) : M bool :=
  (original <- get_gamma_ramp ;;
   for_each (seq 0 GAMMA_RAMP_SIZE) (fun i =>
     val_16bit <- lift (ramp_val_16bit gamma brightness contrast i) ;;
     ramp_store original i val_16bit) ;;
   set_gamma_ramp original)%py.

(** ** gui.py: class ScreenGammaGUI *)

(** [if hasattr(self, 'status'): self.status.config(text=...)]. *)
Definition status_config (t : status_text) : M unit :=
  (has <- hasattr status ;;
   if has then modify (on_self (set_status (Some t))) else ret tt)%py.

Definition _restore_gamma : M unit :=
  try_except
    (original_ramp <- getattr original_ramp ;;
     _ <- set_gamma_ramp original_ramp ;;
     ret tt)%py
    (fun _ => ret tt).

Definition _atexit_restore : M unit := _restore_gamma.

(** [_crash_handler]: restore, then hand over to the saved excepthook, which
    prints the traceback. *)
Definition _crash_handler : M unit := _restore_gamma.

Definition default_config : Config := mkConfig 1.0 0.0 1.0.

Definition load_config : M Config := fun w =>
  match config_json w with
  | Absent => (Ok default_config, w)
  | Json c => (Ok c, w)
  | Corrupt => (Ok default_config, set_trace (trace w ++ [ShowWarning]) w)
  end.

(** [open(CONFIG_FILE, 'w')] truncates the file before [json.dump] runs. *)
Definition save_config : M unit :=
  try_except
    (fun w =>
       if disk_ok w
       then (c <- getattr config ;;
             modify (set_config_json (Json c)) ;;
             emit (ConfigWritten c))%py (set_config_json Corrupt w)
       else (Raise OSError, w))
    (fun _ => emit ShowError).

Definition save_to_config : M unit :=
  (g <- getattr gamma_var ;;
   b <- getattr brightness_var ;;
   c <- getattr contrast_var ;;
   modify (on_self (set_config (Some (mkConfig g b c)))) ;;
   save_config ;;
   status_config ConfigSaved)%py.

(** [var.set(value)] on one of the three Tk variables. *)
Definition var_set {A} (attr : Gui -> option A) (setter : option A -> Gui -> Gui) (v : A) : M unit :=
  (_ <- getattr attr ;; modify (on_self (setter (Some v))))%py.

Definition apply_config : M unit :=
  (c <- getattr config ;;
   var_set gamma_var set_gamma_var (cfg_gamma c) ;;
   c <- getattr config ;;
   var_set brightness_var set_brightness_var (cfg_brightness c) ;;
   c <- getattr config ;;
   var_set contrast_var set_contrast_var (cfg_contrast c))%py.

Definition update_gamma : M unit :=
  try_except
    (gamma <- getattr gamma_var ;;
     brightness <- getattr brightness_var ;;
     contrast <- getattr contrast_var ;;
     _ <- set_gamma_ramp_all_screens gamma brightness contrast ;;
     status_config (Live gamma brightness contrast))%py
    (fun e => status_config (UpdateFailed e)).

(** [load_from_config] and [reset] hand their body to the main loop with
    [root.after(0, ...)]; the body is run here as the next thing the loop does. *)
Definition load_from_config : M unit :=
  (_ <- getattr root ;;
   apply_config ;;
   update_gamma ;;
   status_config ConfigLoaded)%py.

Definition reset : M unit :=
  (_ <- getattr root ;;
   var_set gamma_var set_gamma_var 1.0%float ;;
   var_set brightness_var set_brightness_var 0.0%float ;;
   var_set contrast_var set_contrast_var 1.0%float ;;
   update_gamma ;;
   status_config ResetToDefault)%py.

(** The three sliders of [setup_ui], with the bounds of [sliders_config]. *)
Inductive slider := GammaSlider | BrightnessSlider | ContrastSlider.

Definition slider_var (s : slider) : Gui -> option float :=
  match s with
  | GammaSlider => gamma_var
  | BrightnessSlider => brightness_var
  | ContrastSlider => contrast_var
  end.

Definition slider_set (s : slider) : option float -> Gui -> Gui :=
  match s with
  | GammaSlider => set_gamma_var
  | BrightnessSlider => set_brightness_var
  | ContrastSlider => set_contrast_var
  end.

Definition slider_bounds (s : slider) : float * float :=
  match s with
  | GammaSlider => (0.3, 4.0)%float
  | BrightnessSlider => (-1.0, 1.0)%float
  | ContrastSlider => (0.1, 3.0)%float
  end.

Definition adjust_value (var : slider) (delta min_val max_val : float) : M unit :=
  (value <- getattr (slider_var var) ;;
   let value := (value + delta)%float in
   let value := py_max min_val (py_min max_val value) in
   var_set (slider_var var) (slider_set var) value ;;
   update_gamma)%py.

Definition on_closing : M unit :=
  (r <- getattr root ;;
   modify (on_self (set_root (Some (mkWindow false (quit_requested r))))) ;;
   has <- hasattr icon ;;
   if has then
     (t <- getattr icon ;;
      modify (on_self (set_icon (Some (mkTray true (tray_running t))))) ;;
      emit TrayNotify)
   else ret tt)%py.

Definition show_window : M unit :=
  (r <- getattr root ;;
   modify (on_self (set_root (Some (mkWindow true (quit_requested r))))))%py.

Definition quit_app : M unit :=
  (save_to_config ;;
   _restore_gamma ;;
   has <- hasattr icon ;;
   (if has then
      (t <- getattr icon ;;
       modify (on_self (set_icon (Some (mkTray (tray_visible t) false)))) ;;
       emit TrayStop)
    else ret tt) ;;
   r <- getattr root ;;
   modify (on_self (set_root (Some (mkWindow (visible r) true)))) ;;
   emit RootQuit)%py.

Definition setup_ui : M unit :=
  modify (on_self (set_status (Some Ready))).

Definition setup_tray : M unit :=
  modify (on_self (set_icon (Some (mkTray true true)))).

Definition __init__ : M unit :=
  (r <- get_gamma_ramp ;;
   modify (on_self (set_original_ramp (Some r))) ;;
   r <- getattr original_ramp ;;
   backup_and_restore r ;;
   modify (fun w => set_atexit_handlers (atexit_handlers w ++ [atexit_restore_method]) w) ;;
   modify (on_self (set_root (Some (mkWindow true false)))) ;;
   modify (on_self (set_gamma_var (Some 1.0%float))) ;;
   modify (on_self (set_brightness_var (Some 0.0%float))) ;;
   modify (on_self (set_contrast_var (Some 1.0%float))) ;;
   c <- load_config ;;
   modify (on_self (set_config (Some c))) ;;
   setup_ui ;;
   apply_config ;;
   update_gamma ;;
   setup_tray)%py.

(** ** Executions *)

(** What the main loop can be asked to do: a slider is dragged (Tk writes the
    variable, then calls [update_gamma]), a button or tray entry is used. *)
Inductive action :=
| Drag (s : slider) (value : float)
| Plus (s : slider)
| Minus (s : slider)
| ClickReset
| ClickSave
| ClickLoad
| CloseWindow
| TrayShow
| TrayQuit.

Definition handle (a : action) : M unit :=
  match a with
  | Drag s value => (var_set (slider_var s) (slider_set s) value ;; update_gamma)%py
  | Plus s => adjust_value s 0.1 (fst (slider_bounds s)) (snd (slider_bounds s))
  | Minus s => adjust_value s (-0.1) (fst (slider_bounds s)) (snd (slider_bounds s))
  | ClickReset => reset
  | ClickSave => save_to_config
  | ClickLoad => load_from_config
  | CloseWindow => on_closing
  | TrayShow => show_window
  | TrayQuit => quit_app
  end.

(** [root.mainloop()]: callbacks run one after the other; an exception raised
    by a callback is reported by Tk and the loop goes on; the loop returns once
    [root.quit()] has been called.  [crash] is an exception that escapes the
    loop itself after the listed callbacks. *)
Fixpoint mainloop (acts : list action) (crash : option exn) : M unit :=
  match acts with
  | [] => match crash with Some e => raise e | None => ret tt end
  | a :: acts' => fun w =>
      let w' := exec (handle a) w in
      match root (self w') with
      | Some r => if quit_requested r then (Ok tt, w') else mainloop acts' crash w'
      | None => mainloop acts' crash w'
      end
  end.

Definition run (acts : list action) (crash : option exn) : M unit :=
  try_finally
    (try_except (mainloop acts crash)
       (fun e => (_restore_gamma ;; raise e)%py))
    _restore_gamma.

(** One registered exit handler; an exception it raises is printed and dropped. *)
Definition run_exit_handler (h : exit_handler) : M unit :=
  match h with
  | restore_closure original_ramp =>
      try_except (_ <- set_gamma_ramp original_ramp ;; ret tt)%py (fun _ => ret tt)
  | atexit_restore_method => _atexit_restore
  end.

(** Interpreter shutdown: handlers run last registered first. *)
Definition interpreter_exit : M unit := fun w =>
  for_each (rev (atexit_handlers w)) run_exit_handler w.

(** The script: [app = ScreenGammaGUI(); app.run()], then shutdown.  An
    exception that leaves [run] reaches [sys.excepthook], here [_crash_handler]. *)
Definition main (acts : list action) (crash : option exn) : M unit :=
  (__init__ ;;
   try_except (run acts crash) (fun _ => _crash_handler) ;;
   interpreter_exit)%py.

End Program.

(** ** Vocabulary of the statements *)

#[global] Instance GammaRamp_eq_dec : EqDecision GammaRamp.
Proof. solve_decision. Defined.

(** The events a statement adds to the trace, and the tables it hands to
    [SetDeviceGammaRamp]. *)
Definition events_of {A} (m : M A) (w : World) : list event :=
  drop (length (trace w)) (trace (exec m w)).

Definition written_tables (evs : list event) : list GammaRamp :=
  omap (fun e => match e with SetDeviceGammaRamp _ t _ => Some t | _ => None end) evs.

(** Callbacks handled one after the other, whatever each of them raises. *)
Definition handle_all (float_pow : float -> float -> result float)
    (acts : list action) (w : World) : World :=
  fold_left (fun w a => exec (handle float_pow a) w) acts w.

(** Step 7 as the specification words it: [round(final * 65535)]. *)
Definition spec_val_16bit_rounded (float_pow : float -> float -> result float)
    (gamma brightness contrast : float) (i : nat) : result Z :=
  (val <~ ramp_final float_pow gamma brightness contrast i ;;
   py_round (val * float_of_int 65535)%float)%py.

(** Calls that can reach the instance from outside [__init__]. *)
Inductive call :=
| Callback (a : action)
| UpdateGamma
| RestoreGamma
| CrashHandler
| ExitHandlers.

Definition invoke (float_pow : float -> float -> result float) (c : call) : M unit :=
  match c with
  | Callback a => handle float_pow a
  | UpdateGamma => update_gamma float_pow
  | RestoreGamma => _restore_gamma
  | CrashHandler => _crash_handler
  | ExitHandlers => interpreter_exit
  end.

Definition invoke_all (float_pow : float -> float -> result float)
    (cs : list call) (w : World) : World :=
  fold_left (fun w c => exec (invoke float_pow c) w) cs w.

(** The ramp of an untouched display: entry [i] is [257 * i]. *)
Definition linear_ramp : GammaRamp :=
  let l := map (fun i => 257 * Z.of_nat i) (seq 0 GAMMA_RAMP_SIZE) in mkRamp l l l.

(** A process about to create the instance: nothing allocated, nothing
    registered, no attribute set, an empty trace. *)
Definition boot (driver : nat -> bool) (f : file) : World :=
  mkWorld linear_ramp driver ∅ [] f true [] Gui_blank.

#[global] Instance ramp_wf_dec (t : GammaRamp) : Decision (ramp_wf t).
Proof. unfold ramp_wf. apply _. Defined.

(** What the table holds at index [i] once the loop has passed it. *)
Definition entry_written (float_pow : float -> float -> result float)
    (gamma brightness contrast : float) (t : GammaRamp) (i : nat) : Prop :=
  exists v, ramp_val_16bit float_pow gamma brightness contrast i = Ok v /\
            red t !! i = Some (USHORT v) /\
            green t !! i = Some (USHORT v) /\
            blue t !! i = Some (USHORT v).

Definition entry_kept (t t' : GammaRamp) (i : nat) : Prop :=
  red t' !! i = red t !! i /\ green t' !! i = green t !! i /\ blue t' !! i = blue t !! i.

(** An event that does not hand an existing buffer to the driver for writing. *)
Definition scratch_event (h : gmap ref GammaRamp) (e : event) : Prop :=
  match e with
  | SetDeviceGammaRamp buf _ _ => h !! buf = None
  | _ => True
  end.

(** What every method leaves alone: structures already in the heap keep their
    contents, the saved reference stays, the trace only grows.  With [strict]
    the new driver writes all pass buffers allocated after [w]. *)
Definition frame (strict : bool) (w w' : World) : Prop :=
  (forall r t, heap w !! r = Some t -> heap w' !! r = Some t) /\
  original_ramp (self w') = original_ramp (self w) /\
  exists evs, trace w' = trace w ++ evs /\
              (strict = true -> Forall (scratch_event (heap w)) evs).

Definition framed {A} (strict : bool) (m : M A) : Prop :=
  forall w, frame strict w (snd (m w)).

(** The product [val * 65535] of a clamped value is +0 or a positive finite
    float whose integer part is at most 65535. *)
Definition small_product (p : float) : Prop :=
  Prim2SF p = S754_zero false \/
  exists m e, Prim2SF p = S754_finite false m e /\ Z.shiftl (Zpos m) e <= 65535.

(** What the default parameters give at one index, evaluated. *)
Definition default_entry_check (i : nat) : bool :=
  match ramp_val_16bit pow_unit_exponent 1.0 0.0 1.0 i,
        py_round (float_of_int (Z.of_nat i) / 255.0 * float_of_int 65535)%float with
  | Ok v, Ok v' =>
      (257 * Z.of_nat i - 1 <=? v) && (v <=? 257 * Z.of_nat i) && (v' =? 257 * Z.of_nat i)
  | _, _ => false
  end.

(** The world once line 19 has stored the captured ramp. *)
Definition captured (w : World) : World :=
  let r := fresh (dom (heap w)) in
  let ok := gdi_ok w (length (trace w)) in
  mkWorld (screen w) (gdi_ok w)
    (<[r := if ok then screen w else GammaRamp_new]> (heap w))
    (atexit_handlers w) (config_json w) (disk_ok w)
    (trace w ++ [GetDeviceGammaRamp r ok])
    (set_original_ramp (Some r) (self w)).

(** ** Binary64 values on an integer scale *)

(** Every finite binary64 number is an integer multiple of [2^-1074].  The
    rank of a float is that integer; the infinities sit beyond every finite
    rank.  The exact result of [+], [-] and [*] on two floats is an integer
    [M] at a scale [2^e], [e <= -1074], and [round_rank] is the rank of the
    float the operation returns. *)

(** Round to nearest, ties to even, of [M / 2^p]. *)
Definition rne (M p : Z) : Z :=
  let q := M / 2 ^ p in
  match 2 * (M mod 2 ^ p) ?= 2 ^ p with
  | Lt => q
  | Eq => if Z.even q then q else q + 1
  | Gt => q + 1
  end.

(** The exponent the format gives a number of magnitude [M * 2^e]. *)
Definition bexp (M e : Z) : Z := Z.max (Zdigits2 M + e - 53) (-1074).

Definition INF_RANK : Z := 2 ^ 2200.

(** Overflow: a rounded magnitude of [2^1024] or more becomes an infinity. *)
Definition clip (v : Z) : Z := if v <? 2 ^ 2098 then v else INF_RANK.

Definition round_rank (e M : Z) : Z :=
  let E := bexp M e in clip (rne M (E - e) * 2 ^ (E + 1074)).

Definition signed_round_rank (e z : Z) : Z :=
  match z with
  | Z0 => 0
  | Zpos _ => round_rank e z
  | Zneg m => - round_rank e (Zpos m)
  end.

(** The rank of a float: its value in units of [2^-1074]. *)
Definition rank (x : spec_float) : Z :=
  match x with
  | S754_nan => 0
  | S754_zero _ => 0
  | S754_infinity s => cond_Zopp s INF_RANK
  | S754_finite s m e => cond_Zopp s (Zpos m * 2 ^ (e + 1074))
  end.

Definition is_nan_sf (x : spec_float) : bool :=
  match x with S754_nan => true | _ => false end.

Definition fin_sf (x : spec_float) : bool :=
  match x with
  | S754_zero _ | S754_finite _ _ _ => true
  | _ => false
  end.

(** The second half of [binary_round_aux]: renormalise the rounded mantissa
    and check for overflow. *)
Definition pack (s : bool) (m E : Z) : spec_float :=
  let '(mrs, e') := shr_fexp prec emax m E loc_Exact in
  match shr_m mrs with
  | Z0 => S754_zero s
  | Zpos m' => if e' <=? emax - prec then S754_finite s m' e' else S754_infinity s
  | Zneg _ => S754_nan
  end.

Definition frank (x : float) : Z := rank (Prim2SF x).
Definition fnan (x : float) : bool := is_nan_sf (Prim2SF x).
Definition ffin (x : float) : bool := fin_sf (Prim2SF x).

(** [normalized = i / 255.0] (line 35) and the check, by evaluation over the
    256 indices, that it starts at or above 0, grows from each index to the
    next, and ends at or below 1. *)
Definition normalized_of (i : nat) : float := (float_of_int (Z.of_nat i) / 255.0)%float.

Definition normalized_ordered : bool :=
  (0 <=? normalized_of 0)%float
  && forallb (fun i => (normalized_of i <=? normalized_of (S i))%float) (seq 0 255)
  && (normalized_of 255 <=? 1)%float.

(** What is asked of the power [**]: on bases in [0, 1] and for an exponent
    that is not negative, a larger base never gives a smaller power.  (Taking
    the two bases equal, the power of such a base is not NaN.) *)
Definition pow_monotone (float_pow : float -> float -> result float) : Prop :=
  forall x y e p q,
    (0 <=? x)%float = true -> (x <=? y)%float = true -> (y <=? 1)%float = true ->
    (0 <=? e)%float = true ->
    float_pow x e = Ok p -> float_pow y e = Ok q -> (p <=? q)%float = true.

(** A channel that never decreases with the index. *)
Definition nondecreasing (l : list Z) : Prop :=
  forall i j vi vj, (i <= j)%nat -> l !! i = Some vi -> l !! j = Some vj -> vi <= vj.

(** ** Relations between the state before and after a statement *)

(** A statement respects a relation [R] when every run, whatever its outcome,
    takes a state to one related to it. *)
Definition respects (R : World -> World -> Prop) {A} (m : M A) : Prop :=
  forall w, R w (snd (m w)).

(** An attribute that was assigned still is. *)
Definition assigned {A} (attr : Gui -> option A) (w w' : World) : Prop :=
  is_Some (attr (self w)) -> is_Some (attr (self w')).

(** What no callback changes: the driver, the registered exit handlers, the
    disk; and no attribute of the instance is ever deleted. *)
Definition steady (w w' : World) : Prop :=
  gdi_ok w' = gdi_ok w /\
  atexit_handlers w' = atexit_handlers w /\
  disk_ok w' = disk_ok w /\
  assigned root w w' /\
  assigned gamma_var w w' /\ assigned brightness_var w w' /\ assigned contrast_var w w' /\
  assigned config w w' /\ assigned status w w' /\ assigned icon w w'.

(** The flag [root.quit()] raises is as it was. *)
Definition loop_open (w w' : World) : Prop :=
  option_map quit_requested (root (self w')) = option_map quit_requested (root (self w)).

(** The configuration last saved or loaded, in memory and on disk, and the
    ramp on the display are as they were. *)
Definition saved_kept (w w' : World) : Prop :=
  config (self w') = config (self w) /\ config_json w' = config_json w.

(** A started instance: the attributes [__init__] assigns are there, the saved
    ramp is in memory, the main loop has not been told to stop. *)
Record started (w : World) (r : ref) (t : GammaRamp) : Prop := mkStarted {
  started_ramp : original_ramp (self w) = Some r;
  started_heap : heap w !! r = Some t;
  started_root : exists win, root (self w) = Some win /\ quit_requested win = false;
  started_gamma : is_Some (gamma_var (self w));
  started_brightness : is_Some (brightness_var (self w));
  started_contrast : is_Some (contrast_var (self w));
  started_config : is_Some (config (self w))
}.

Definition is_quit (a : action) : bool :=
  match a with TrayQuit => true | _ => false end.

Definition is_save (a : action) : bool :=
  match a with ClickSave | TrayQuit => true | _ => false end.

(** What [load_config] returns for a given file. *)
Definition loaded_config (f : file) : Config :=
  match f with Json c => c | _ => default_config end.

(** The state in which [__init__] reaches its call of [update_gamma] (line 52):
    the ramp is captured, the two exit handlers are registered, the window and
    the status label exist, the three variables hold the loaded configuration. *)
Definition prepared (w : World) : World :=
  let r := fresh (dom (heap w)) in
  let ok := gdi_ok w (length (trace w)) in
  let c := loaded_config (config_json w) in
  mkWorld (screen w) (gdi_ok w)
    (<[r := if ok then screen w else GammaRamp_new]> (heap w))
    (atexit_handlers w ++ [restore_closure r; atexit_restore_method])
    (config_json w) (disk_ok w)
    (trace w ++ GetDeviceGammaRamp r ok ::
       match config_json w with Corrupt => [ShowWarning] | _ => [] end)
    (mkGui (Some r) (Some (mkWindow true false))
       (Some (cfg_gamma c)) (Some (cfg_brightness c)) (Some (cfg_contrast c))
       (Some c) (Some Ready) (icon (self w))).

(** The outcome of the main loop when nothing stops it early. *)
Definition loop_outcome (crash : option exn) : result unit :=
  match crash with Some e => Raise e | None => Ok tt end.

(** A started instance whose config.json cannot be opened for writing. *)
Definition read_only_session : World :=
  let w := exec (__init__ pow_unit_exponent) (boot (fun _ => true) Absent) in
  mkWorld (screen w) (gdi_ok w) (heap w) (atexit_handlers w) (config_json w) false
    (trace w) (self w).

(** What is asked of the power [**] where a run must not raise: it returns on
    bases in [0, 1].  (Python raises for [0.0 ** negative] and on overflow,
    neither of which such a base and the exponents of the transform meet.) *)
Definition pow_returns (float_pow : float -> float -> result float) : Prop :=
  forall x e, (0 <=? x)%float = true -> (x <=? 1)%float = true ->
    exists p, float_pow x e = Ok p.

(** A stand-in for the power that returns on every input: the base at
    exponent one and 1.0 elsewhere. *)
Definition pow_total_unit (x y : float) : result float :=
  Ok (if (y =? 1)%float then x else 1%float).

(** The display shows the table of the three variables. *)
Definition shows (float_pow : float -> float -> result float) (w : World) : Prop :=
  exists g b c,
    gamma_var (self w) = Some g /\ brightness_var (self w) = Some b /\
    contrast_var (self w) = Some c /\
    forall i, (i < GAMMA_RAMP_SIZE)%nat ->
      exists v, ramp_val_16bit float_pow g b c i = Ok v /\
                red (screen w) !! i = Some v /\ green (screen w) !! i = Some v /\
                blue (screen w) !! i = Some v.

(** The display and the three variables are as they were. *)
Definition same_display (w w' : World) : Prop :=
  screen w' = screen w /\
  gamma_var (self w') = gamma_var (self w) /\
  brightness_var (self w') = brightness_var (self w) /\
  contrast_var (self w') = contrast_var (self w).

(** A running instance in step with its display. *)
Record tuned (float_pow : float -> float -> result float) (w : World) : Prop := mkTuned {
  tuned_shows : shows float_pow w;
  tuned_wf : ramp_wf (screen w);
  tuned_driver : forall n, gdi_ok w n = true;
  tuned_status : is_Some (status (self w));
  tuned_root : is_Some (root (self w));
  tuned_config : is_Some (config (self w))
}.

(** * Proofs *)

(** digits *)
Lemma digits2_pos_bounds (m : positive) :
  2 ^ (Zpos (digits2_pos m) - 1) <= Zpos m < 2 ^ Zpos (digits2_pos m).
Proof.
  induction m as [m IH | m IH |]; simpl digits2_pos.
  - rewrite Pos2Z.inj_succ, Z.pow_succ_r by lia.
    replace (Z.succ (Zpos (digits2_pos m)) - 1) with (Z.succ (Zpos (digits2_pos m) - 1)) by lia.
    rewrite Z.pow_succ_r by lia. lia.
  - rewrite Pos2Z.inj_succ, Z.pow_succ_r by lia.
    replace (Z.succ (Zpos (digits2_pos m)) - 1) with (Z.succ (Zpos (digits2_pos m) - 1)) by lia.
    rewrite Z.pow_succ_r by lia. lia.
  - simpl. lia.
Qed.

Lemma digits2_pos_le (m : positive) (k : Z) :
  Zpos m < 2 ^ k -> Zpos (digits2_pos m) <= k.
Proof.
  intros H. destruct (digits2_pos_bounds m) as [Hlo _].
  destruct (Z_lt_le_dec k (Zpos (digits2_pos m))) as [Hk|]; [|lia].
  exfalso.
  destruct (Z_lt_le_dec k 0).
  - rewrite Z.pow_neg_r in H by lia. lia.
  - assert (2 ^ k <= 2 ^ (Zpos (digits2_pos m) - 1)) by (apply Z.pow_le_mono_r; lia). lia.
Qed.

Lemma shr_1_m (r : shr_record) : 0 <= shr_m r -> shr_m (shr_1 r) = shr_m r / 2.
Proof.
  intros Hm. rewrite <- Z.div2_div.
  destruct r as [m rb sb]; simpl in *.
  destruct m as [|[p|p|]|p]; try reflexivity; lia.
Qed.

Lemma iter_shr_1_m (p : positive) : forall r,
  0 <= shr_m r -> shr_m (SpecFloat.iter_pos shr_1 p r) = shr_m r / 2 ^ Zpos p.
Proof.
  induction p as [p IH | p IH |]; intros r Hr; simpl SpecFloat.iter_pos.
  - assert (H1 : 0 <= shr_m (shr_1 r)) by (rewrite shr_1_m by lia; apply Z.div_pos; lia).
    assert (H2 : 0 <= shr_m (SpecFloat.iter_pos shr_1 p (shr_1 r))) by (rewrite IH by lia; apply Z.div_pos; lia).
    rewrite IH, IH, shr_1_m by lia.
    rewrite !Z.div_div by lia. f_equal.
    rewrite Pos2Z.inj_xI, <- Z.pow_add_r, <- (Z.pow_1_r 2) at 1 by lia.
    rewrite <- Z.pow_add_r by lia. f_equal. lia.
  - assert (H2 : 0 <= shr_m (SpecFloat.iter_pos shr_1 p r)) by (rewrite IH by lia; apply Z.div_pos; lia).
    rewrite IH, IH by lia.
    rewrite !Z.div_div by lia. f_equal.
    rewrite Pos2Z.inj_xO, <- Z.pow_add_r by lia. f_equal. lia.
  - rewrite shr_1_m by lia. reflexivity.
Qed.

Lemma Zdigits2_le (m k : Z) : 0 <= m -> 0 <= k -> m < 2 ^ k -> Zdigits2 m <= k.
Proof.
  intros Hm Hk H. destruct m as [|p|p]; simpl; try lia.
  apply digits2_pos_le; assumption.
Qed.

Lemma shr_fexp_spec (m e : Z) (l : location) :
  0 <= m ->
  let n := fexp prec emax (Zdigits2 m + e) - e in
  shr_m (fst (shr_fexp prec emax m e l)) = (if 0 <? n then m / 2 ^ n else m) /\
  snd (shr_fexp prec emax m e l) = (if 0 <? n then e + n else e).
Proof.
  intros Hm n. unfold shr_fexp. fold n. unfold shr.
  assert (Hr : shr_m (shr_record_of_loc m l) = m) by (destruct l as [|[]]; reflexivity).
  destruct n as [|p|p]; simpl; auto.
  rewrite iter_shr_1_m by lia. rewrite Hr. auto.
Qed.

Lemma round_nearest_even_bounds (m : Z) (l : location) :
  m <= round_nearest_even m l <= m + 1.
Proof.
  destruct l as [|[]]; simpl; try lia.
  destruct (Z.even m); lia.
Qed.

(** Rounding a positive number that lies below an integer bound [B] of at most
    [k] bits, [k <= 53], never rounds past [B]. *)
Lemma binary_round_aux_below (sx : bool) (mx ex : Z) (lx : location) (B k : Z) :
  0 < mx -> ex <= 0 -> 0 <= k <= 53 -> 0 < B < 2 ^ k ->
  mx < B * 2 ^ (- ex) ->
  binary_round_aux prec emax sx mx ex lx = S754_zero sx \/
  exists m e, binary_round_aux prec emax sx mx ex lx = S754_finite sx m e /\
              Z.shiftl (Zpos m) e <= B.
Proof.
  intros Hmx Hex Hk HB Hlt.
  unfold binary_round_aux.
  destruct (shr_fexp_spec mx ex lx ltac:(lia)) as [Hm1 He1].
  destruct (shr_fexp prec emax mx ex lx) as [r1 e1]; simpl in Hm1, He1.
  set (n1 := fexp prec emax (Zdigits2 mx + ex) - ex) in *.
  assert (Hpow : forall a, a <= 0 -> B * 2 ^ (- a) < 2 ^ (k - a)).
  { intros a Ha. replace (k - a) with (k + - a) by lia.
    rewrite Z.pow_add_r by lia.
    apply Z.mul_lt_mono_pos_r; [apply Z.pow_pos_nonneg; lia | lia]. }
  assert (Hd : Zdigits2 mx + ex <= k).
  { assert (Zdigits2 mx <= k - ex); [|lia].
    apply Zdigits2_le; try lia. specialize (Hpow ex Hex). lia. }
  (* after the first shift *)
  assert (H1 : e1 <= 0 /\ 0 <= shr_m r1 /\ shr_m r1 < B * 2 ^ (- e1)).
  { destruct (Z.ltb_spec 0 n1) as [Hn|Hn]; subst e1; rewrite Hm1.
    - assert (He : ex + n1 = fexp prec emax (Zdigits2 mx + ex)) by (unfold n1; lia).
      assert (ex + n1 <= 0).
      { rewrite He. unfold fexp, emin, prec, emax. lia. }
      split; [lia|]. split; [apply Z.div_pos; [lia | apply Z.pow_pos_nonneg; lia]|].
      apply Z.div_lt_upper_bound; [apply Z.pow_pos_nonneg; lia|].
      replace (2 ^ n1 * (B * 2 ^ (- (ex + n1)))) with (B * 2 ^ (- ex)); [assumption|].
      replace (- ex) with (n1 + - (ex + n1)) by lia.
      rewrite Z.pow_add_r by lia. ring.
    - repeat split; lia. }
  destruct H1 as (He1' & Hm1lo & Hm1hi).
  pose proof (round_nearest_even_bounds (shr_m r1) (loc_of_shr_record r1)) as Hrne.
  set (m2 := round_nearest_even (shr_m r1) (loc_of_shr_record r1)) in *.
  destruct (shr_fexp_spec m2 e1 loc_Exact ltac:(lia)) as [Hm3 He3].
  destruct (shr_fexp prec emax m2 e1 loc_Exact) as [r3 e3]; simpl in Hm3, He3.
  set (n2 := fexp prec emax (Zdigits2 m2 + e1) - e1) in *.
  assert (Hd2 : Zdigits2 m2 + e1 <= k).
  { assert (Zdigits2 m2 <= k - e1); [|lia].
    apply Zdigits2_le; try lia. specialize (Hpow e1 He1'). lia. }
  assert (He3' : e3 <= 0).
  { subst e3. destruct (Z.ltb_spec 0 n2); [|lia].
    replace (e1 + n2) with (fexp prec emax (Zdigits2 m2 + e1)) by (unfold n2; lia).
    unfold fexp, emin, prec, emax. lia. }
  assert (Hsh : shr_m r3 / 2 ^ (- e3) <= B).
  { assert (Hq : m2 / 2 ^ (- e1) <= B).
    { apply Z.div_le_upper_bound; [apply Z.pow_pos_nonneg; lia|]. lia. }
    subst e3. rewrite Hm3. destruct (Z.ltb_spec 0 n2) as [Hn|Hn]; [|assumption].
    rewrite Z.div_div by (try apply Z.pow_pos_nonneg; lia).
    rewrite <- Z.pow_add_r by lia.
    replace (n2 + - (e1 + n2)) with (- e1) by lia. assumption. }
  assert (Hm3' : 0 <= shr_m r3).
  { rewrite Hm3. destruct (Z.ltb_spec 0 n2); [apply Z.div_pos; [lia | apply Z.pow_pos_nonneg; lia] | lia]. }
  destruct (shr_m r3) as [|m3|m3] eqn:E3; [left; reflexivity | right | lia].
  exists m3, e3. split.
  - destruct (Z.leb_spec e3 (emax - prec)) as [|Hbad]; [reflexivity|].
    unfold emax, prec in Hbad. lia.
  - rewrite Z.shiftl_div_pow2 by lia. assumption.
Qed.

Lemma SFltb_finite_pos (m1 m2 : positive) (e1 e2 : Z) :
  SFltb (S754_finite false m1 e1) (S754_finite false m2 e2) = true ->
  e1 < e2 \/ (e1 = e2 /\ Zpos m1 < Zpos m2).
Proof.
  unfold SFltb, SFcompare.
  destruct (Z.compare_spec e1 e2) as [He|He|He]; try discriminate; [|lia].
  intros H. right. split; [assumption|].
  destruct (Pos.compare_cont Eq m1 m2) eqn:Hc; try discriminate.
  change (Pos.compare m1 m2 = Lt) in Hc.
  exact Hc.
Qed.

(** A float strictly between 0 and 1 is a positive mantissa scaled by an
    exponent of at most -53. *)
Lemma open_unit_float (x : float) :
  (0 <? x)%float = true -> (x <? 1)%float = true ->
  exists m e, Prim2SF x = S754_finite false m e /\ e <= -53 /\ Zpos m < 2 ^ (- e).
Proof.
  intros H0 H1. rewrite FloatAxioms.ltb_spec in H0, H1.
  pose proof (Prim2SF_valid x) as Hv.
  change (Prim2SF 0) with (S754_zero false) in H0.
  change (Prim2SF 1) with (S754_finite false 4503599627370496 (-52)) in H1.
  destruct (Prim2SF x) as [s|s| |s m e]; try discriminate.
  - destruct s; discriminate.
  - destruct s; [discriminate|].
    exists m, e. split; [reflexivity|].
    simpl in Hv. apply andb_prop in Hv as [Hc _].
    unfold canonical_mantissa in Hc. apply Z.eqb_eq in Hc.
    unfold fexp, emin, prec, emax in Hc.
    pose proof (digits2_pos_bounds m) as [Hlo Hhi].
    apply SFltb_finite_pos in H1 as [He | [He Hm]].
    + assert (Hd : Zpos (digits2_pos m) <= 53) by lia.
      split; [lia|].
      apply Z.lt_le_trans with (1 := Hhi).
      apply Z.pow_le_mono_r; lia.
    + exfalso. subst e.
      assert (Zpos (digits2_pos m) <= 52) by (apply digits2_pos_le; exact Hm).
      lia.
Qed.

Lemma mul_65535_range (x : float) :
  (0 <? x)%float = true -> (x <? 1)%float = true ->
  exists v, py_int (x * float_of_int 65535)%float = Ok v /\ 0 <= v <= 65535.
Proof.
  intros H0 H1.
  destruct (open_unit_float x H0 H1) as (m & e & Hx & He & Hm).
  unfold py_int. rewrite FloatAxioms.mul_spec, Hx.
  change (Prim2SF (float_of_int 65535)) with (S754_finite false 9007061815787520 (-37)).
  unfold SF64mul, SFmul. simpl xorb.
  destruct (binary_round_aux_below false (Zpos (m * 9007061815787520)) (e + -37) loc_Exact 65535 16)
    as [Hz | (m' & e' & Hf & Hb)]; try lia.
  - rewrite Pos2Z.inj_mul.
    replace (- (e + -37)) with (37 + - e) by lia. rewrite Z.pow_add_r by lia.
    change (2 ^ 37) with 137438953472. lia.
  - rewrite Hz. exists 0. split; [reflexivity | lia].
  - rewrite Hf. exists (Z.shiftl (Zpos m') e'). split; [reflexivity|].
    split; [apply Z.shiftl_nonneg; lia | assumption].
Qed.

Lemma clamp_cases (x : float) :
  py_max 0.0 (py_min 1.0 x) = 0%float \/
  py_max 0.0 (py_min 1.0 x) = 1%float \/
  (py_max 0.0 (py_min 1.0 x) = x /\ (0 <? x)%float = true /\ (x <? 1)%float = true).
Proof.
  unfold py_max, py_min.
  destruct (x <? 1)%float eqn:H1.
  - destruct (0 <? x)%float eqn:H0; auto.
  - right; left. reflexivity.
Qed.

Lemma clamp_to_int (x : float) :
  exists v, py_int (py_max 0.0 (py_min 1.0 x) * float_of_int 65535)%float = Ok v /\ 0 <= v <= 65535.
Proof.
  destruct (clamp_cases x) as [-> | [-> | (-> & H0 & H1)]].
  - exists 0. split; [reflexivity | lia].
  - exists 65535. split; [reflexivity | lia].
  - apply mul_65535_range; assumption.
Qed.

Lemma gamma_floor_nonzero (gamma : float) : (py_max gamma 0.1 =? 0)%float = false.
Proof.
  unfold py_max. destruct (gamma <? 0.1)%float eqn:Hlt; [reflexivity|].
  rewrite FloatAxioms.eqb_spec. rewrite FloatAxioms.ltb_spec in Hlt.
  change (Prim2SF 0) with (S754_zero false).
  change (Prim2SF 0.1) with (S754_finite false 7205759403792794 (-56)) in Hlt.
  destruct (Prim2SF gamma) as [s|s| |s m e]; try reflexivity.
  - discriminate.
  - destruct s; reflexivity.
  - destruct s; reflexivity.
Qed.

Section S.
Variable float_pow : float -> float -> result float.

Lemma ramp_final_cases (gamma brightness contrast : float) (i : nat) :
  exists normalized expo,
    py_truediv (float_of_int (Z.of_nat i)) 255.0 = Ok normalized /\
    py_truediv 1.0 (py_max gamma 0.1) = Ok expo /\
    match float_pow normalized expo with
    | Ok p => exists x, ramp_final float_pow gamma brightness contrast i = Ok (py_max 0.0 (py_min 1.0 x))
    | Raise e => ramp_final float_pow gamma brightness contrast i = Raise e
    end.
Proof.
  unfold ramp_final, py_truediv.
  change (255 =? 0)%float with false. rewrite gamma_floor_nonzero. simpl rbind.
  eexists _, _. split; [reflexivity|]. split; [reflexivity|].
  destruct (float_pow _ _) as [p|e]; simpl; eauto.
Qed.

Lemma ramp_val_16bit_cases (gamma brightness contrast : float) (i : nat) :
  (exists v, ramp_val_16bit float_pow gamma brightness contrast i = Ok v /\ 0 <= v <= 65535) \/
  (exists normalized expo e,
     py_truediv (float_of_int (Z.of_nat i)) 255.0 = Ok normalized /\
     py_truediv 1.0 (py_max gamma 0.1) = Ok expo /\
     float_pow normalized expo = Raise e /\
     ramp_val_16bit float_pow gamma brightness contrast i = Raise e).
Proof.
  destruct (ramp_final_cases gamma brightness contrast i) as (n & x & Hn & Hx & H).
  unfold ramp_val_16bit.
  destruct (float_pow n x) as [p|e] eqn:Hp.
  - left. destruct H as [y ->]. simpl. apply clamp_to_int.
  - right. exists n, x, e. rewrite H. auto.
Qed.
End S.

(** ** The state after a statement *)

Lemma set_heap_same (w : World) : set_heap (heap w) w = w.
Proof. destruct w; reflexivity. Qed.

Lemma ramp_wf_new : ramp_wf GammaRamp_new.
Proof. repeat split; apply length_replicate. Qed.

(** One assignment to the three channels at an index in range. *)
Lemma ramp_store_spec (r : ref) (i : nat) (v : Z) (w : World) (t : GammaRamp) :
  heap w !! r = Some t -> ramp_wf t -> (i < GAMMA_RAMP_SIZE)%nat ->
  ramp_store r i v w =
    (Ok tt, set_heap (<[r := mkRamp (<[i := USHORT v]> (red t)) (<[i := USHORT v]> (green t))
                                    (<[i := USHORT v]> (blue t))]> (heap w)) w).
Proof.
  intros Hr (Hred & Hgreen & Hblue) Hi.
  unfold ramp_store, bind, store. simpl.
  rewrite Hr. simpl. rewrite bool_decide_eq_true_2 by lia. simpl.
  rewrite lookup_insert_eq. simpl. rewrite bool_decide_eq_true_2 by lia. simpl.
  rewrite lookup_insert_eq. simpl. rewrite bool_decide_eq_true_2 by lia. simpl.
  rewrite !insert_insert_eq. reflexivity.
Qed.

Section Loop.
Variable float_pow : float -> float -> result float.
Variables gamma brightness contrast : float.
Variable r : ref.

Let body (i : nat) : M unit :=
  (val_16bit <- lift (ramp_val_16bit float_pow gamma brightness contrast i) ;;
   ramp_store r i val_16bit)%py.

Lemma ramp_loop_spec (n : nat) : forall (k : nat) (w : World) (t : GammaRamp),
  heap w !! r = Some t -> ramp_wf t -> (k + n <= GAMMA_RAMP_SIZE)%nat ->
  exists t' res, for_each (seq k n) body w = (res, set_heap (<[r := t']> (heap w)) w) /\
    match res with
    | Ok _ =>
        ramp_wf t' /\
        (forall i, (k <= i < k + n)%nat -> entry_written float_pow gamma brightness contrast t' i) /\
        (forall i, ~ (k <= i < k + n)%nat -> entry_kept t t' i)
    | Raise e =>
        exists i, (k <= i < k + n)%nat /\
                  ramp_val_16bit float_pow gamma brightness contrast i = Raise e
    end.
Proof.
  induction n as [|n IH]; intros k w t Hr Hwf Hk.
  - exists t, (Ok tt). simpl. unfold ret. rewrite insert_id, set_heap_same by assumption.
    split; [reflexivity|]. split; [assumption|].
    split; [intros; lia | intros; repeat split].
  - simpl seq. simpl for_each. unfold bind at 1. unfold body at 1. unfold bind at 1, lift at 1.
    destruct (ramp_val_16bit float_pow gamma brightness contrast k) as [v|e] eqn:Hv.
    + rewrite (ramp_store_spec r k v w t Hr Hwf) by lia.
      set (t1 := mkRamp _ _ _). set (w1 := set_heap _ w).
      assert (Hr1 : heap w1 !! r = Some t1) by (apply lookup_insert_eq).
      assert (Hwf1 : ramp_wf t1).
      { destruct Hwf as (? & ? & ?). repeat split; simpl; rewrite length_insert; assumption. }
      assert (Hk1 : (S k + n <= GAMMA_RAMP_SIZE)%nat) by (clear -Hk; lia).
      destruct (IH (S k) w1 t1 Hr1 Hwf1 Hk1) as (t' & res & Hw' & Hres).
      exists t', res. split.
      { rewrite Hw'. unfold w1. simpl. rewrite insert_insert_eq. reflexivity. }
      destruct res as [u|e'].
      * destruct Hres as (Hwf' & Hin & Hout). split; [assumption|]. split.
        -- intros i Hi. destruct (decide (i = k)) as [->|Hne]; [|apply Hin; lia].
           destruct (Hout k ltac:(lia)) as (Hr' & Hg' & Hb').
           destruct Hwf as (? & ? & ?).
           exists v. split; [assumption|].
           rewrite Hr', Hg', Hb'. simpl.
           rewrite !list_lookup_insert_eq by lia. auto.
        -- intros i Hi. destruct (Hout i ltac:(lia)) as (Hr' & Hg' & Hb').
           unfold entry_kept. rewrite Hr', Hg', Hb'. simpl.
           rewrite !list_lookup_insert_ne by lia. auto.
      * destruct Hres as (i & Hi & He). exists i. split; [lia | assumption].
    + exists t, (Raise e). rewrite insert_id, set_heap_same by assumption.
      split; [reflexivity|]. exists k. split; [lia | assumption].
Qed.

End Loop.

Section Frames.
Variable float_pow : float -> float -> result float.

Lemma frame_refl (s : bool) (w : World) : frame s w w.
Proof.
  split; [auto|]. split; [reflexivity|].
  exists []. rewrite app_nil_r. split; [reflexivity | constructor].
Qed.

Lemma scratch_event_mono (h h' : gmap ref GammaRamp) (e : event) :
  (forall r t, h !! r = Some t -> h' !! r = Some t) ->
  scratch_event h' e -> scratch_event h e.
Proof.
  intros Hsub. destruct e; simpl; auto.
  intros Hnone. destruct (h !! buf) as [t|] eqn:E; [|reflexivity].
  apply Hsub in E. congruence.
Qed.

Lemma frame_trans (s : bool) (w1 w2 w3 : World) :
  frame s w1 w2 -> frame s w2 w3 -> frame s w1 w3.
Proof.
  intros (Hh1 & Ho1 & evs1 & Ht1 & Hs1) (Hh2 & Ho2 & evs2 & Ht2 & Hs2).
  split; [auto|]. split; [congruence|].
  exists (evs1 ++ evs2). split; [rewrite Ht2, Ht1, app_assoc; reflexivity|].
  intros Hs. apply Forall_app. split; [auto|].
  eapply Forall_impl; [apply Hs2, Hs|].
  intros e. apply scratch_event_mono, Hh1.
Qed.

Lemma frame_weaken (s : bool) (w w' : World) : frame true w w' -> frame s w w'.
Proof.
  intros (Hh & Ho & evs & Ht & Hs). split; [auto|]. split; [auto|].
  exists evs. split; auto.
Qed.

Lemma framed_weaken {A} (s : bool) (m : M A) : framed true m -> framed s m.
Proof. intros H w. apply frame_weaken, H. Qed.

Lemma framed_ret {A} (s : bool) (a : A) : framed s (ret a).
Proof. intros w. apply frame_refl. Qed.

Lemma framed_raise {A} (s : bool) (e : exn) : framed s (@raise A e).
Proof. intros w. apply frame_refl. Qed.

Lemma framed_lift {A} (s : bool) (r : result A) : framed s (lift r).
Proof. intros w. apply frame_refl. Qed.

Lemma framed_getattr {A} (s : bool) (attr : Gui -> option A) : framed s (getattr attr).
Proof. intros w. unfold getattr. destruct (attr (self w)); apply frame_refl. Qed.

Lemma framed_hasattr {A} (s : bool) (attr : Gui -> option A) : framed s (hasattr attr).
Proof. intros w. apply frame_refl. Qed.

Lemma framed_bind {A B} (s : bool) (m : M A) (k : A -> M B) :
  framed s m -> (forall a, framed s (k a)) -> framed s (bind m k).
Proof.
  intros Hm Hk w. unfold bind. specialize (Hm w).
  destruct (m w) as [[a|e] w']; simpl in *; [|assumption].
  eapply frame_trans; [eassumption | apply Hk].
Qed.

Lemma framed_try_except {A} (s : bool) (m : M A) (h : exn -> M A) :
  framed s m -> (forall e, framed s (h e)) -> framed s (try_except m h).
Proof.
  intros Hm Hh w. unfold try_except. specialize (Hm w).
  destruct (m w) as [[a|e] w']; simpl in *; [assumption|].
  eapply frame_trans; [eassumption | apply Hh].
Qed.

Lemma framed_try_finally {A} (s : bool) (m : M A) (c : M unit) :
  framed s m -> framed s c -> framed s (try_finally m c).
Proof.
  intros Hm Hc w. unfold try_finally. specialize (Hm w).
  destruct (m w) as [r w']. specialize (Hc w').
  destruct (c w') as [[u|e] w'']; simpl in *; eapply frame_trans; eassumption.
Qed.

Lemma framed_if {A} (s : bool) (b : bool) (m1 m2 : M A) :
  framed s m1 -> framed s m2 -> framed s (if b then m1 else m2).
Proof. destruct b; auto. Qed.

Lemma framed_for_each {A} (s : bool) (l : list A) (body : A -> M unit) :
  (forall a, framed s (body a)) -> framed s (for_each l body).
Proof.
  intros Hb. induction l as [|a l IH]; simpl.
  - apply framed_ret.
  - apply framed_bind; auto.
Qed.

(** Assignments to attributes other than [original_ramp]. *)
Lemma framed_modify_self (s : bool) (f : Gui -> Gui) :
  (forall g, original_ramp (f g) = original_ramp g) -> framed s (modify (on_self f)).
Proof.
  intros Hf w. split; [auto|]. split; [simpl; apply Hf|].
  exists []. simpl. rewrite app_nil_r. split; [reflexivity | constructor].
Qed.

Lemma framed_emit (s : bool) (e : event) :
  (forall buf t ok, e <> SetDeviceGammaRamp buf t ok) -> framed s (emit e).
Proof.
  intros He w. split; [auto|]. split; [reflexivity|].
  exists [e]. split; [reflexivity|]. intros _. constructor; [|constructor].
  destruct e; simpl; auto. exfalso. eapply He. reflexivity.
Qed.

Lemma framed_modify_atexit (s : bool) (f : World -> list exit_handler) :
  framed s (modify (fun w => set_atexit_handlers (f w) w)).
Proof.
  intros w. split; [auto|]. split; [reflexivity|].
  exists []. simpl. rewrite app_nil_r. split; [reflexivity | constructor].
Qed.

Lemma framed_modify_config_json (s : bool) (f : file) :
  framed s (modify (set_config_json f)).
Proof.
  intros w. split; [auto|]. split; [reflexivity|].
  exists []. simpl. rewrite app_nil_r. split; [reflexivity | constructor].
Qed.

End Frames.

Lemma store_footprint (c : channel) (r : ref) (i : nat) (v : Z) (w : World) (t : GammaRamp) :
  heap w !! r = Some t ->
  exists t' res, store c r i v w = (res, set_heap (<[r := t']> (heap w)) w).
Proof.
  intros Hr. unfold store. rewrite Hr.
  destruct (bool_decide _).
  - eexists _, _. reflexivity.
  - exists t, (Raise IndexError). rewrite insert_id, set_heap_same by assumption. reflexivity.
Qed.

Lemma bind_ok {A B} (m : M A) (k : A -> M B) (w w' : World) (a : A) :
  m w = (Ok a, w') -> bind m k w = k a w'.
Proof. intros H. unfold bind. rewrite H. reflexivity. Qed.

Lemma bind_raise {A B} (m : M A) (k : A -> M B) (w w' : World) (e : exn) :
  m w = (Raise e, w') -> bind m k w = (Raise e, w').
Proof. intros H. unfold bind. rewrite H. reflexivity. Qed.

Lemma set_heap_twice (h1 h2 : gmap ref GammaRamp) (w : World) :
  set_heap h2 (set_heap h1 w) = set_heap h2 w.
Proof. reflexivity. Qed.

Lemma ramp_store_footprint (r : ref) (i : nat) (v : Z) (w : World) (t : GammaRamp) :
  heap w !! r = Some t ->
  exists t' res, ramp_store r i v w = (res, set_heap (<[r := t']> (heap w)) w).
Proof.
  intros Hr. unfold ramp_store.
  destruct (store_footprint Red r i (USHORT v) w t Hr) as (t1 & [u1|e1] & H1);
    [|rewrite (bind_raise _ _ _ _ _ H1); eauto].
  rewrite (bind_ok _ _ _ _ _ H1).
  destruct (store_footprint Green r i (USHORT v) (set_heap (<[r:=t1]> (heap w)) w) t1)
    as (t2 & [u2|e2] & H2); [apply lookup_insert_eq | | ];
    simpl heap in H2; rewrite insert_insert_eq, set_heap_twice in H2;
    [|rewrite (bind_raise _ _ _ _ _ H2); eauto].
  rewrite (bind_ok _ _ _ _ _ H2).
  destruct (store_footprint Blue r i (USHORT v) (set_heap (<[r:=t2]> (heap w)) w) t2)
    as (t3 & res & H3); [apply lookup_insert_eq|].
  simpl heap in H3; rewrite insert_insert_eq, set_heap_twice in H3.
  rewrite H3. eauto.
Qed.

Section AllScreens.
Variable float_pow : float -> float -> result float.
Variables gamma brightness contrast : float.

Lemma ramp_loop_footprint (r : ref) (l : list nat) : forall (w : World) (t : GammaRamp),
  heap w !! r = Some t ->
  exists t' res,
    for_each l (fun i =>
      val_16bit <- lift (ramp_val_16bit float_pow gamma brightness contrast i) ;;
      ramp_store r i val_16bit)%py w = (res, set_heap (<[r := t']> (heap w)) w).
Proof.
  induction l as [|i l IH]; intros w t Hr; simpl.
  - exists t, (Ok tt). unfold ret. rewrite insert_id, set_heap_same by assumption. reflexivity.
  - unfold bind at 1. unfold bind at 1, lift at 1.
    destruct (ramp_val_16bit float_pow gamma brightness contrast i) as [v|e].
    + destruct (ramp_store_footprint r i v w t Hr) as (t1 & [u|e] & ->); [|eauto].
      destruct (IH (set_heap (<[r:=t1]> (heap w)) w) t1) as (t' & res & ->);
        [apply lookup_insert_eq|].
      simpl heap. rewrite insert_insert_eq, set_heap_twice. eauto.
    + exists t, (Raise e). rewrite insert_id, set_heap_same by assumption. reflexivity.
Qed.

Lemma get_gamma_ramp_spec (w : World) :
  let r := fresh (dom (heap w)) in
  let ok := gdi_ok w (length (trace w)) in
  get_gamma_ramp w =
    (Ok r, mkWorld (screen w) (gdi_ok w)
             (<[r := if ok then screen w else GammaRamp_new]> (heap w))
             (atexit_handlers w) (config_json w) (disk_ok w)
             (trace w ++ [GetDeviceGammaRamp r ok]) (self w)).
Proof.
  intros r ok. unfold get_gamma_ramp, bind, GammaRamp_alloc, gdi32_GetDeviceGammaRamp, ret.
  simpl. fold r. fold ok. destruct ok; simpl; [rewrite insert_insert_eq|]; reflexivity.
Qed.

Lemma set_gamma_ramp_spec (r : ref) (w : World) (t : GammaRamp) :
  heap w !! r = Some t ->
  let ok := gdi_ok w (length (trace w)) in
  set_gamma_ramp r w =
    (Ok ok, mkWorld (if ok then t else screen w) (gdi_ok w) (heap w)
              (atexit_handlers w) (config_json w) (disk_ok w)
              (trace w ++ [SetDeviceGammaRamp r t ok]) (self w)).
Proof.
  intros Hr ok. unfold set_gamma_ramp, bind, gdi32_SetDeviceGammaRamp, ret.
  rewrite Hr. fold ok. destruct ok; reflexivity.
Qed.

Lemma set_gamma_ramp_unallocated (r : ref) (w : World) :
  heap w !! r = None -> set_gamma_ramp r w = (Raise OSError, w).
Proof.
  intros Hr. unfold set_gamma_ramp, bind, gdi32_SetDeviceGammaRamp. rewrite Hr. reflexivity.
Qed.

(** The whole of [set_gamma_ramp_all_screens]: one read into a fresh buffer,
    then either an exception out of the loop, or one write of the table the
    loop has built. *)
Lemma all_screens_spec (w : World) :
  let r := fresh (dom (heap w)) in
  let ok0 := gdi_ok w (length (trace w)) in
  exists t res,
    set_gamma_ramp_all_screens float_pow gamma brightness contrast w =
      (res, mkWorld (match res with
                     | Ok true => t
                     | _ => screen w
                     end)
              (gdi_ok w) (<[r := t]> (heap w))
              (atexit_handlers w) (config_json w) (disk_ok w)
              (trace w ++ GetDeviceGammaRamp r ok0 ::
                 match res with
                 | Ok ok => [SetDeviceGammaRamp r t ok]
                 | Raise _ => []
                 end)
              (self w)) /\
    match res with
    | Ok ok =>
        ok = gdi_ok w (S (length (trace w))) /\
        (ramp_wf (screen w) ->
         ramp_wf t /\
         forall i, (i < GAMMA_RAMP_SIZE)%nat ->
                   entry_written float_pow gamma brightness contrast t i)
    | Raise e =>
        ramp_wf (screen w) ->
        exists i, (i < GAMMA_RAMP_SIZE)%nat /\
                  ramp_val_16bit float_pow gamma brightness contrast i = Raise e
    end.
Proof.
  intros r ok0. unfold set_gamma_ramp_all_screens.
  unfold bind at 1. rewrite get_gamma_ramp_spec. fold r. fold ok0.
  set (t0 := if ok0 then screen w else GammaRamp_new).
  set (w1 := mkWorld _ _ _ _ _ _ _ _).
  assert (Hr1 : heap w1 !! r = Some t0) by apply lookup_insert_eq.
  unfold bind at 1.
  destruct (decide (ramp_wf (screen w))) as [Hwf|Hnwf].
  - assert (Hwf0 : ramp_wf t0) by (unfold t0; destruct ok0; [assumption | apply ramp_wf_new]).
    destruct (ramp_loop_spec float_pow gamma brightness contrast r GAMMA_RAMP_SIZE 0 w1 t0
                Hr1 Hwf0 ltac:(reflexivity)) as (t' & res & -> & Hres).
    destruct res as [u|e].
    + destruct Hres as (Hwf' & Hin & _).
      rewrite (set_gamma_ramp_spec r _ t') by apply lookup_insert_eq.
      simpl. rewrite insert_insert_eq, length_app. simpl.
      replace (length (trace w) + 1)%nat with (S (length (trace w))) by lia.
      set (ok := gdi_ok w _).
      exists t', (Ok ok). split.
      * rewrite <- app_assoc. destruct ok; reflexivity.
      * split; [reflexivity|]. intros _. split; [assumption|]. intros i Hi. apply Hin. lia.
    + exists t', (Raise e). simpl. rewrite insert_insert_eq. split; [reflexivity|].
      intros _. destruct Hres as (i & Hi & He). exists i. split; [lia | assumption].
  - destruct (ramp_loop_footprint r (seq 0 GAMMA_RAMP_SIZE) w1 t0 Hr1) as (t' & res & ->).
    destruct res as [u|e].
    + rewrite (set_gamma_ramp_spec r _ t') by apply lookup_insert_eq.
      simpl. rewrite insert_insert_eq, length_app. simpl.
      replace (length (trace w) + 1)%nat with (S (length (trace w))) by lia.
      set (ok := gdi_ok w _).
      exists t', (Ok ok). split.
      * rewrite <- app_assoc. destruct ok; reflexivity.
      * split; [reflexivity|]. intros Hwf. contradiction.
    + exists t', (Raise e). simpl. rewrite insert_insert_eq. split; [reflexivity|].
      intros Hwf. contradiction.
Qed.

End AllScreens.

Section MethodFrames.
Variable float_pow : float -> float -> result float.

Lemma fresh_unallocated (h : gmap ref GammaRamp) : h !! fresh (dom h) = None.
Proof. apply not_elem_of_dom, is_fresh. Qed.

Lemma lookup_insert_fresh (h : gmap ref GammaRamp) (r : ref) (t t' : GammaRamp) :
  h !! r = Some t -> <[fresh (dom h) := t']> h !! r = Some t.
Proof.
  intros Hr. rewrite lookup_insert_ne; [assumption|].
  intros <-. rewrite fresh_unallocated in Hr. discriminate.
Qed.

Lemma framed_set_gamma_ramp_all_screens (s : bool) (gamma brightness contrast : float) :
  framed s (set_gamma_ramp_all_screens float_pow gamma brightness contrast).
Proof.
  apply framed_weaken. intros w.
  destruct (all_screens_spec float_pow gamma brightness contrast w) as (t & res & -> & _).
  split; [|split; [reflexivity|]].
  - intros r t'. simpl. apply lookup_insert_fresh.
  - eexists. split; [reflexivity|]. intros _.
    constructor; [exact I|].
    destruct res as [ok|e]; constructor; [|constructor].
    simpl. apply fresh_unallocated.
Qed.

Lemma framed_set_gamma_ramp (r : ref) : framed false (set_gamma_ramp r).
Proof.
  intros w. destruct (heap w !! r) as [t|] eqn:Hr.
  - rewrite (set_gamma_ramp_spec r w t Hr).
    split; [auto|]. split; [reflexivity|].
    eexists. split; [reflexivity | discriminate].
  - rewrite set_gamma_ramp_unallocated by assumption. apply frame_refl.
Qed.

Lemma framed_load_config (s : bool) : framed s load_config.
Proof.
  intros w. unfold load_config. destruct (config_json w); try apply frame_refl.
  split; [auto|]. split; [reflexivity|].
  eexists. split; [reflexivity|]. intros _. repeat constructor.
Qed.

Lemma framed_slider_set (s : bool) (sl : slider) (v : float) :
  framed s (modify (on_self (slider_set sl (Some v)))).
Proof. apply framed_modify_self. intros g. destruct sl; reflexivity. Qed.

End MethodFrames.

Create HintDb frames.

#[export] Hint Resolve framed_load_config framed_set_gamma_ramp_all_screens
  framed_set_gamma_ramp framed_slider_set framed_modify_atexit
  framed_modify_config_json : frames.

Ltac framing :=
  repeat first
    [ progress intros
    | solve [auto with frames nocore]
    | simple apply framed_ret | simple apply framed_raise | simple apply framed_lift
    | simple apply framed_getattr | simple apply framed_hasattr
    | simple apply framed_bind | simple apply framed_try_except
    | simple apply framed_try_finally
    | simple apply framed_if | simple apply framed_for_each
    | simple apply framed_modify_self; intros ?; reflexivity
    | simple apply framed_emit; discriminate ].

Section Methods.
Variable float_pow : float -> float -> result float.

Lemma framed_status_config (s : bool) (t : status_text) : framed s (status_config t).
Proof. unfold status_config. framing. Qed.

Lemma framed_restore_gamma : framed false _restore_gamma.
Proof. unfold _restore_gamma. framing. Qed.

Lemma framed_save_config (s : bool) : framed s save_config.
Proof.
  unfold save_config. apply framed_try_except; [|framing].
  intros w. destruct (disk_ok w); [|apply frame_refl].
  eapply frame_trans; [|apply (framed_bind s); framing].
  split; [auto|]. split; [reflexivity|]. exists []. simpl. rewrite app_nil_r.
  split; [reflexivity | constructor].
Qed.

Lemma framed_save_to_config (s : bool) : framed s save_to_config.
Proof. unfold save_to_config. framing; first [apply framed_save_config | apply framed_status_config]. Qed.

Lemma framed_var_set (s : bool) (sl : slider) (v : float) :
  framed s (var_set (slider_var sl) (slider_set sl) v).
Proof. unfold var_set. framing. Qed.

Lemma framed_apply_config (s : bool) : framed s apply_config.
Proof.
  unfold apply_config.
  pose proof (fun v => framed_var_set s GammaSlider v) as Hg.
  pose proof (fun v => framed_var_set s BrightnessSlider v) as Hb.
  pose proof (fun v => framed_var_set s ContrastSlider v) as Hc.
  simpl in Hg, Hb, Hc. framing; auto.
Qed.

Lemma framed_update_gamma (s : bool) : framed s (update_gamma float_pow).
Proof. unfold update_gamma. framing; apply framed_status_config. Qed.

Lemma framed_load_from_config (s : bool) : framed s (load_from_config float_pow).
Proof.
  unfold load_from_config.
  framing; first [apply framed_apply_config | apply framed_update_gamma | apply framed_status_config].
Qed.

Lemma framed_reset (s : bool) : framed s (reset float_pow).
Proof.
  unfold reset.
  pose proof (fun v => framed_var_set s GammaSlider v) as Hg.
  pose proof (fun v => framed_var_set s BrightnessSlider v) as Hb.
  pose proof (fun v => framed_var_set s ContrastSlider v) as Hc.
  simpl in Hg, Hb, Hc.
  framing; first [apply Hg | apply Hb | apply Hc | apply framed_update_gamma | apply framed_status_config].
Qed.

Lemma framed_adjust_value (s : bool) (sl : slider) (delta lo hi : float) :
  framed s (adjust_value float_pow sl delta lo hi).
Proof.
  unfold adjust_value. framing; first [apply framed_var_set | apply framed_update_gamma].
Qed.

Lemma framed_on_closing (s : bool) : framed s on_closing.
Proof. unfold on_closing. framing. Qed.

Lemma framed_show_window (s : bool) : framed s show_window.
Proof. unfold show_window. framing. Qed.

Lemma framed_quit_app : framed false quit_app.
Proof.
  unfold quit_app.
  framing; first [apply framed_save_to_config | apply framed_restore_gamma].
Qed.

(** Every callback but Quit leaves the saved ramp out of what it hands to the
    driver. *)
Lemma framed_handle_strict (a : action) : a <> TrayQuit -> framed true (handle float_pow a).
Proof.
  intros Ha. destruct a; simpl; try congruence.
  - apply framed_bind; [apply framed_var_set | intros; apply framed_update_gamma].
  - apply framed_adjust_value.
  - apply framed_adjust_value.
  - apply framed_reset.
  - apply framed_save_to_config.
  - apply framed_load_from_config.
  - apply framed_on_closing.
  - apply framed_show_window.
Qed.

Lemma framed_handle (a : action) : framed false (handle float_pow a).
Proof.
  destruct a; try (apply framed_weaken, framed_handle_strict; discriminate).
  apply framed_quit_app.
Qed.
End Methods.

Lemma USHORT_small (v : Z) : 0 <= v <= 65535 -> USHORT v = v.
Proof. intros Hv. unfold USHORT. apply Z.mod_small. lia. Qed.

Lemma events_of_app {A} (m : M A) (w : World) (evs : list event) :
  trace (exec m w) = trace w ++ evs -> events_of m w = evs.
Proof. intros H. unfold events_of. rewrite H. apply drop_app_length. Qed.

Section TransformProperties.
Variable float_pow : float -> float -> result float.

(** The events of one call, read off [all_screens_spec]. *)
Lemma all_screens_events (gamma brightness contrast : float) (w : World) :
  ramp_wf (screen w) ->
  match fst (set_gamma_ramp_all_screens float_pow gamma brightness contrast w) with
  | Ok ok =>
      exists buf ok0 t,
        events_of (set_gamma_ramp_all_screens float_pow gamma brightness contrast) w =
          [GetDeviceGammaRamp buf ok0; SetDeviceGammaRamp buf t ok] /\
        ramp_wf t /\
        forall i, (i < GAMMA_RAMP_SIZE)%nat ->
                  entry_written float_pow gamma brightness contrast t i
  | Raise e =>
      (exists buf ok0,
         events_of (set_gamma_ramp_all_screens float_pow gamma brightness contrast) w =
           [GetDeviceGammaRamp buf ok0]) /\
      exists i, (i < GAMMA_RAMP_SIZE)%nat /\
                ramp_val_16bit float_pow gamma brightness contrast i = Raise e
  end.
Proof.
  intros Hwf.
  destruct (all_screens_spec float_pow gamma brightness contrast w) as (t & res & Heq & Hres).
  rewrite Heq. simpl fst. destruct res as [ok|e].
  - destruct Hres as (_ & Hres). destruct (Hres Hwf) as (Hwft & Hin).
    eexists _, _, t. split; [|split; assumption].
    apply events_of_app. unfold exec. rewrite Heq. reflexivity.
  - split; [|apply Hres, Hwf].
    eexists _, _. apply events_of_app. unfold exec. rewrite Heq. reflexivity.
Qed.

(** C2. Whatever gamma, brightness and contrast are (NaN and the infinities
    included), a call that reaches the driver hands it a table whose 256
    entries all lie in [0, 65535], the three channels equal at every index;
    and the only exception the computation can raise is one raised by the
    float power itself: the divisions, the clamps and [int] never fail. *)
Theorem ramp_table_in_range (gamma brightness contrast : float) (w : World) :
  ramp_wf (screen w) ->
  match fst (set_gamma_ramp_all_screens float_pow gamma brightness contrast w) with
  | Ok ok =>
      exists buf ok0 t,
        events_of (set_gamma_ramp_all_screens float_pow gamma brightness contrast) w =
          [GetDeviceGammaRamp buf ok0; SetDeviceGammaRamp buf t ok] /\
        ramp_wf t /\
        forall i, (i < GAMMA_RAMP_SIZE)%nat ->
          exists v, 0 <= v <= 65535 /\
                    ramp_val_16bit float_pow gamma brightness contrast i = Ok v /\
                    red t !! i = Some v /\ green t !! i = Some v /\ blue t !! i = Some v
  | Raise e =>
      exists i normalized expo,
        (i < GAMMA_RAMP_SIZE)%nat /\
        py_truediv (float_of_int (Z.of_nat i)) 255.0 = Ok normalized /\
        py_truediv 1.0 (py_max gamma 0.1) = Ok expo /\
        float_pow normalized expo = Raise e
  end.
Proof.
  intros Hwf. pose proof (all_screens_events gamma brightness contrast w Hwf) as H.
  destruct (fst _) as [ok|e].
  - destruct H as (buf & ok0 & t & Hev & Hwft & Hin).
    exists buf, ok0, t. split; [assumption|]. split; [assumption|].
    intros i Hi. destruct (Hin i Hi) as (v & Hv & Hr & Hg & Hb).
    destruct (ramp_val_16bit_cases float_pow gamma brightness contrast i)
      as [(v' & Hv' & Hrange) | (n & x & e & _ & _ & _ & He)]; [|congruence].
    assert (v' = v) by congruence. subst v'.
    rewrite USHORT_small in Hr, Hg, Hb by assumption.
    exists v. auto.
  - destruct H as (_ & i & Hi & He).
    destruct (ramp_val_16bit_cases float_pow gamma brightness contrast i)
      as [(v' & Hv' & _) | (n & x & e' & Hn & Hx & Hp & He')]; [congruence|].
    exists i, n, x. assert (e' = e) by congruence. subst e'. auto.
Qed.

Lemma ramp_ext (t1 t2 : GammaRamp) :
  ramp_wf t1 -> ramp_wf t2 ->
  (forall i, (i < GAMMA_RAMP_SIZE)%nat ->
     red t1 !! i = red t2 !! i /\ green t1 !! i = green t2 !! i /\ blue t1 !! i = blue t2 !! i) ->
  t1 = t2.
Proof.
  intros (Hr1 & Hg1 & Hb1) (Hr2 & Hg2 & Hb2) H.
  destruct t1 as [r1 g1 b1], t2 as [r2 g2 b2]; simpl in *.
  f_equal; apply list_eq; intros i; destruct (decide (i < GAMMA_RAMP_SIZE)%nat) as [Hi|Hi];
    try (apply H; assumption);
    rewrite !lookup_ge_None_2 by lia; reflexivity.
Qed.

(** C9. The table handed to the driver depends on the three parameters only:
    two calls with the same parameters write the same table (or both stop on
    an exception before writing) whatever ramp the hardware held and whatever
    the read at entry returned, because the loop overwrites every entry of the
    buffer it read. *)
Theorem table_independent_of_hardware (gamma brightness contrast : float) (w1 w2 : World) :
  ramp_wf (screen w1) -> ramp_wf (screen w2) ->
  written_tables (events_of (set_gamma_ramp_all_screens float_pow gamma brightness contrast) w1) =
  written_tables (events_of (set_gamma_ramp_all_screens float_pow gamma brightness contrast) w2).
Proof.
  intros Hwf1 Hwf2.
  pose proof (all_screens_events gamma brightness contrast w1 Hwf1) as H1.
  pose proof (all_screens_events gamma brightness contrast w2 Hwf2) as H2.
  destruct (fst (set_gamma_ramp_all_screens _ _ _ _ w1)) as [ok1|e1],
           (fst (set_gamma_ramp_all_screens _ _ _ _ w2)) as [ok2|e2].
  - destruct H1 as (b1 & o1 & t1 & -> & Hwft1 & Hin1).
    destruct H2 as (b2 & o2 & t2 & -> & Hwft2 & Hin2).
    simpl. f_equal. apply ramp_ext; try assumption.
    intros i Hi.
    destruct (Hin1 i Hi) as (v1 & Hv1 & -> & -> & ->).
    destruct (Hin2 i Hi) as (v2 & Hv2 & -> & -> & ->).
    assert (v1 = v2) by congruence. subst. auto.
  - exfalso. destruct H1 as (_ & _ & t1 & _ & _ & Hin1). destruct H2 as (_ & i & Hi & He).
    destruct (Hin1 i Hi) as (v & Hv & _). congruence.
  - exfalso. destruct H2 as (_ & _ & t2 & _ & _ & Hin2). destruct H1 as (_ & i & Hi & He).
    destruct (Hin2 i Hi) as (v & Hv & _). congruence.
  - destruct H1 as ((b1 & o1 & ->) & _). destruct H2 as ((b2 & o2 & ->) & _). reflexivity.
Qed.

End TransformProperties.

Lemma mul_65535_shape (x : float) :
  (0 <? x)%float = true -> (x <? 1)%float = true ->
  small_product (x * float_of_int 65535)%float.
Proof.
  intros H0 H1.
  destruct (open_unit_float x H0 H1) as (m & e & Hx & He & Hm).
  unfold small_product. rewrite FloatAxioms.mul_spec, Hx.
  change (Prim2SF (float_of_int 65535)) with (S754_finite false 9007061815787520 (-37)).
  unfold SF64mul, SFmul. simpl xorb.
  apply (binary_round_aux_below false (Zpos (m * 9007061815787520)) (e + -37) loc_Exact 65535 16);
    try lia.
  rewrite Pos2Z.inj_mul.
  replace (- (e + -37)) with (37 + - e) by lia. rewrite Z.pow_add_r by lia.
  change (2 ^ 37) with 137438953472. lia.
Qed.

Lemma clamp_product_shape (x : float) :
  small_product (py_max 0.0 (py_min 1.0 x) * float_of_int 65535)%float.
Proof.
  destruct (clamp_cases x) as [-> | [-> | (-> & H0 & H1)]].
  - left. reflexivity.
  - right. exists 9007061815787520%positive, (-37). split; [reflexivity|]. vm_compute. discriminate.
  - apply mul_65535_shape; assumption.
Qed.

Lemma small_product_int (p : float) :
  small_product p -> exists v, py_int p = Ok v /\ 0 <= v <= 65535.
Proof.
  unfold py_int. intros [-> | (m & e & -> & Hb)].
  - exists 0. split; [reflexivity | lia].
  - exists (Z.shiftl (Zpos m) e). split; [reflexivity|].
    split; [apply Z.shiftl_nonneg; lia | assumption].
Qed.

(** Truncation is rounding, or one below it. *)
Lemma small_product_round (p : float) :
  small_product p ->
  exists v v', py_int p = Ok v /\ py_round p = Ok v' /\ v <= v' <= v + 1.
Proof.
  unfold py_int, py_round. intros [-> | (m & e & -> & Hb)].
  - exists 0, 0. repeat split; lia.
  - destruct (Z.leb_spec 0 e) as [He|He].
    + eexists _, _. split; [reflexivity|]. split; [reflexivity|]. simpl. lia.
    + replace (Z.shiftr (Zpos m) (- e)) with (Z.shiftl (Zpos m) e)
        by (rewrite <- Z.shiftr_opp_r; reflexivity).
      destruct (_ ?= _); [destruct (Z.odd _)| |];
        eexists _, _; (split; [reflexivity|]); (split; [reflexivity|]); simpl; lia.
Qed.

Lemma default_entries_checked : forallb default_entry_check (seq 0 GAMMA_RAMP_SIZE) = true.
Proof. vm_compute. reflexivity. Qed.

Section TransformClaims.
Variable float_pow : float -> float -> result float.

Lemma ramp_final_clamped (gamma brightness contrast : float) (i : nat) (val : float) :
  ramp_final float_pow gamma brightness contrast i = Ok val ->
  small_product (val * float_of_int 65535)%float.
Proof.
  intros H.
  destruct (ramp_final_cases float_pow gamma brightness contrast i) as (n & x & _ & _ & Hp).
  destruct (float_pow n x); [|congruence].
  destruct Hp as (y & Hy). rewrite Hy in H. injection H as <-.
  apply clamp_product_shape.
Qed.

(** C3, amended. Each entry of the written table is [int(final * 65535)], the
    product truncated toward zero, where [final] is the clamped value of steps
    1-6; it is the rounded value of the specification or one below it. *)
Theorem table_entries_truncated (gamma brightness contrast : float) (w : World) (ok : bool) :
  ramp_wf (screen w) ->
  fst (set_gamma_ramp_all_screens float_pow gamma brightness contrast w) = Ok ok ->
  exists buf ok0 t,
    events_of (set_gamma_ramp_all_screens float_pow gamma brightness contrast) w =
      [GetDeviceGammaRamp buf ok0; SetDeviceGammaRamp buf t ok] /\
    forall i, (i < GAMMA_RAMP_SIZE)%nat ->
      exists final v v',
        ramp_final float_pow gamma brightness contrast i = Ok final /\
        py_int (final * float_of_int 65535)%float = Ok v /\
        red t !! i = Some v /\ green t !! i = Some v /\ blue t !! i = Some v /\
        spec_val_16bit_rounded float_pow gamma brightness contrast i = Ok v' /\
        v <= v' <= v + 1.
Proof.
  intros Hwf Hok.
  pose proof (all_screens_events float_pow gamma brightness contrast w Hwf) as H.
  rewrite Hok in H. destruct H as (buf & ok0 & t & Hev & _ & Hin).
  exists buf, ok0, t. split; [assumption|].
  intros i Hi. destruct (Hin i Hi) as (v & Hv & Hr & Hg & Hb).
  unfold ramp_val_16bit in Hv. unfold spec_val_16bit_rounded.
  destruct (ramp_final float_pow gamma brightness contrast i) as [final|e] eqn:Hf;
    [simpl in *|discriminate].
  pose proof (ramp_final_clamped _ _ _ _ _ Hf) as Hs.
  destruct (small_product_round _ Hs) as (u & u' & Hu & Hu' & Hle).
  destruct (small_product_int _ Hs) as (u0 & Hu0 & Hrange).
  assert (u = v) by congruence. assert (u0 = v) by congruence. subst u u0.
  rewrite USHORT_small in Hr, Hg, Hb by assumption.
  exists final, v, u'. auto 10.
Qed.

(** C5. With gamma 1.0, brightness 0.0 and contrast 1.0 the call succeeds and
    the table is the linear ramp up to the last unit: entry [i] is
    [round((i / 255.0) * 65535) = 257 * i] or one below it, the same on the
    three channels.  (The power at exponent one returns its base.) *)
Theorem default_ramp_is_linear (w : World) :
  (forall x, float_pow x 1%float = Ok x) ->
  ramp_wf (screen w) ->
  exists buf ok0 t ok,
    fst (set_gamma_ramp_all_screens float_pow 1.0 0.0 1.0 w) = Ok ok /\
    events_of (set_gamma_ramp_all_screens float_pow 1.0 0.0 1.0) w =
      [GetDeviceGammaRamp buf ok0; SetDeviceGammaRamp buf t ok] /\
    forall i, (i < GAMMA_RAMP_SIZE)%nat ->
      exists v,
        red t !! i = Some v /\ green t !! i = Some v /\ blue t !! i = Some v /\
        py_round (float_of_int (Z.of_nat i) / 255.0 * float_of_int 65535)%float
          = Ok (257 * Z.of_nat i) /\
        257 * Z.of_nat i - 1 <= v <= 257 * Z.of_nat i.
Proof.
  intros Hpow Hwf.
  assert (Hval : forall i, (i < GAMMA_RAMP_SIZE)%nat ->
            exists v, ramp_val_16bit float_pow 1.0 0.0 1.0 i = Ok v /\
              py_round (float_of_int (Z.of_nat i) / 255.0 * float_of_int 65535)%float
                = Ok (257 * Z.of_nat i) /\
              257 * Z.of_nat i - 1 <= v <= 257 * Z.of_nat i).
  { intros i Hi.
    assert (Heq : ramp_val_16bit float_pow 1.0 0.0 1.0 i =
                  ramp_val_16bit pow_unit_exponent 1.0 0.0 1.0 i).
    { unfold ramp_val_16bit, ramp_final.
      change (py_truediv 1.0 (py_max 1.0 0.1)) with (@Ok float 1%float).
      destruct (py_truediv _ _) as [n|e]; [simpl|reflexivity].
      rewrite Hpow. reflexivity. }
    pose proof default_entries_checked as Hall.
    rewrite forallb_forall in Hall.
    specialize (Hall i ltac:(apply in_seq; lia)).
    unfold default_entry_check in Hall. rewrite <- Heq in Hall.
    destruct (ramp_val_16bit float_pow 1.0 0.0 1.0 i) as [v|]; [|discriminate].
    destruct (py_round _) as [v'|]; [|discriminate].
    apply andb_prop in Hall as [Hall H3]. apply andb_prop in Hall as [H1 H2].
    exists v. split; [reflexivity|]. split; [f_equal; lia | lia]. }
  pose proof (all_screens_events float_pow 1.0 0.0 1.0 w Hwf) as H.
  destruct (fst _) as [ok|e].
  - destruct H as (buf & ok0 & t & Hev & _ & Hin).
    exists buf, ok0, t, ok. split; [reflexivity|]. split; [assumption|].
    intros i Hi. destruct (Hin i Hi) as (v & Hv & Hr & Hg & Hb).
    destruct (Hval i Hi) as (v' & Hv' & Hround & Hrange).
    assert (v' = v) by congruence. subst v'.
    assert (Hsmall : 0 <= v <= 65535).
    { destruct (ramp_val_16bit_cases float_pow 1.0 0.0 1.0 i)
        as [(u & Hu & Hur) | (n & x & e & _ & _ & _ & He)]; congruence. }
    rewrite USHORT_small in Hr, Hg, Hb by assumption.
    exists v. auto 10.
  - exfalso. destruct H as (_ & i & Hi & He).
    destruct (Hval i Hi) as (v & Hv & _). congruence.
Qed.

End TransformClaims.

Section SessionClaims.
Variable float_pow : float -> float -> result float.

Lemma restore_gamma_spec (w : World) (r : ref) (t : GammaRamp) :
  original_ramp (self w) = Some r -> heap w !! r = Some t ->
  let ok := gdi_ok w (length (trace w)) in
  _restore_gamma w =
    (Ok tt, mkWorld (if ok then t else screen w) (gdi_ok w) (heap w)
              (atexit_handlers w) (config_json w) (disk_ok w)
              (trace w ++ [SetDeviceGammaRamp r t ok]) (self w)).
Proof.
  intros Ho Hr ok. unfold _restore_gamma, try_except.
  rewrite (bind_ok _ _ w w r) by (unfold getattr; rewrite Ho; reflexivity).
  rewrite (bind_ok _ _ _ _ _ (set_gamma_ramp_spec r w t Hr)). reflexivity.
Qed.

Lemma restore_gamma_ok (w : World) : fst (_restore_gamma w) = Ok tt.
Proof.
  unfold _restore_gamma, try_except. destruct (bind _ _ w) as [[[]|e] w']; reflexivity.
Qed.

(** C1, amended. [_restore_gamma] keeps no record of having run: every call
    hands the saved ramp to the driver once, so two calls in a row make two
    writes of the same table; after them the display holds the saved ramp
    whenever the second write succeeds. *)
Theorem restore_writes_on_every_call (w : World) (r : ref) (t : GammaRamp) :
  original_ramp (self w) = Some r -> heap w !! r = Some t ->
  let ok1 := gdi_ok w (length (trace w)) in
  let ok2 := gdi_ok w (S (length (trace w))) in
  let twice := (_restore_gamma ;; _restore_gamma)%py in
  events_of _restore_gamma w = [SetDeviceGammaRamp r t ok1] /\
  fst (twice w) = Ok tt /\
  events_of twice w = [SetDeviceGammaRamp r t ok1; SetDeviceGammaRamp r t ok2] /\
  screen (exec twice w) = (if ok2 then t else if ok1 then t else screen w).
Proof.
  intros Ho Hr ok1 ok2 twice.
  pose proof (restore_gamma_spec w r t Ho Hr) as H1. cbv zeta in H1. fold ok1 in H1.
  set (w1 := mkWorld _ _ _ _ _ _ _ _) in H1.
  pose proof (restore_gamma_spec w1 r t Ho Hr) as H2. cbv zeta in H2. simpl in H2.
  rewrite length_app in H2. simpl in H2.
  replace (length (trace w) + 1)%nat with (S (length (trace w))) in H2 by lia.
  fold ok2 in H2.
  assert (Htwice : twice w = (Ok tt, snd (_restore_gamma w1))).
  { unfold twice. rewrite (bind_ok _ _ _ _ _ H1), H2. reflexivity. }
  split; [apply events_of_app; unfold exec; rewrite H1; reflexivity|].
  split; [rewrite Htwice; reflexivity|].
  split.
  - apply events_of_app. unfold exec. rewrite Htwice, H2. simpl.
    rewrite <- app_assoc. reflexivity.
  - unfold exec. rewrite Htwice, H2. simpl. reflexivity.
Qed.

End SessionClaims.

Section Quit.
Variable float_pow : float -> float -> result float.

(** C10. [quit_app] on a running instance saves first and restores second: it
    stores the current slider values in [self.config] and dumps them to
    config.json (or reports the failure when the file cannot be opened), and
    only then hands the saved ramp to the driver; the tray icon and the main
    loop are stopped afterwards. *)
Theorem quit_saves_then_restores (w : World) (g b c : float) (r : ref) (t : GammaRamp)
    (win : window) :
  gamma_var (self w) = Some g -> brightness_var (self w) = Some b ->
  contrast_var (self w) = Some c -> root (self w) = Some win ->
  original_ramp (self w) = Some r -> heap w !! r = Some t ->
  let cfg := mkConfig g b c in
  let w' := exec quit_app w in
  fst (quit_app w) = Ok tt /\
  config (self w') = Some cfg /\
  (disk_ok w = true -> config_json w' = Json cfg) /\
  exists stop,
    events_of quit_app w =
      (if disk_ok w then ConfigWritten cfg else ShowError) ::
      SetDeviceGammaRamp r t (gdi_ok w (S (length (trace w)))) :: stop ++ [RootQuit] /\
    stop = match icon (self w) with Some _ => [TrayStop] | None => [] end.
Proof.
  intros Hg Hb Hc Hroot Ho Hr cfg w'. subst w'. unfold events_of, exec.
  destruct w as [scr gok hp ah cj dk tr [orp rt gv bv cv cf st ic]]; simpl in *; subst.
  unfold quit_app, save_to_config, save_config, status_config, _restore_gamma, set_gamma_ramp,
    gdi32_SetDeviceGammaRamp, try_except, bind, getattr, hasattr, modify, emit, ret; simpl.
  destruct dk; simpl; destruct st; simpl; rewrite Hr; simpl;
    rewrite length_app; simpl; replace (length tr + 1)%nat with (S (length tr)) by lia;
    destruct (gok (S (length tr))); simpl; destruct ic; simpl;
    (split; [reflexivity|]); (split; [reflexivity|]); (split; [try reflexivity; discriminate|]);
    eexists; (split; [|reflexivity]);
    rewrite <- !app_assoc; simpl; rewrite drop_app_length; reflexivity.
Qed.
End Quit.

#[export] Hint Resolve framed_status_config framed_restore_gamma framed_save_config
  framed_save_to_config framed_var_set framed_apply_config framed_update_gamma
  framed_load_from_config framed_reset framed_adjust_value framed_on_closing
  framed_show_window framed_quit_app framed_handle : frames.

Section Init.
Variable float_pow : float -> float -> result float.

Lemma status_config_spec (t : status_text) (w : World) :
  status_config t w =
    (Ok tt, match status (self w) with
            | Some _ => on_self (set_status (Some t)) w
            | None => w
            end).
Proof.
  unfold status_config, bind, hasattr, modify, ret.
  destruct (status (self w)); reflexivity.
Qed.

Lemma update_gamma_ok (w : World) : fst (update_gamma float_pow w) = Ok tt.
Proof.
  unfold update_gamma, try_except.
  match goal with |- context [bind ?m ?k w] => destruct (bind m k w) as [[[]|e] w'] end.
  - reflexivity.
  - rewrite status_config_spec. reflexivity.
Qed.

(** [update_gamma] changes no attribute but the status text. *)
Lemma update_gamma_self (w : World) :
  exists st, self (exec (update_gamma float_pow) w) = set_status st (self w).
Proof.
  unfold exec, update_gamma, try_except, bind, getattr.
  destruct (gamma_var (self w)) as [g|] eqn:Hg;
    [destruct (brightness_var (self w)) as [b|] eqn:Hb;
      [destruct (contrast_var (self w)) as [c|] eqn:Hc|]|];
    [destruct (all_screens_spec float_pow g b c w) as (t & [ok|e] & -> & _)| | |];
    rewrite ?status_config_spec; simpl;
    destruct w as [scr gok hp ah cj dk tr [orp rt gv bv cv cf st ic]]; simpl;
    destruct st; simpl; eexists; reflexivity.
Qed.

Lemma bind_modify {B} (f : World -> World) (k : unit -> M B) (w : World) :
  bind (modify f) k w = k tt (f w).
Proof. reflexivity. Qed.

Lemma bind_getattr {A B} (attr : Gui -> option A) (k : A -> M B) (w : World) (a : A) :
  attr (self w) = Some a -> bind (getattr attr) k w = k a w.
Proof. intros H. unfold bind, getattr. rewrite H. reflexivity. Qed.

Lemma bind_assoc {A B C} (m : M A) (k1 : A -> M B) (k2 : B -> M C) (w : World) :
  bind (bind m k1) k2 w = bind m (fun a => bind (k1 a) k2) w.
Proof. unfold bind. destruct (m w) as [[a|e] w']; reflexivity. Qed.

(** One statement of a straight-line method body. *)
Ltac step :=
  first [ rewrite bind_modify
        | rewrite bind_assoc
        | erewrite bind_getattr by reflexivity ].

(** The part of [__init__] around the call of [update_gamma] only assigns
    attributes and registers handlers. *)
Lemma init_ok (w : World) :
  fst (__init__ float_pow w) = Ok tt /\
  root (self (exec (__init__ float_pow) w)) = Some (mkWindow true false).
Proof.
  unfold exec, __init__. rewrite (bind_ok _ _ _ _ _ (get_gamma_ramp_spec w)).
  pose proof update_gamma_ok as Hok. pose proof update_gamma_self as Hself.
  revert Hok Hself. unfold exec. generalize (update_gamma float_pow). intros u Hok Hself.
  unfold backup_and_restore, setup_ui, apply_config, var_set, setup_tray.
  repeat step.
  match goal with |- context [bind load_config ?k ?w0] =>
    assert (Hload : exists c w1, load_config w0 = (Ok c, w1) /\ self w1 = self w0)
      by (unfold load_config; destruct (config_json w0); eauto);
    destruct Hload as (c & w1 & Hload & Hself1);
    rewrite (bind_ok _ _ _ _ _ Hload)
  end.
  step. step.
  repeat first [ step | rewrite bind_getattr with (a := c) by reflexivity
               | erewrite bind_getattr by (simpl; rewrite Hself1; reflexivity) ].
  match goal with |- context [bind u ?k ?w0] =>
    specialize (Hok w0); destruct (Hself w0) as (s & Hs);
    unfold bind at 1 2; destruct (u w0) as [[[]|e] w2]; [|discriminate]
  end.
  unfold modify. simpl fst. simpl snd. split; [reflexivity|].
  simpl in Hs. simpl. rewrite Hs. simpl. rewrite Hself1. reflexivity.
Qed.

Lemma init_frame (w : World) : frame false (captured w) (exec (__init__ float_pow) w).
Proof.
  unfold exec, __init__. rewrite (bind_ok _ _ _ _ _ (get_gamma_ramp_spec w)).
  pose proof (framed_update_gamma float_pow false) as Hu.
  revert Hu. generalize (update_gamma float_pow). intros u Hu.
  match goal with |- frame _ _ (snd (bind (modify ?f) ?k ?w0)) =>
    change (frame false (captured w) (snd (k tt (f w0))))
  end.
  cbv beta.
  match goal with |- frame _ _ (snd (?m ?w0)) =>
    change w0 with (captured w); generalize (captured w); change (framed false m)
  end.
  unfold backup_and_restore, setup_ui, setup_tray. framing.
Qed.

End Init.

Section Lifecycle.
Variable float_pow : float -> float -> result float.


Lemma framed_run_exit_handler (h : exit_handler) : framed false (run_exit_handler h).
Proof. destruct h; simpl; [framing | apply framed_restore_gamma]. Qed.

Lemma framed_interpreter_exit : framed false interpreter_exit.
Proof.
  intros w. unfold interpreter_exit.
  apply (framed_for_each false (rev (atexit_handlers w)) run_exit_handler).
  apply framed_run_exit_handler.
Qed.

Lemma framed_invoke (c : call) : framed false (invoke float_pow c).
Proof.
  destruct c; simpl.
  - apply framed_handle.
  - apply framed_update_gamma.
  - apply framed_restore_gamma.
  - apply framed_restore_gamma.
  - apply framed_interpreter_exit.
Qed.

Lemma frame_invoke_all (cs : list call) : forall w, frame false w (invoke_all float_pow cs w).
Proof.
  induction cs as [|c cs IH]; intros w; simpl.
  - apply frame_refl.
  - eapply frame_trans; [apply framed_invoke | apply IH].
Qed.

(** Ahead of [__init__] the instance has no attribute, and every call on it
    stops at the first attribute it reads. *)
Lemma invoke_blank (c : call) (w : World) :
  self w = Gui_blank -> atexit_handlers w = [] -> exec (invoke float_pow c) w = w.
Proof.
  intros Hs Ha. destruct w as [scr gok hp ah cj dk tr g]; simpl in *; subst.
  destruct c as [[s v|s|s| | | | | |]| | | |]; try reflexivity; destruct s; reflexivity.
Qed.

Lemma invoke_all_blank (cs : list call) (w : World) :
  self w = Gui_blank -> atexit_handlers w = [] -> invoke_all float_pow cs w = w.
Proof.
  intros Hs Ha. induction cs as [|c cs IH]; simpl; [reflexivity|].
  rewrite invoke_blank by assumption. exact IH.
Qed.


Lemma frame_handle_all (acts : list action) : forall w,
  frame (forallb (fun a => match a with TrayQuit => false | _ => true end) acts)
    w (handle_all float_pow acts w).
Proof.
  induction acts as [|a acts IH]; intros w.
  - apply frame_refl.
  - change (handle_all float_pow (a :: acts) w)
      with (handle_all float_pow acts (exec (handle float_pow a) w)).
    simpl forallb. destruct (forallb _ acts) eqn:Hrest.
    + destruct a; simpl andb;
        try (eapply frame_trans; [|apply IH];
             apply (framed_handle_strict float_pow); discriminate).
      eapply frame_trans; [|apply frame_weaken, IH]. apply (framed_handle float_pow).
    + rewrite andb_false_r.
      eapply frame_trans; [|apply IH]. apply (framed_handle float_pow).
Qed.

(** C8. Once captured, the original ramp is never written to: after any
    sequence of callbacks the attribute names the same structure and the
    structure holds the same table, so a later restore hands the driver the
    table that was captured; and as long as Quit is not among them, no
    callback passes that structure to the driver: what [update_gamma] writes
    is a buffer of its own. *)
Theorem apply_leaves_original_alone (acts : list action) (w : World) (r : ref) (t : GammaRamp) :
  original_ramp (self w) = Some r -> heap w !! r = Some t ->
  let w' := handle_all float_pow acts w in
  original_ramp (self w') = Some r /\
  heap w' !! r = Some t /\
  (exists ok, events_of _restore_gamma w' = [SetDeviceGammaRamp r t ok]) /\
  (forallb (fun a => match a with TrayQuit => false | _ => true end) acts = true ->
   exists evs, trace w' = trace w ++ evs /\
     forall buf tbl ok, In (SetDeviceGammaRamp buf tbl ok) evs -> buf <> r).
Proof.
  intros Ho Hr w'.
  destruct (frame_handle_all acts w) as (Hheap & Horig & evs & Htrace & Hstrict).
  fold w' in Hheap, Horig, Htrace.
  assert (Ho' : original_ramp (self w') = Some r) by congruence.
  assert (Hr' : heap w' !! r = Some t) by auto.
  split; [assumption|]. split; [assumption|]. split.
  - eexists. apply events_of_app. unfold exec.
    rewrite (restore_gamma_spec w' r t Ho' Hr'). reflexivity.
  - intros Hq. exists evs. split; [assumption|].
    intros buf tbl ok Hin ->. specialize (Hstrict Hq).
    rewrite Forall_forall in Hstrict. rewrite <- list_elem_of_In in Hin.
    apply Hstrict in Hin. simpl in Hin. congruence.
Qed.

End Lifecycle.

(** * The statements at concrete inputs *)

Lemma linear_ramp_wf : ramp_wf linear_ramp.
Proof. repeat split. Defined.

(** C1, counterexample: on a started instance two calls of [_restore_gamma]
    in a row make two driver writes, not one. *)
Lemma restore_twice_writes_twice :
  let w := exec (__init__ pow_unit_exponent) (boot (fun _ => true) Absent) in
  original_ramp (self w) = Some 1%positive /\
  events_of (_restore_gamma ;; _restore_gamma)%py w =
    [SetDeviceGammaRamp 1%positive linear_ramp true;
     SetDeviceGammaRamp 1%positive linear_ramp true] /\
  length (written_tables (events_of (_restore_gamma ;; _restore_gamma)%py w)) = 2%nat.
Proof. vm_compute. repeat split. Qed.

Lemma restore_writes_on_every_call_witness :
  let w := exec (__init__ pow_unit_exponent) (boot (fun _ => true) Absent) in
  let twice := (_restore_gamma ;; _restore_gamma)%py in
  events_of _restore_gamma w = [SetDeviceGammaRamp 1%positive linear_ramp true] /\
  fst (twice w) = Ok tt /\
  events_of twice w =
    [SetDeviceGammaRamp 1%positive linear_ramp true;
     SetDeviceGammaRamp 1%positive linear_ramp true] /\
  screen (exec twice w) = linear_ramp.
Proof.
  exact (restore_writes_on_every_call
           (exec (__init__ pow_unit_exponent) (boot (fun _ => true) Absent))
           1%positive linear_ramp
           ltac:(vm_compute; reflexivity) ltac:(vm_compute; reflexivity)).
Defined.

Lemma ramp_table_in_range_witness :
  exists buf ok0 t,
    events_of (set_gamma_ramp_all_screens pow_unit_exponent 1.0 0.0 0.5)
      (boot (fun _ => true) Absent) =
      [GetDeviceGammaRamp buf ok0; SetDeviceGammaRamp buf t true] /\
    ramp_wf t /\
    forall i, (i < GAMMA_RAMP_SIZE)%nat ->
      exists v, 0 <= v <= 65535 /\
                ramp_val_16bit pow_unit_exponent 1.0 0.0 0.5 i = Ok v /\
                red t !! i = Some v /\ green t !! i = Some v /\ blue t !! i = Some v.
Proof.
  exact (ramp_table_in_range pow_unit_exponent 1.0 0.0 0.5 (boot (fun _ => true) Absent)
           linear_ramp_wf).
Defined.

(** C3, counterexample: with gamma 1.0, brightness 0.0 and contrast 0.5 the
    clamped value at index 0 is 0.25, the product is 16383.75, the table
    receives 16383 where rounding gives 16384. *)
Lemma entry_is_truncated_not_rounded :
  ramp_final pow_unit_exponent 1.0 0.0 0.5 0 = Ok 0.25%float /\
  ramp_val_16bit pow_unit_exponent 1.0 0.0 0.5 0 = Ok 16383 /\
  spec_val_16bit_rounded pow_unit_exponent 1.0 0.0 0.5 0 = Ok 16384 /\
  match head (written_tables (events_of (set_gamma_ramp_all_screens pow_unit_exponent 1.0 0.0 0.5)
                                   (boot (fun _ => true) Absent))) with
  | Some t => red t !! 0%nat
  | None => None
  end = Some 16383.
Proof. vm_compute. repeat split. Qed.

Lemma table_entries_truncated_witness :
  exists buf ok0 t,
    events_of (set_gamma_ramp_all_screens pow_unit_exponent 1.0 0.0 0.5)
      (boot (fun _ => true) Absent) =
      [GetDeviceGammaRamp buf ok0; SetDeviceGammaRamp buf t true] /\
    forall i, (i < GAMMA_RAMP_SIZE)%nat ->
      exists final v v',
        ramp_final pow_unit_exponent 1.0 0.0 0.5 i = Ok final /\
        py_int (final * float_of_int 65535)%float = Ok v /\
        red t !! i = Some v /\ green t !! i = Some v /\ blue t !! i = Some v /\
        spec_val_16bit_rounded pow_unit_exponent 1.0 0.0 0.5 i = Ok v' /\
        v <= v' <= v + 1.
Proof.
  exact (table_entries_truncated pow_unit_exponent 1.0 0.0 0.5 (boot (fun _ => true) Absent)
           true linear_ramp_wf ltac:(vm_compute; reflexivity)).
Defined.

Lemma default_ramp_is_linear_witness :
  exists buf ok0 t ok,
    fst (set_gamma_ramp_all_screens pow_unit_exponent 1.0 0.0 1.0 (boot (fun _ => true) Absent))
      = Ok ok /\
    events_of (set_gamma_ramp_all_screens pow_unit_exponent 1.0 0.0 1.0)
      (boot (fun _ => true) Absent) =
      [GetDeviceGammaRamp buf ok0; SetDeviceGammaRamp buf t ok] /\
    forall i, (i < GAMMA_RAMP_SIZE)%nat ->
      exists v,
        red t !! i = Some v /\ green t !! i = Some v /\ blue t !! i = Some v /\
        py_round (float_of_int (Z.of_nat i) / 255.0 * float_of_int 65535)%float
          = Ok (257 * Z.of_nat i) /\
        257 * Z.of_nat i - 1 <= v <= 257 * Z.of_nat i.
Proof.
  exact (default_ramp_is_linear pow_unit_exponent (boot (fun _ => true) Absent)
           (fun x => eq_refl) linear_ramp_wf).
Defined.



Lemma apply_leaves_original_alone_witness :
  let acts := [Drag GammaSlider 1.0; Plus ContrastSlider; ClickReset; ClickSave; ClickLoad] in
  let w := exec (__init__ pow_unit_exponent) (boot (fun _ => true) Absent) in
  let w' := handle_all pow_unit_exponent acts w in
  original_ramp (self w') = Some 1%positive /\
  heap w' !! 1%positive = Some linear_ramp /\
  (exists ok, events_of _restore_gamma w' = [SetDeviceGammaRamp 1%positive linear_ramp ok]) /\
  exists evs, trace w' = trace w ++ evs /\
    forall buf tbl ok, In (SetDeviceGammaRamp buf tbl ok) evs -> buf <> 1%positive.
Proof.
  pose proof (apply_leaves_original_alone pow_unit_exponent
           [Drag GammaSlider 1.0; Plus ContrastSlider; ClickReset; ClickSave; ClickLoad]
           (exec (__init__ pow_unit_exponent) (boot (fun _ => true) Absent))
           1%positive linear_ramp
           ltac:(vm_compute; reflexivity) ltac:(vm_compute; reflexivity)) as (H1 & H2 & H3 & H4).
  exact (conj H1 (conj H2 (conj H3 (H4 eq_refl)))).
Defined.

Lemma table_independent_of_hardware_witness :
  written_tables (events_of (set_gamma_ramp_all_screens pow_unit_exponent 1.0 0.5 2.0)
                    (boot (fun _ => true) Absent)) =
  written_tables (events_of (set_gamma_ramp_all_screens pow_unit_exponent 1.0 0.5 2.0)
                    (set_screen GammaRamp_new (boot (fun _ => false) Corrupt))).
Proof.
  exact (table_independent_of_hardware pow_unit_exponent 1.0 0.5 2.0
           (boot (fun _ => true) Absent)
           (set_screen GammaRamp_new (boot (fun _ => false) Corrupt))
           linear_ramp_wf ramp_wf_new).
Defined.

Lemma quit_saves_then_restores_witness :
  let w := exec (handle pow_unit_exponent (Drag ContrastSlider 0.5))
             (exec (__init__ pow_unit_exponent) (boot (fun _ => true) Absent)) in
  let cfg := mkConfig 1.0 0.0 0.5 in
  let w' := exec quit_app w in
  fst (quit_app w) = Ok tt /\
  config (self w') = Some cfg /\
  (disk_ok w = true -> config_json w' = Json cfg) /\
  exists stop,
    events_of quit_app w =
      (if disk_ok w then ConfigWritten cfg else ShowError) ::
      SetDeviceGammaRamp 1%positive linear_ramp (gdi_ok w (S (length (trace w)))) ::
      stop ++ [RootQuit] /\
    stop = match icon (self w) with Some _ => [TrayStop] | None => [] end.
Proof.
  exact (quit_saves_then_restores
           (exec (handle pow_unit_exponent (Drag ContrastSlider 0.5))
              (exec (__init__ pow_unit_exponent) (boot (fun _ => true) Absent)))
           1.0 0.0 0.5 1%positive linear_ramp (mkWindow true false)
           ltac:(vm_compute; reflexivity) ltac:(vm_compute; reflexivity)
           ltac:(vm_compute; reflexivity) ltac:(vm_compute; reflexivity)
           ltac:(vm_compute; reflexivity) ltac:(vm_compute; reflexivity)).
Defined.

(** ** Binary digits *)

Lemma Zdigits2_bounds (M : Z) : 0 < M -> 2 ^ (Zdigits2 M - 1) <= M < 2 ^ Zdigits2 M.
Proof. destruct M as [|m|m]; try lia. intros _. apply digits2_pos_bounds. Qed.

Lemma Zdigits2_pos (M : Z) : 0 < M -> 0 < Zdigits2 M.
Proof. destruct M as [|m|m]; simpl; lia. Qed.

Lemma Zdigits2_unique (M d : Z) : 2 ^ (d - 1) <= M < 2 ^ d -> 0 < M -> Zdigits2 M = d.
Proof.
  intros [Hlo Hhi] HM. pose proof (Zdigits2_bounds M HM) as [Hlo' Hhi'].
  pose proof (Zdigits2_pos M HM) as Hd.
  assert (0 < d).
  { destruct (Z_lt_le_dec 0 d); [assumption|].
    destruct (Z.eq_dec d 0) as [->|]; [simpl in Hhi; lia|].
    rewrite Z.pow_neg_r in Hhi by lia. lia. }
  destruct (Z_lt_le_dec (Zdigits2 M) d) as [H1|H1].
  - assert (2 ^ Zdigits2 M <= 2 ^ (d - 1)) by (apply Z.pow_le_mono_r; lia). lia.
  - destruct (Z_lt_le_dec d (Zdigits2 M)) as [H2|H2]; [|lia].
    assert (2 ^ d <= 2 ^ (Zdigits2 M - 1)) by (apply Z.pow_le_mono_r; lia). lia.
Qed.

Lemma Zdigits2_mono (M1 M2 : Z) : 0 < M1 <= M2 -> Zdigits2 M1 <= Zdigits2 M2.
Proof.
  intros [H1 H12].
  pose proof (Zdigits2_bounds M1 H1) as [Hlo1 _].
  pose proof (Zdigits2_bounds M2 ltac:(lia)) as [_ Hhi2].
  destruct (Z_lt_le_dec (Zdigits2 M2) (Zdigits2 M1)) as [H|H]; [|lia].
  assert (2 ^ Zdigits2 M2 <= 2 ^ (Zdigits2 M1 - 1)).
  { apply Z.pow_le_mono_r; [lia|]. lia. }
  lia.
Qed.

Lemma Zdigits2_shift (M k : Z) : 0 < M -> 0 <= k -> Zdigits2 (M * 2 ^ k) = Zdigits2 M + k.
Proof.
  intros HM Hk. pose proof (Zdigits2_bounds M HM) as [Hlo Hhi].
  pose proof (Zdigits2_pos M HM) as Hd.
  assert (Hp : 0 < 2 ^ k) by (apply Z.pow_pos_nonneg; lia).
  apply Zdigits2_unique; [|nia].
  replace (Zdigits2 M + k - 1) with (Zdigits2 M - 1 + k) by lia.
  rewrite !Z.pow_add_r by lia. nia.
Qed.

Lemma Zdigits2_ge (M k : Z) : 0 <= k -> 2 ^ k <= M -> k + 1 <= Zdigits2 M.
Proof.
  intros Hk H. assert (HM : 0 < M) by (pose proof (Z.pow_pos_nonneg 2 k); lia).
  pose proof (Zdigits2_bounds M HM) as [_ Hhi].
  destruct (Z_lt_le_dec k (Zdigits2 M)); [lia|].
  assert (2 ^ Zdigits2 M <= 2 ^ k) by (apply Z.pow_le_mono_r; [lia|lia]). lia.
Qed.

(** ** Round to nearest, ties to even, of [M / 2^p] *)

Lemma rne_bounds (M p : Z) : M / 2 ^ p <= rne M p <= M / 2 ^ p + 1.
Proof. unfold rne. destruct (_ ?= _); [destruct (Z.even _)| |]; lia. Qed.

Lemma rne_exact (M p : Z) : 0 <= p -> M mod 2 ^ p = 0 -> rne M p = M / 2 ^ p.
Proof.
  intros Hp H. unfold rne. rewrite H.
  assert (0 < 2 ^ p) by (apply Z.pow_pos_nonneg; lia).
  destruct (Z.compare_spec (2 * 0) (2 ^ p)); lia.
Qed.

Lemma rne_mono (X Y p : Z) : 0 <= p -> X <= Y -> rne X p <= rne Y p.
Proof.
  intros Hp HXY.
  assert (Hpow : 0 < 2 ^ p) by (apply Z.pow_pos_nonneg; lia).
  pose proof (Z.div_le_mono X Y (2 ^ p) Hpow HXY) as Hq.
  destruct (Z.eq_dec (X / 2 ^ p) (Y / 2 ^ p)) as [Heq|Hne].
  - assert (Hr : X mod 2 ^ p <= Y mod 2 ^ p).
    { pose proof (Z.div_mod X (2 ^ p) ltac:(lia)). pose proof (Z.div_mod Y (2 ^ p) ltac:(lia)).
      rewrite Heq in *. lia. }
    unfold rne. rewrite Heq.
    destruct (Z.compare_spec (2 * (X mod 2 ^ p)) (2 ^ p)),
             (Z.compare_spec (2 * (Y mod 2 ^ p)) (2 ^ p));
      try destruct (Z.even _); lia.
  - pose proof (rne_bounds X p). pose proof (rne_bounds Y p). lia.
Qed.

Lemma rne_shift (M p k : Z) : 0 <= p -> 0 <= k -> rne (M * 2 ^ k) (p + k) = rne M p.
Proof.
  intros Hp Hk.
  assert (H2p : 0 < 2 ^ p) by (apply Z.pow_pos_nonneg; lia).
  assert (H2k : 0 < 2 ^ k) by (apply Z.pow_pos_nonneg; lia).
  unfold rne. rewrite Z.pow_add_r by lia.
  rewrite Z.div_mul_cancel_r by lia.
  rewrite Z.mul_mod_distr_r by lia.
  replace (2 * (M mod 2 ^ p * 2 ^ k)) with (2 * (M mod 2 ^ p) * 2 ^ k) by ring.
  rewrite <- Zmult_compare_compat_r by lia. reflexivity.
Qed.

Lemma rne_upper (X N p : Z) : 0 <= p -> X < N * 2 ^ p -> rne X p <= N.
Proof.
  intros Hp H. assert (0 < 2 ^ p) by (apply Z.pow_pos_nonneg; lia).
  pose proof (rne_bounds X p) as [_ Hb].
  assert (X / 2 ^ p < N) by (apply Z.div_lt_upper_bound; lia). lia.
Qed.

Lemma rne_lower (X N p : Z) : 0 <= p -> N * 2 ^ p <= X -> N <= rne X p.
Proof.
  intros Hp H. assert (0 < 2 ^ p) by (apply Z.pow_pos_nonneg; lia).
  pose proof (rne_bounds X p) as [Hb _].
  assert (N <= X / 2 ^ p) by (apply Z.div_le_lower_bound; lia). lia.
Qed.

Lemma rne_nonneg (M p : Z) : 0 <= M -> 0 <= p -> 0 <= rne M p.
Proof.
  intros HM Hp. pose proof (rne_bounds M p) as [Hb _].
  assert (0 <= M / 2 ^ p) by (apply Z.div_pos; [lia | apply Z.pow_pos_nonneg; lia]). lia.
Qed.

(** ** Rounding to binary64, on integers *)

Lemma bexp_fexp (M e : Z) : fexp prec emax (Zdigits2 M + e) = bexp M e.
Proof. reflexivity. Qed.

Lemma bexp_mono (M1 M2 e : Z) : 0 < M1 <= M2 -> bexp M1 e <= bexp M2 e.
Proof. intros H. pose proof (Zdigits2_mono M1 M2 H). unfold bexp. lia. Qed.

Lemma pow2_pos (k : Z) : 0 <= k -> 0 < 2 ^ k.
Proof. intros. apply Z.pow_pos_nonneg; lia. Qed.

Lemma rne_below_2p53 (M e : Z) :
  0 < M -> 0 <= bexp M e - e -> rne M (bexp M e - e) <= 2 ^ 53.
Proof.
  intros HM He. pose proof (Zdigits2_bounds M HM) as [_ Hhi].
  pose proof (Zdigits2_pos M HM) as Hd.
  apply rne_upper; [lia|].
  rewrite <- Z.pow_add_r by lia.
  apply Z.lt_le_trans with (1 := Hhi). apply Z.pow_le_mono_r; [lia|]. unfold bexp in *. lia.
Qed.

Lemma rne_above_2p52 (M e : Z) :
  0 < M -> 0 <= bexp M e - e -> -1074 < bexp M e -> 2 ^ 52 <= rne M (bexp M e - e).
Proof.
  intros HM He HE. pose proof (Zdigits2_bounds M HM) as [Hlo _].
  assert (HEq : bexp M e = Zdigits2 M + e - 53) by (unfold bexp in *; lia).
  apply rne_lower; [lia|].
  rewrite <- Z.pow_add_r by lia.
  replace (52 + (bexp M e - e)) with (Zdigits2 M - 1) by lia. assumption.
Qed.

(** The rounded value grows with the number rounded, across binades too. *)
Lemma round_value_mono (M1 M2 e : Z) :
  0 < M1 <= M2 -> e <= -1074 ->
  rne M1 (bexp M1 e - e) * 2 ^ (bexp M1 e + 1074) <=
  rne M2 (bexp M2 e - e) * 2 ^ (bexp M2 e + 1074).
Proof.
  intros [H1 H12] He.
  pose proof (bexp_mono M1 M2 e ltac:(lia)) as HE.
  assert (HE1 : -1074 <= bexp M1 e) by (unfold bexp; lia).
  destruct (Z.eq_dec (bexp M1 e) (bexp M2 e)) as [Heq|Hne].
  - rewrite <- Heq. apply Z.mul_le_mono_nonneg_r; [apply Z.lt_le_incl, pow2_pos; lia|].
    apply rne_mono; lia.
  - assert (HE2 : bexp M2 e = Zdigits2 M2 + e - 53) by (unfold bexp in *; lia).
    assert (Hd : Zdigits2 M1 < Zdigits2 M2) by (unfold bexp in *; lia).
    pose proof (Zdigits2_bounds M1 H1) as [_ Hhi1].
    pose proof (Zdigits2_bounds M2 ltac:(lia)) as [Hlo2 _].
    set (p1 := bexp M1 e - e) in *. set (p2 := bexp M2 e - e) in *.
    assert (Hp1 : 0 <= p1) by (unfold p1; lia).
    assert (Hp2 : p2 = Zdigits2 M2 - 53) by (unfold p2; lia).
    assert (Hu : rne M1 p1 <= 2 ^ (Zdigits2 M2 - 1 - p1)).
    { apply rne_upper; [lia|]. rewrite <- Z.pow_add_r by lia.
      replace (Zdigits2 M2 - 1 - p1 + p1) with (Zdigits2 M2 - 1) by lia.
      apply Z.lt_le_trans with (1 := Hhi1). apply Z.pow_le_mono_r; lia. }
    assert (Hl : 2 ^ 52 <= rne M2 p2).
    { apply rne_lower; [lia|]. rewrite <- Z.pow_add_r by lia.
      replace (52 + p2) with (Zdigits2 M2 - 1) by lia. assumption. }
    apply Z.le_trans with (2 ^ (Zdigits2 M2 - 1 - p1) * 2 ^ (bexp M1 e + 1074)).
    + apply Z.mul_le_mono_nonneg_r; [apply Z.lt_le_incl, pow2_pos; lia | assumption].
    + apply Z.le_trans with (2 ^ 52 * 2 ^ (bexp M2 e + 1074)).
      * rewrite <- !Z.pow_add_r by lia. apply Z.pow_le_mono_r; [lia|]. unfold p1. lia.
      * apply Z.mul_le_mono_nonneg_r; [apply Z.lt_le_incl, pow2_pos; lia | assumption].
Qed.

Lemma clip_mono (u v : Z) : u <= v -> clip u <= clip v.
Proof.
  intros H. unfold clip, INF_RANK.
  assert (2 ^ 2098 <= 2 ^ 2200) by (apply Z.pow_le_mono_r; lia).
  destruct (Z.ltb_spec u (2 ^ 2098)), (Z.ltb_spec v (2 ^ 2098)); lia.
Qed.

Lemma clip_bounds (v : Z) : 0 <= v -> 0 <= clip v <= INF_RANK.
Proof.
  intros H. unfold clip, INF_RANK.
  assert (2 ^ 2098 <= 2 ^ 2200) by (apply Z.pow_le_mono_r; lia).
  assert (0 < 2 ^ 2098) by (apply pow2_pos; lia).
  destruct (Z.ltb_spec v (2 ^ 2098)); lia.
Qed.

Lemma round_rank_mono (e M1 M2 : Z) :
  0 < M1 <= M2 -> e <= -1074 -> round_rank e M1 <= round_rank e M2.
Proof. intros HM He. apply clip_mono, round_value_mono; assumption. Qed.

Lemma round_rank_bounds (e M : Z) :
  0 < M -> e <= -1074 -> 0 <= round_rank e M <= INF_RANK.
Proof.
  intros HM He. apply clip_bounds.
  apply Z.mul_nonneg_nonneg; [apply rne_nonneg; unfold bexp; lia|].
  apply Z.lt_le_incl, pow2_pos. unfold bexp. lia.
Qed.

Lemma signed_round_rank_mono (e z1 z2 : Z) :
  e <= -1074 -> z1 <= z2 -> signed_round_rank e z1 <= signed_round_rank e z2.
Proof.
  intros He H.
  assert (Hpos : forall m, 0 <= round_rank e (Zpos m) <= INF_RANK)
    by (intros m; apply round_rank_bounds; lia).
  assert (Hmono : forall a b, (a <= b)%positive -> round_rank e (Zpos a) <= round_rank e (Zpos b))
    by (intros a b Hab; apply round_rank_mono; lia).
  destruct z1 as [|m1|m1], z2 as [|m2|m2]; simpl; try lia;
    try pose proof (Hpos m1); try pose proof (Hpos m2); try lia.
  - apply Hmono. lia.
  - pose proof (Hmono m2 m1 ltac:(lia)). lia.
Qed.

Lemma signed_round_rank_bounds (e z : Z) :
  e <= -1074 -> - INF_RANK <= signed_round_rank e z <= INF_RANK.
Proof.
  intros He. assert (0 < INF_RANK) by (apply pow2_pos; lia).
  destruct z as [|m|m]; simpl; try lia;
    pose proof (round_rank_bounds e (Zpos m) ltac:(lia) He); lia.
Qed.

(** ** The shift register of SpecFloat *)

Lemma iter_pos_nat {A} (f : A -> A) (p : positive) : forall x,
  SpecFloat.iter_pos f p x = Nat.iter (Pos.to_nat p) f x.
Proof.
  induction p as [p IH | p IH |]; intros x; simpl SpecFloat.iter_pos.
  - rewrite !IH, Pos2Nat.inj_xI.
    replace (S (2 * Pos.to_nat p)) with (Pos.to_nat p + (Pos.to_nat p + 1))%nat by lia.
    rewrite !Nat.iter_add. reflexivity.
  - rewrite !IH, Pos2Nat.inj_xO.
    replace (2 * Pos.to_nat p)%nat with (Pos.to_nat p + Pos.to_nat p)%nat by lia.
    rewrite Nat.iter_add. reflexivity.
  - reflexivity.
Qed.

Lemma shr_1_fields (r : shr_record) :
  0 <= shr_m r ->
  shr_m (shr_1 r) = shr_m r / 2 /\
  shr_r (shr_1 r) = Z.odd (shr_m r) /\
  shr_s (shr_1 r) = shr_r r || shr_s r.
Proof.
  intros Hm. split; [apply shr_1_m; assumption|].
  destruct r as [m rb sb]; simpl in *.
  destruct m as [|[p|p|]|p]; try lia; split; reflexivity.
Qed.

Lemma mod_pow2_succ (M n : Z) :
  0 <= M -> 0 <= n ->
  M mod 2 ^ (n + 1) = M mod 2 ^ n + (if Z.odd (M / 2 ^ n) then 2 ^ n else 0).
Proof.
  intros HM Hn. assert (Hp : 0 < 2 ^ n) by (apply pow2_pos; lia).
  rewrite Z.pow_add_r, Z.pow_1_r by lia.
  rewrite Z.rem_mul_r by lia.
  rewrite (Zmod_odd (M / 2 ^ n)). destruct (Z.odd _); lia.
Qed.

(** After [n + 1] right shifts of [M]: the quotient, the last bit shifted out,
    and whether anything was shifted out before it. *)
Lemma shr_iter_fields (M : Z) (n : nat) :
  0 <= M ->
  let r := Nat.iter (S n) shr_1 (Build_shr_record M false false) in
  shr_m r = M / 2 ^ (Z.of_nat n + 1) /\
  shr_r r = Z.odd (M / 2 ^ Z.of_nat n) /\
  shr_s r = negb (M mod 2 ^ Z.of_nat n =? 0).
Proof.
  intros HM. induction n as [|n IH].
  - cbv zeta. change (Nat.iter 1 shr_1 (Build_shr_record M false false))
      with (shr_1 (Build_shr_record M false false)).
    destruct (shr_1_fields (Build_shr_record M false false) HM) as (-> & -> & ->).
    change (Z.of_nat 0) with 0. simpl shr_m. simpl shr_r. simpl shr_s.
    rewrite Z.pow_0_r, Z.mod_1_r, Z.div_1_r. change (2 ^ (0 + 1)) with 2.
    repeat split.
  - cbv zeta in IH |- *. rewrite Nat.iter_succ.
    set (r := Nat.iter (S n) shr_1 _) in *. destruct IH as (Hm & Hr & Hs).
    assert (Hp : 0 < 2 ^ (Z.of_nat n + 1)) by (apply pow2_pos; lia).
    assert (Hm0 : 0 <= shr_m r) by (rewrite Hm; apply Z.div_pos; lia).
    destruct (shr_1_fields r Hm0) as (Hm' & Hr' & Hs').
    rewrite Hm', Hr', Hs', Hm, Hr, Hs.
    rewrite Nat2Z.inj_succ. unfold Z.succ.
    split; [|split; [reflexivity|]].
    + rewrite Z.div_div by lia. rewrite <- (Z.pow_1_r 2) at 2.
      rewrite <- Z.pow_add_r by lia. reflexivity.
    + rewrite (mod_pow2_succ M (Z.of_nat n)) by lia.
      assert (Hpn : 0 < 2 ^ Z.of_nat n) by (apply pow2_pos; lia).
      pose proof (Z.mod_pos_bound M (2 ^ Z.of_nat n) Hpn).
      destruct (Z.odd (M / 2 ^ Z.of_nat n)); simpl;
        destruct (Z.eqb_spec (M mod 2 ^ Z.of_nat n) 0); simpl;
        match goal with |- context [?a =? 0] => destruct (Z.eqb_spec a 0) end;
        simpl; try reflexivity; lia.
Qed.

(** The mantissa chosen after shifting [M] right by [p] bits is [rne M p]. *)
Lemma round_after_shift (M : Z) (p : positive) :
  0 <= M ->
  let r := SpecFloat.iter_pos shr_1 p (Build_shr_record M false false) in
  round_nearest_even (shr_m r) (loc_of_shr_record r) = rne M (Zpos p).
Proof.
  intros HM r. subst r. rewrite iter_pos_nat.
  destruct (Pos2Nat.is_succ p) as [n Hn]. rewrite Hn.
  destruct (shr_iter_fields M n HM) as (Hm & Hr & Hs).
  set (r := Nat.iter (S n) shr_1 _) in *.
  assert (Hpn : Zpos p = Z.of_nat n + 1) by lia.
  rewrite Hpn. unfold rne.
  assert (H2n : 0 < 2 ^ Z.of_nat n) by (apply pow2_pos; lia).
  pose proof (Z.mod_pos_bound M (2 ^ Z.of_nat n) H2n) as Hlow.
  rewrite (mod_pow2_succ M (Z.of_nat n)) by lia.
  assert (Hpow : 2 ^ (Z.of_nat n + 1) = 2 * 2 ^ Z.of_nat n)
    by (rewrite Z.pow_add_r, Z.pow_1_r by lia; ring).
  destruct r as [m rb sb]; simpl in *. subst m rb sb.
  set (Q := M / 2 ^ (Z.of_nat n + 1)).
  destruct (Z.odd (M / 2 ^ Z.of_nat n));
    destruct (Z.eqb_spec (M mod 2 ^ Z.of_nat n) 0) as [Hz|Hz]; simpl;
    match goal with |- context [?a ?= ?b] => destruct (Z.compare_spec a b) end;
    try reflexivity; lia.
Qed.

Lemma binary_round_aux_pack (s : bool) (M e : Z) :
  0 < M -> 0 <= bexp M e - e ->
  binary_round_aux prec emax s M e loc_Exact = pack s (rne M (bexp M e - e)) (bexp M e).
Proof.
  intros HM Hp. unfold binary_round_aux, pack.
  unfold shr_fexp at 1. rewrite bexp_fexp. unfold shr.
  destruct (bexp M e - e) as [|p|p] eqn:Hn; try lia.
  - simpl shr_m. simpl loc_of_shr_record. simpl round_nearest_even.
    rewrite rne_exact by (try rewrite Z.mod_1_r; lia). rewrite Z.pow_0_r, Z.div_1_r.
    replace (bexp M e) with e by lia. reflexivity.
  - pose proof (round_after_shift M p ltac:(lia)) as Hr. cbv zeta in Hr.
    simpl shr_record_of_loc. rewrite Hr.
    replace (e + Zpos p) with (bexp M e) by lia. reflexivity.
Qed.

Lemma SFopp_pack (s : bool) (m E : Z) : SFopp (pack s m E) = pack (negb s) m E.
Proof.
  unfold pack. destruct (shr_fexp _ _ _ _ _) as [mrs e'].
  destruct (shr_m mrs); [reflexivity| |reflexivity].
  destruct (_ <=? _); reflexivity.
Qed.

Lemma rank_SFopp (x : spec_float) : rank (SFopp x) = - rank x.
Proof. destruct x as [s|s| |s m e]; simpl; try reflexivity; destruct s; simpl; lia. Qed.

(** The rank of a packed mantissa is its value, or the rank of infinity once
    the value reaches [2^1024]. *)
Lemma rank_pack (m E : Z) :
  0 <= m <= 2 ^ 53 -> -1074 <= E -> (-1074 < E -> 2 ^ 52 <= m) ->
  rank (pack false m E) = clip (m * 2 ^ (E + 1074)) /\ is_nan_sf (pack false m E) = false.
Proof.
  intros Hm HE Hnorm. unfold pack.
  destruct (shr_fexp_spec m E loc_Exact ltac:(lia)) as [Hm3 He3].
  destruct (shr_fexp prec emax m E loc_Exact) as [r3 e3]; simpl in Hm3, He3.
  rewrite bexp_fexp in Hm3, He3.
  assert (H2E : 0 < 2 ^ (E + 1074)) by (apply pow2_pos; lia).
  destruct (Z.eq_dec m 0) as [->|Hm0].
  { replace (bexp 0 E - E) with (Z.max (E - 53) (-1074) - E) in Hm3 by reflexivity.
    destruct (Z.ltb_spec 0 (Z.max (E - 53) (-1074) - E)); [lia|].
    rewrite Hm3. simpl. split; reflexivity. }
  destruct (Z.eq_dec m (2 ^ 53)) as [->|Hm53].
  { assert (Hd : Zdigits2 (2 ^ 53) = 54) by reflexivity.
    assert (Hb : bexp (2 ^ 53) E - E = 1) by (unfold bexp; rewrite Hd; lia).
    rewrite Hb in Hm3, He3. simpl in Hm3, He3. rewrite Hm3, He3.
    change (2 ^ 53 / 2 ^ 1) with (Zpos 4503599627370496).
    destruct (Z.leb_spec (E + 1) (emax - prec)) as [Hle|Hgt]; unfold emax, prec in *.
    - simpl. split; [|reflexivity]. unfold clip.
      replace (E + 1 + 1074) with (1 + (E + 1074)) by lia.
      rewrite Z.pow_add_r by lia.
      replace (4503599627370496 * (2 ^ 1 * 2 ^ (E + 1074))) with (2 ^ 53 * 2 ^ (E + 1074))
        by (change (2 ^ 53) with (4503599627370496 * 2 ^ 1); ring).
      destruct (Z.ltb_spec (2 ^ 53 * 2 ^ (E + 1074)) (2 ^ 2098)) as [|Hbad]; [reflexivity|].
      exfalso. rewrite <- Z.pow_add_r in Hbad by lia.
      assert (2 ^ (53 + (E + 1074)) < 2 ^ 2098) by (apply Z.pow_lt_mono_r; lia). lia.
    - simpl. split; [|reflexivity]. unfold clip.
      destruct (Z.ltb_spec (2 ^ 53 * 2 ^ (E + 1074)) (2 ^ 2098)) as [Hbad|]; [|reflexivity].
      exfalso. rewrite <- Z.pow_add_r in Hbad by lia.
      assert (2 ^ 2098 <= 2 ^ (53 + (E + 1074))) by (apply Z.pow_le_mono_r; lia). lia. }
  assert (Hd : Zdigits2 m <= 53) by (apply Zdigits2_le; lia).
  assert (Hb : bexp m E - E <= 0) by (unfold bexp; lia).
  destruct (Z.ltb_spec 0 (bexp m E - E)); [lia|].
  rewrite Hm3, He3. destruct m as [|m'|m']; try lia.
  destruct (Z.leb_spec E (emax - prec)) as [Hle|Hgt]; unfold emax, prec in *.
  - simpl. split; [|reflexivity]. unfold clip.
    destruct (Z.ltb_spec (Zpos m' * 2 ^ (E + 1074)) (2 ^ 2098)) as [|Hbad]; [reflexivity|].
    exfalso.
    assert (Zpos m' * 2 ^ (E + 1074) < 2 ^ 53 * 2 ^ (E + 1074))
      by (apply Z.mul_lt_mono_pos_r; lia).
    rewrite <- Z.pow_add_r in * by lia.
    assert (2 ^ (53 + (E + 1074)) <= 2 ^ 2098) by (apply Z.pow_le_mono_r; lia). lia.
  - simpl. split; [|reflexivity]. unfold clip.
    destruct (Z.ltb_spec (Zpos m' * 2 ^ (E + 1074)) (2 ^ 2098)) as [Hbad|]; [|reflexivity].
    exfalso. specialize (Hnorm ltac:(lia)).
    assert (2 ^ 52 * 2 ^ (E + 1074) <= Zpos m' * 2 ^ (E + 1074))
      by (apply Z.mul_le_mono_nonneg_r; lia).
    rewrite <- Z.pow_add_r in * by lia.
    assert (2 ^ 2098 <= 2 ^ (52 + (E + 1074))) by (apply Z.pow_le_mono_r; lia). lia.
Qed.

(** Rounding an exact positive value [M * 2^e0], whatever scale [e'] it is
    read at. *)
Lemma rank_binary_round_aux (s : bool) (M e0 e' : Z) :
  0 < M -> e' <= -1074 -> e' <= e0 -> 0 <= bexp M e0 - e0 ->
  rank (binary_round_aux prec emax s M e0 loc_Exact)
    = cond_Zopp s (round_rank e' (M * 2 ^ (e0 - e'))) /\
  is_nan_sf (binary_round_aux prec emax s M e0 loc_Exact) = false.
Proof.
  intros HM He' He0 Hp.
  rewrite binary_round_aux_pack by assumption.
  pose proof (rne_nonneg M (bexp M e0 - e0) ltac:(lia) Hp) as Hnn.
  pose proof (rne_below_2p53 M e0 HM Hp) as H53.
  pose proof (rne_above_2p52 M e0 HM Hp) as H52.
  assert (HE : -1074 <= bexp M e0) by (unfold bexp; lia).
  destruct (rank_pack (rne M (bexp M e0 - e0)) (bexp M e0) ltac:(lia) HE H52) as [Hrank Hnan].
  assert (Hk : 0 < 2 ^ (e0 - e')) by (apply pow2_pos; lia).
  assert (Hbexp : bexp (M * 2 ^ (e0 - e')) e' = bexp M e0).
  { unfold bexp. rewrite Zdigits2_shift by lia. f_equal. lia. }
  assert (Hround : round_rank e' (M * 2 ^ (e0 - e')) = clip (rne M (bexp M e0 - e0) * 2 ^ (bexp M e0 + 1074))).
  { unfold round_rank. rewrite Hbexp.
    replace (bexp M e0 - e') with ((bexp M e0 - e0) + (e0 - e')) by lia.
    rewrite rne_shift by lia. reflexivity. }
  rewrite Hround, <- Hrank.
  destruct s; simpl.
  - rewrite <- (SFopp_pack false). rewrite rank_SFopp. split; [reflexivity|].
    destruct (pack false _ _); simpl in *; congruence.
  - split; [reflexivity | assumption].
Qed.

(** ** Valid floats are ordered by rank *)

Lemma valid_finite (s : bool) (m : positive) (e : Z) :
  valid_binary (S754_finite s m e) = true ->
  bexp (Zpos m) e = e /\ -1074 <= e <= 971 /\ Zpos m < 2 ^ 53 /\
  (-1074 < e -> 2 ^ 52 <= Zpos m).
Proof.
  simpl. unfold bounded, canonical_mantissa. intros H.
  apply andb_prop in H as [Hc Hb]. apply Z.eqb_eq in Hc. apply Z.leb_le in Hb.
  change (fexp prec emax (Zpos (digits2_pos m) + e)) with (bexp (Zpos m) e) in Hc.
  unfold emax, prec in Hb.
  pose proof (Zdigits2_bounds (Zpos m) ltac:(lia)) as [Hlo Hhi].
  assert (Hd : Zdigits2 (Zpos m) <= 53) by (unfold bexp in Hc; lia).
  split; [assumption|]. split; [unfold bexp in Hc; lia|]. split.
  - apply Z.lt_le_trans with (1 := Hhi). apply Z.pow_le_mono_r; lia.
  - intros He. assert (Zdigits2 (Zpos m) = 53) by (unfold bexp in Hc; lia).
    replace 52 with (Zdigits2 (Zpos m) - 1) by lia. assumption.
Qed.

Lemma rank_finite_bounds (s : bool) (m : positive) (e : Z) :
  valid_binary (S754_finite s m e) = true ->
  0 < Zpos m * 2 ^ (e + 1074) < 2 ^ 2098.
Proof.
  intros Hv. destruct (valid_finite s m e Hv) as (_ & He & Hm & _).
  assert (H2 : 0 < 2 ^ (e + 1074)) by (apply pow2_pos; lia).
  split; [lia|].
  assert (Zpos m * 2 ^ (e + 1074) < 2 ^ 53 * 2 ^ (e + 1074)) by (apply Z.mul_lt_mono_pos_r; lia).
  rewrite <- Z.pow_add_r in * by lia.
  assert (2 ^ (53 + (e + 1074)) <= 2 ^ 2098) by (apply Z.pow_le_mono_r; lia). lia.
Qed.

Lemma INF_RANK_large : 2 ^ 2098 < INF_RANK.
Proof. unfold INF_RANK. apply Z.pow_lt_mono_r; lia. Qed.

Lemma rank_bounds (x : spec_float) : valid_binary x = true -> - INF_RANK <= rank x <= INF_RANK.
Proof.
  intros Hv. pose proof INF_RANK_large. assert (0 < 2 ^ 2098) by (apply pow2_pos; lia).
  destruct x as [s|s| |s m e]; simpl; try lia.
  - destruct s; simpl; lia.
  - pose proof (rank_finite_bounds s m e Hv). destruct s; simpl; lia.
Qed.

(** Canonical mantissas compare as SpecFloat compares them: exponents first. *)
Lemma canonical_compare (s1 s2 : bool) (m1 m2 : positive) (e1 e2 : Z) :
  valid_binary (S754_finite s1 m1 e1) = true ->
  valid_binary (S754_finite s2 m2 e2) = true ->
  (Zpos m1 * 2 ^ (e1 + 1074) ?= Zpos m2 * 2 ^ (e2 + 1074)) =
  match e1 ?= e2 with
  | Lt => Lt
  | Gt => Gt
  | Eq => Pos.compare_cont Eq m1 m2
  end.
Proof.
  intros H1 H2.
  destruct (valid_finite s1 m1 e1 H1) as (_ & He1 & Hm1 & Hn1).
  destruct (valid_finite s2 m2 e2 H2) as (_ & He2 & Hm2 & Hn2).
  assert (Hcross : forall ma mb ea eb, -1074 <= ea -> ea < eb -> ma < 2 ^ 53 -> 2 ^ 52 <= mb ->
            ma * 2 ^ (ea + 1074) < mb * 2 ^ (eb + 1074)).
  { intros ma mb ea eb Hea Hlt Hma Hmb.
    assert (0 < 2 ^ (ea + 1074)) by (apply pow2_pos; lia).
    assert (0 < 2 ^ (eb + 1074)) by (apply pow2_pos; lia).
    apply Z.lt_le_trans with (2 ^ 53 * 2 ^ (ea + 1074)); [apply Z.mul_lt_mono_pos_r; lia|].
    apply Z.le_trans with (2 ^ 52 * 2 ^ (eb + 1074)); [|apply Z.mul_le_mono_nonneg_r; lia].
    rewrite <- !Z.pow_add_r by lia. apply Z.pow_le_mono_r; lia. }
  destruct (Z.compare_spec e1 e2) as [->|Hlt|Hgt].
  - assert (0 < 2 ^ (e2 + 1074)) by (apply pow2_pos; lia).
    rewrite <- Zmult_compare_compat_r by lia. reflexivity.
  - apply Z.compare_lt_iff. apply Hcross; lia.
  - apply Z.compare_gt_iff. apply Hcross; lia.
Qed.

Lemma SFcompare_rank (x y : spec_float) :
  valid_binary x = true -> valid_binary y = true ->
  is_nan_sf x = false -> is_nan_sf y = false ->
  SFcompare x y = Some (rank x ?= rank y).
Proof.
  intros Hx Hy Hnx Hny.
  pose proof INF_RANK_large as HI. assert (H0 : 0 < 2 ^ 2098) by (apply pow2_pos; lia).
  assert (Hcmp : forall a b c, (a ?= b) = c -> Some c = Some (a ?= b)) by (intros; subst; reflexivity).
  destruct x as [sx|sx| |sx mx ex], y as [sy|sy| |sy my ey]; try discriminate;
    try pose proof (rank_finite_bounds sx mx ex Hx);
    try pose proof (rank_finite_bounds sy my ey Hy);
    try (try destruct sx; try destruct sy; unfold SFcompare, rank, cond_Zopp; apply Hcmp;
         first [apply Z.compare_eq_iff; lia | apply Z.compare_lt_iff; lia
               | apply Z.compare_gt_iff; lia]).
  pose proof (canonical_compare sx sy mx my ex ey Hx Hy) as Hc.
  pose proof (canonical_compare sy sx my mx ey ex Hy Hx) as Hc'.
  destruct sx, sy; simpl; f_equal.
  - rewrite Z.compare_opp, Hc'.
    rewrite (Z.compare_antisym ey ex).
    destruct (ey ?= ex); simpl; try reflexivity.
    rewrite Pos.compare_cont_antisym. reflexivity.
  - symmetry. apply Z.compare_lt_iff. lia.
  - symmetry. apply Z.compare_gt_iff. lia.
  - rewrite Hc. reflexivity.
Qed.

(** ** The rank of a sum, a difference and a product *)

Lemma signed_round_rank_cond (s : bool) (e M : Z) :
  0 < M -> signed_round_rank e (cond_Zopp s M) = cond_Zopp s (round_rank e M).
Proof. intros HM. destruct M; try lia. destruct s; reflexivity. Qed.

Lemma round_rank_fixed (s : bool) (m : positive) (e : Z) :
  valid_binary (S754_finite s m e) = true ->
  round_rank (-1074) (Zpos m * 2 ^ (e + 1074)) = Zpos m * 2 ^ (e + 1074).
Proof.
  intros Hv. pose proof (rank_finite_bounds s m e Hv) as Hb.
  destruct (valid_finite s m e Hv) as (Hc & He & _).
  unfold round_rank.
  assert (HE : bexp (Zpos m * 2 ^ (e + 1074)) (-1074) = e).
  { unfold bexp in *. rewrite Zdigits2_shift by lia. rewrite <- Hc at 2. f_equal. lia. }
  rewrite HE. cbv zeta.
  replace (e - -1074) with (0 + (e + 1074)) by lia.
  rewrite rne_shift by lia.
  rewrite rne_exact by (try lia; apply Z.mod_1_r). rewrite Z.pow_0_r, Z.div_1_r.
  unfold clip. destruct (Z.ltb_spec (Zpos m * 2 ^ (e + 1074)) (2 ^ 2098)); lia.
Qed.

Lemma signed_round_rank_fixed (x : spec_float) :
  valid_binary x = true -> fin_sf x = true ->
  signed_round_rank (-1074) (rank x) = rank x.
Proof.
  intros Hv Hf. destruct x as [s|s| |s m e]; try discriminate; [reflexivity|].
  pose proof (rank_finite_bounds s m e Hv). unfold rank.
  rewrite signed_round_rank_cond by lia. f_equal. apply (round_rank_fixed s), Hv.
Qed.

Lemma shl_align_spec (m : positive) (e e' : Z) :
  snd (shl_align m e e') = Z.min e e' /\
  Zpos (fst (shl_align m e e')) = Zpos m * 2 ^ (e - Z.min e e').
Proof.
  unfold shl_align. destruct (e' - e) as [|d|d] eqn:Hd; simpl fst; simpl snd.
  - replace (Z.min e e') with e by lia. rewrite Z.sub_diag. simpl. lia.
  - replace (Z.min e e') with e by lia. rewrite Z.sub_diag. simpl. lia.
  - replace (Z.min e e') with e' by lia. split; [reflexivity|].
    replace (e - e') with (Zpos d) by lia.
    change (Pos.iter xO m d) with (shift_pos d m).
    rewrite shift_pos_correct. rewrite Z.mul_comm. reflexivity.
Qed.

Lemma rank_binary_normalize (z ez : Z) :
  -1074 <= ez ->
  rank (binary_normalize prec emax z ez false)
    = signed_round_rank (-1074) (z * 2 ^ (ez + 1074)) /\
  is_nan_sf (binary_normalize prec emax z ez false) = false.
Proof.
  intros He.
  assert (H2 : 0 < 2 ^ (ez + 1074)) by (apply pow2_pos; lia).
  assert (Hround : forall s M,
    rank (binary_round prec emax s M ez) = cond_Zopp s (round_rank (-1074) (Zpos M * 2 ^ (ez + 1074))) /\
    is_nan_sf (binary_round prec emax s M ez) = false).
  { intros s M. unfold binary_round.
    change (fexp prec emax (Zpos (digits2_pos M) + ez)) with (fexp prec emax (Zdigits2 (Zpos M) + ez)).
    rewrite bexp_fexp.
    destruct (shl_align_spec M ez (bexp (Zpos M) ez)) as [Hs Hf].
    destruct (shl_align M ez (bexp (Zpos M) ez)) as [mz ez'] eqn:Hsh. simpl in Hs, Hf.
    assert (Hlow : -1074 <= bexp (Zpos M) ez) by (unfold bexp; lia).
    assert (Hp : 0 <= bexp (Zpos mz) ez' - ez').
    { rewrite Hf. unfold bexp. rewrite Zdigits2_shift by lia. subst ez'.
      unfold bexp. lia. }
    destruct (rank_binary_round_aux s (Zpos mz) ez' (-1074)) as [Hr Hn]; try lia.
    split; [|assumption]. rewrite Hr. do 2 f_equal.
    rewrite Hf, <- Z.mul_assoc, <- Z.pow_add_r by lia. do 2 f_equal. lia. }
  destruct z as [|M|M]; simpl binary_normalize.
  - split; reflexivity.
  - destruct (Hround false M) as [Hr Hn]. split; [|assumption].
    rewrite Hr. symmetry. apply (signed_round_rank_cond false). lia.
  - destruct (Hround true M) as [Hr Hn]. split; [|assumption].
    rewrite Hr. symmetry.
    change (Z.neg M * 2 ^ (ez + 1074)) with (cond_Zopp true (Zpos M) * 2 ^ (ez + 1074)).
    replace (cond_Zopp true (Zpos M) * 2 ^ (ez + 1074))
      with (cond_Zopp true (Zpos M * 2 ^ (ez + 1074))) by (simpl; lia).
    apply signed_round_rank_cond. lia.
Qed.

Lemma signed_round_rank_opp (e z : Z) : signed_round_rank e (- z) = - signed_round_rank e z.
Proof.
  destruct z as [|m|m]; [reflexivity | reflexivity |].
  change (round_rank e (Zpos m) = - - round_rank e (Zpos m)). lia.
Qed.

Lemma valid_SFopp (x : spec_float) : valid_binary (SFopp x) = valid_binary x.
Proof. destruct x; reflexivity. Qed.

Lemma rank_aligned (s : bool) (m : positive) (e ez : Z) :
  -1074 <= ez -> ez <= e ->
  cond_Zopp s (Zpos (fst (shl_align m e ez))) * 2 ^ (ez + 1074)
    = cond_Zopp s (Zpos m * 2 ^ (e + 1074)).
Proof.
  intros Hz He. destruct (shl_align_spec m e ez) as [_ ->].
  replace (Z.min e ez) with ez by lia.
  replace (e + 1074) with ((e - ez) + (ez + 1074)) by lia.
  rewrite (Z.pow_add_r 2 (e - ez) (ez + 1074)) by lia. destruct s; unfold cond_Zopp; ring.
Qed.

Lemma rank_SFadd (x y : spec_float) :
  valid_binary x = true -> valid_binary y = true ->
  fin_sf x = true -> fin_sf y = true ->
  rank (SFadd prec emax x y) = signed_round_rank (-1074) (rank x + rank y) /\
  is_nan_sf (SFadd prec emax x y) = false.
Proof.
  intros Hx Hy Fx Fy.
  destruct x as [sx|sx| |sx mx ex], y as [sy|sy| |sy my ey]; try discriminate.
  - destruct sx, sy; split; reflexivity.
  - split; [|reflexivity]. simpl SFadd. rewrite Z.add_0_l.
    symmetry. apply signed_round_rank_fixed; assumption.
  - split; [|reflexivity]. simpl SFadd.
    change (rank (S754_zero sy)) with 0. rewrite Z.add_0_r.
    symmetry. apply signed_round_rank_fixed; assumption.
  - destruct (valid_finite sx mx ex Hx) as (_ & Hex & _).
    destruct (valid_finite sy my ey Hy) as (_ & Hey & _).
    unfold SFadd. cbv zeta.
    destruct (rank_binary_normalize
      (cond_Zopp sx (Zpos (fst (shl_align mx ex (Z.min ex ey)))) +
       cond_Zopp sy (Zpos (fst (shl_align my ey (Z.min ex ey))))) (Z.min ex ey)) as [Hr Hn]; [lia|].
    split; [|exact Hn]. rewrite Hr. f_equal.
    rewrite Z.mul_add_distr_r, !rank_aligned by lia. reflexivity.
Qed.

Lemma rank_SFsub (x y : spec_float) :
  valid_binary x = true -> valid_binary y = true ->
  fin_sf x = true -> fin_sf y = true ->
  rank (SFsub prec emax x y) = signed_round_rank (-1074) (rank x - rank y) /\
  is_nan_sf (SFsub prec emax x y) = false.
Proof.
  intros Hx Hy Fx Fy.
  destruct x as [sx|sx| |sx mx ex], y as [sy|sy| |sy my ey]; try discriminate.
  - destruct sx, sy; split; reflexivity.
  - split; [|reflexivity]. simpl SFsub. rewrite Z.sub_0_l.
    change (S754_finite (negb sy) my ey) with (SFopp (S754_finite sy my ey)).
    rewrite rank_SFopp, signed_round_rank_opp. f_equal.
    symmetry. apply signed_round_rank_fixed; assumption.
  - split; [|reflexivity]. simpl SFsub.
    change (rank (S754_zero sy)) with 0. rewrite Z.sub_0_r.
    symmetry. apply signed_round_rank_fixed; assumption.
  - destruct (valid_finite sx mx ex Hx) as (_ & Hex & _).
    destruct (valid_finite sy my ey Hy) as (_ & Hey & _).
    unfold SFsub. cbv zeta.
    destruct (rank_binary_normalize
      (cond_Zopp sx (Zpos (fst (shl_align mx ex (Z.min ex ey)))) -
       cond_Zopp sy (Zpos (fst (shl_align my ey (Z.min ex ey))))) (Z.min ex ey)) as [Hr Hn]; [lia|].
    split; [|exact Hn]. rewrite Hr. f_equal.
    rewrite Z.mul_sub_distr_r, !rank_aligned by lia. reflexivity.
Qed.

Lemma rank_SFmul (x y : spec_float) :
  valid_binary x = true -> valid_binary y = true ->
  fin_sf x = true -> fin_sf y = true ->
  rank (SFmul prec emax x y) = signed_round_rank (-2148) (rank x * rank y) /\
  is_nan_sf (SFmul prec emax x y) = false.
Proof.
  intros Hx Hy Fx Fy.
  destruct x as [sx|sx| |sx mx ex], y as [sy|sy| |sy my ey]; try discriminate.
  - split; reflexivity.
  - split; reflexivity.
  - split; [|reflexivity]. simpl SFmul. change (rank (S754_zero sy)) with 0.
    rewrite Z.mul_0_r. reflexivity.
  - destruct (valid_finite sx mx ex Hx) as (_ & Hex & Hmx & Hnx).
    destruct (valid_finite sy my ey Hy) as (_ & Hey & Hmy & Hny).
    unfold SFmul.
    assert (Hp : 0 <= bexp (Zpos (mx * my)) (ex + ey) - (ex + ey)).
    { unfold bexp. destruct (Z.le_gt_cases (ex + ey) (-1074)) as [|Hgt]; [lia|].
      assert (2 ^ 52 <= Zpos (mx * my)).
      { rewrite Pos2Z.inj_mul.
        destruct (Z.le_gt_cases ex (-1074)); [specialize (Hny ltac:(lia))|specialize (Hnx ltac:(lia))]; nia. }
      pose proof (Zdigits2_ge (Zpos (mx * my)) 52 ltac:(lia) ltac:(assumption)). lia. }
    destruct (rank_binary_round_aux (xorb sx sy) (Zpos (mx * my)) (ex + ey) (-2148)) as [Hr Hn];
      try lia.
    split; [|exact Hn]. rewrite Hr.
    assert (H1 : 0 < 2 ^ (ex + 1074)) by (apply pow2_pos; lia).
    assert (H2 : 0 < 2 ^ (ey + 1074)) by (apply pow2_pos; lia).
    replace (rank (S754_finite sx mx ex) * rank (S754_finite sy my ey))
      with (cond_Zopp (xorb sx sy) (Zpos (mx * my) * 2 ^ (ex + ey - -2148))).
    + symmetry. apply signed_round_rank_cond.
      apply Z.mul_pos_pos; [lia | apply pow2_pos; lia].
    + replace (ex + ey - -2148) with ((ex + 1074) + (ey + 1074)) by lia.
      rewrite Z.pow_add_r, Pos2Z.inj_mul by lia.
      unfold rank. destruct sx, sy; unfold cond_Zopp, xorb; ring.
Qed.

(** ** Ranks of machine floats *)

Lemma frank_bounds (x : float) : - INF_RANK <= frank x <= INF_RANK.
Proof. apply rank_bounds, Prim2SF_valid. Qed.

Lemma leb_frank (x y : float) :
  fnan x = false -> fnan y = false -> (x <=? y)%float = (frank x <=? frank y).
Proof.
  intros Hx Hy. rewrite FloatAxioms.leb_spec. unfold SFleb, frank.
  rewrite SFcompare_rank by (try apply Prim2SF_valid; assumption).
  unfold Z.leb. destruct (_ ?= _); reflexivity.
Qed.

Lemma ltb_frank (x y : float) :
  fnan x = false -> fnan y = false -> (x <? y)%float = (frank x <? frank y).
Proof.
  intros Hx Hy. rewrite FloatAxioms.ltb_spec. unfold SFltb, frank.
  rewrite SFcompare_rank by (try apply Prim2SF_valid; assumption).
  unfold Z.ltb. destruct (_ ?= _); reflexivity.
Qed.

Lemma leb_true (x y : float) :
  (x <=? y)%float = true <-> fnan x = false /\ fnan y = false /\ frank x <= frank y.
Proof.
  split.
  - intros H. assert (Hn : fnan x = false /\ fnan y = false).
    { rewrite FloatAxioms.leb_spec in H. unfold fnan.
      destruct (Prim2SF x), (Prim2SF y); try discriminate; split; reflexivity. }
    destruct Hn as [Hx Hy]. rewrite leb_frank in H by assumption.
    apply Z.leb_le in H. auto.
  - intros (Hx & Hy & H). rewrite leb_frank by assumption. apply Z.leb_le, H.
Qed.

Lemma ltb_true (x y : float) :
  (x <? y)%float = true <-> fnan x = false /\ fnan y = false /\ frank x < frank y.
Proof.
  split.
  - intros H. assert (Hn : fnan x = false /\ fnan y = false).
    { rewrite FloatAxioms.ltb_spec in H. unfold fnan.
      destruct (Prim2SF x), (Prim2SF y); try discriminate; split; reflexivity. }
    destruct Hn as [Hx Hy]. rewrite ltb_frank in H by assumption.
    apply Z.ltb_lt in H. auto.
  - intros (Hx & Hy & H). rewrite ltb_frank by assumption. apply Z.ltb_lt, H.
Qed.

Lemma ltb_nan_l (x y : float) : fnan x = true -> (x <? y)%float = false.
Proof.
  intros H. rewrite FloatAxioms.ltb_spec. unfold fnan in H.
  destruct (Prim2SF x); try discriminate. reflexivity.
Qed.

Lemma ltb_nan_r (x y : float) : fnan y = true -> (x <? y)%float = false.
Proof.
  intros H. rewrite FloatAxioms.ltb_spec. unfold fnan in H.
  destruct (Prim2SF y); try discriminate. destruct (Prim2SF x); reflexivity.
Qed.

Lemma ffin_rank (x : float) : ffin x = true -> - 2 ^ 2098 < frank x < 2 ^ 2098.
Proof.
  unfold ffin, frank. intros H. pose proof (Prim2SF_valid x) as Hv.
  assert (0 < 2 ^ 2098) by (apply pow2_pos; lia).
  destruct (Prim2SF x) as [s|s| |s m e]; try discriminate; simpl; [lia|].
  pose proof (rank_finite_bounds s m e Hv). destruct s; simpl; lia.
Qed.

Lemma ffin_nan (x : float) : ffin x = true -> fnan x = false.
Proof. unfold ffin, fnan. destruct (Prim2SF x); try discriminate; reflexivity. Qed.

(** A float that is not NaN is finite, or one of the two infinities, which
    sit at the two ends of the rank scale. *)
Lemma float_cases (x : float) :
  fnan x = false ->
  ffin x = true \/
  (Prim2SF x = S754_infinity true /\ frank x = - INF_RANK) \/
  (Prim2SF x = S754_infinity false /\ frank x = INF_RANK).
Proof.
  unfold fnan, ffin, frank. destruct (Prim2SF x) as [s|[]| |s m e]; try discriminate; auto.
Qed.

Lemma ffin_of_rank (x : float) :
  fnan x = false -> - INF_RANK < frank x < INF_RANK -> ffin x = true.
Proof.
  intros Hn Hr. destruct (float_cases x Hn) as [H | [[_ H] | [_ H]]]; [assumption | lia | lia].
Qed.

(** Lifting a monotone map on ranks to floats: [F] follows [G] on finite
    inputs and leaves the infinities alone. *)
Lemma mono_lift (F : float -> float) (G : Z -> Z) :
  (forall z1 z2, z1 <= z2 -> G z1 <= G z2) ->
  (forall x, ffin x = true -> frank (F x) = G (frank x) /\ fnan (F x) = false) ->
  (forall x s, Prim2SF x = S754_infinity s -> Prim2SF (F x) = S754_infinity s) ->
  forall x y, fnan x = false -> fnan y = false -> frank x <= frank y ->
    frank (F x) <= frank (F y) /\ fnan (F x) = false /\ fnan (F y) = false.
Proof.
  intros HG Hfin Hinf x y Hx Hy Hle.
  pose proof INF_RANK_large as HI. assert (H0 : 0 < 2 ^ 2098) by (apply pow2_pos; lia).
  assert (Hnan : forall z, fnan z = false -> fnan (F z) = false).
  { intros z Hz. destruct (float_cases z Hz) as [H | [[H _] | [H _]]].
    - apply Hfin, H.
    - unfold fnan. rewrite (Hinf z _ H). reflexivity.
    - unfold fnan. rewrite (Hinf z _ H). reflexivity. }
  split; [|split; apply Hnan; assumption].
  assert (Hinfr : forall z s, Prim2SF z = S754_infinity s -> frank (F z) = frank z).
  { intros z s Hz. unfold frank. rewrite (Hinf z s Hz), Hz. reflexivity. }
  pose proof (frank_bounds (F x)). pose proof (frank_bounds (F y)).
  destruct (float_cases x Hx) as [Fx | [[Ex Rx] | [Ex Rx]]],
           (float_cases y Hy) as [Fy | [[Ey Ry] | [Ey Ry]]];
    try pose proof (ffin_rank x Fx); try pose proof (ffin_rank y Fy);
    try rewrite (Hinfr x _ Ex); try rewrite (Hinfr y _ Ey);
    try lia.
  destruct (Hfin x Fx) as [-> _], (Hfin y Fy) as [-> _]. apply HG, Hle.
Qed.

(** ** Float operations of the transform are monotone *)

Lemma add_mono (k x y : float) :
  ffin k = true -> fnan x = false -> fnan y = false -> frank x <= frank y ->
  frank (x + k) <= frank (y + k) /\ fnan (x + k) = false /\ fnan (y + k) = false.
Proof.
  intros Hk.
  apply (mono_lift (fun z => (z + k)%float) (fun r => signed_round_rank (-1074) (r + frank k))).
  - intros z1 z2 H. apply signed_round_rank_mono; lia.
  - intros z Hz. unfold frank, fnan. rewrite FloatAxioms.add_spec.
    apply rank_SFadd; try apply Prim2SF_valid; assumption.
  - intros z s Hz. rewrite FloatAxioms.add_spec, Hz. unfold ffin in Hk.
    destruct (Prim2SF k); try discriminate; reflexivity.
Qed.

Lemma sub_mono (k x y : float) :
  ffin k = true -> fnan x = false -> fnan y = false -> frank x <= frank y ->
  frank (x - k) <= frank (y - k) /\ fnan (x - k) = false /\ fnan (y - k) = false.
Proof.
  intros Hk.
  apply (mono_lift (fun z => (z - k)%float) (fun r => signed_round_rank (-1074) (r - frank k))).
  - intros z1 z2 H. apply signed_round_rank_mono; lia.
  - intros z Hz. unfold frank, fnan. rewrite FloatAxioms.sub_spec.
    apply rank_SFsub; try apply Prim2SF_valid; assumption.
  - intros z s Hz. rewrite FloatAxioms.sub_spec, Hz. unfold ffin in Hk.
    destruct (Prim2SF k); try discriminate; reflexivity.
Qed.

Lemma mul_mono (c x y : float) :
  ffin c = true -> 0 < frank c -> fnan x = false -> fnan y = false -> frank x <= frank y ->
  frank (x * c) <= frank (y * c) /\ fnan (x * c) = false /\ fnan (y * c) = false.
Proof.
  intros Hc Hpos.
  apply (mono_lift (fun z => (z * c)%float) (fun r => signed_round_rank (-2148) (r * frank c))).
  - intros z1 z2 H. apply signed_round_rank_mono; [lia|]. apply Z.mul_le_mono_nonneg_r; lia.
  - intros z Hz. unfold frank, fnan. rewrite FloatAxioms.mul_spec.
    apply rank_SFmul; try apply Prim2SF_valid; assumption.
  - intros z s Hz. rewrite FloatAxioms.mul_spec, Hz. unfold ffin, frank in Hc, Hpos.
    destruct (Prim2SF c) as [sc|sc| |sc mc ec]; try discriminate.
    destruct sc; [simpl in Hpos; lia|]. destruct s; reflexivity.
Qed.

(** [max(0.0, min(1.0, x))] clamps the rank between those of 0.0 and 1.0. *)
Lemma clamp_frank (x : float) :
  fnan x = false ->
  frank (py_max 0.0 (py_min 1.0 x)) = Z.max 0 (Z.min (frank 1) (frank x)) /\
  ffin (py_max 0.0 (py_min 1.0 x)) = true.
Proof.
  intros Hx. unfold py_max, py_min.
  assert (H1 : 0 < frank 1 < INF_RANK).
  { pose proof (ffin_rank 1 eq_refl). pose proof INF_RANK_large.
    assert ((0 <? 1)%float = true) as Hlt by reflexivity.
    apply ltb_true in Hlt. change (frank 0) with 0 in Hlt. lia. }
  pose proof (frank_bounds x) as Hb.
  rewrite (ltb_frank x 1) by (assumption || reflexivity).
  destruct (Z.ltb_spec (frank x) (frank 1)) as [Hlt|Hge].
  - rewrite (ltb_frank 0 x) by (assumption || reflexivity). change (frank 0) with 0.
    destruct (Z.ltb_spec 0 (frank x)) as [Hp|Hn].
    + split; [lia|]. apply ffin_of_rank; [assumption | lia].
    + split; [change (frank 0) with 0; lia | reflexivity].
  - change (0 <? 1)%float with true. cbv iota. split; [lia | reflexivity].
Qed.

Lemma clamp_nan (x : float) : fnan x = true -> py_max 0.0 (py_min 1.0 x) = 1%float.
Proof. intros Hx. unfold py_max, py_min. rewrite (ltb_nan_l x 1) by assumption. reflexivity. Qed.

(** Clamped values are never NaN and never infinite, whatever the argument. *)
Lemma clamp_ffin (x : float) : ffin (py_max 0.0 (py_min 1.0 x)) = true.
Proof.
  destruct (fnan x) eqn:Hx.
  - rewrite clamp_nan by assumption. reflexivity.
  - apply clamp_frank, Hx.
Qed.

Lemma clamp_mono (x y : float) :
  fnan x = false -> fnan y = false -> frank x <= frank y ->
  frank (py_max 0.0 (py_min 1.0 x)) <= frank (py_max 0.0 (py_min 1.0 y)).
Proof.
  intros Hx Hy H. destruct (clamp_frank x Hx) as [-> _], (clamp_frank y Hy) as [-> _]. lia.
Qed.

(** [int] of a small product is its rank over the rank of one unit. *)
Lemma py_int_frank (p : float) : small_product p -> py_int p = Ok (frank p / 2 ^ 1074).
Proof.
  unfold py_int, frank. pose proof (Prim2SF_valid p) as Hv.
  intros [H | (m & e & H & _)]; rewrite H in *; [reflexivity|].
  destruct (valid_finite false m e Hv) as (_ & He & _).
  cbn [rank cond_Zopp]. f_equal.
  destruct (Z.le_gt_cases 0 e) as [Hp|Hn].
  - rewrite Z.shiftl_mul_pow2 by lia. rewrite Z.pow_add_r by lia.
    rewrite Z.mul_assoc. symmetry. apply Z.div_mul. apply Z.pow_nonzero; lia.
  - rewrite Z.shiftl_div_pow2 by lia.
    replace 1074 with ((e + 1074) + - e) at 2 by lia.
    rewrite (Z.pow_add_r 2 (e + 1074) (- e)) by lia.
    rewrite (Z.mul_comm (2 ^ (e + 1074))).
    symmetry. apply Z.div_mul_cancel_r; apply Z.pow_nonzero; lia.
Qed.

(** The last two lines of the loop body, [int(val * 65535)], preserve order. *)
Lemma scale_mono (a b : float) :
  frank (py_max 0.0 (py_min 1.0 a)) <= frank (py_max 0.0 (py_min 1.0 b)) ->
  exists u v,
    py_int (py_max 0.0 (py_min 1.0 a) * float_of_int 65535)%float = Ok u /\
    py_int (py_max 0.0 (py_min 1.0 b) * float_of_int 65535)%float = Ok v /\
    u <= v.
Proof.
  intros H.
  destruct (mul_mono (float_of_int 65535) _ _ eq_refl ltac:(vm_compute; reflexivity)
              (ffin_nan _ (clamp_ffin a)) (ffin_nan _ (clamp_ffin b)) H) as (Hle & _ & _).
  rewrite !py_int_frank by apply clamp_product_shape.
  eexists _, _. split; [reflexivity|]. split; [reflexivity|].
  apply Z.div_le_mono; [apply pow2_pos; lia | assumption].
Qed.

(** ** The exponent [1.0 / max(gamma, 0.1)] is not negative *)

Lemma binary_round_aux_sign (s : bool) (mx ex : Z) (lx : location) :
  0 <= mx ->
  match binary_round_aux prec emax s mx ex lx with
  | S754_nan => False
  | S754_zero s' | S754_infinity s' | S754_finite s' _ _ => s' = s
  end.
Proof.
  intros Hmx. unfold binary_round_aux.
  destruct (shr_fexp_spec mx ex lx Hmx) as [Hm1 _].
  destruct (shr_fexp prec emax mx ex lx) as [r1 e1]; simpl in Hm1.
  assert (H1 : 0 <= shr_m r1).
  { rewrite Hm1. match goal with |- context [0 <? ?n] => destruct (Z.ltb_spec 0 n) end;
      [apply Z.div_pos; [lia | apply Z.pow_pos_nonneg; lia] | lia]. }
  pose proof (round_nearest_even_bounds (shr_m r1) (loc_of_shr_record r1)) as Hrne.
  destruct (shr_fexp_spec (round_nearest_even (shr_m r1) (loc_of_shr_record r1)) e1 loc_Exact
              ltac:(lia)) as [Hm2 _].
  destruct (shr_fexp prec emax _ e1 loc_Exact) as [r2 e2]; simpl in Hm2.
  assert (H2 : 0 <= shr_m r2).
  { rewrite Hm2. match goal with |- context [0 <? ?n] => destruct (Z.ltb_spec 0 n) end;
      [apply Z.div_pos; [lia | apply Z.pow_pos_nonneg; lia] | lia]. }
  destruct (shr_m r2) as [|m|m]; [reflexivity | destruct (_ <=? _); reflexivity | lia].
Qed.

Lemma SFdiv_core_binary_nonneg (m1 m2 : positive) (e1 e2 : Z) :
  0 <= fst (fst (SFdiv_core_binary prec emax (Zpos m1) e1 (Zpos m2) e2)).
Proof.
  unfold SFdiv_core_binary. cbv zeta.
  set (s := e1 - e2 - _).
  set (m' := match s with 0 => Zpos m1 | Zpos _ => Z.shiftl (Zpos m1) s | Zneg _ => 0 end).
  assert (Hm' : 0 <= m').
  { unfold m'. destruct s; try lia. apply Z.shiftl_nonneg. lia. }
  pose proof (Z.div_pos m' (Zpos m2) Hm' ltac:(lia)) as Hq.
  unfold Z.div in Hq. destruct (Z.div_eucl m' (Zpos m2)) as [q r]. exact Hq.
Qed.

Lemma expo_nonneg (d : float) :
  (0.1 <=? d)%float = true -> (0 <=? 1.0 / d)%float = true.
Proof.
  intros H. apply leb_true in H as (_ & Hn & Hr).
  assert (Hpos : 0 < frank d).
  { apply Z.lt_le_trans with (2 := Hr). vm_compute. reflexivity. }
  rewrite FloatAxioms.leb_spec, FloatAxioms.div_spec.
  change (Prim2SF 1) with (S754_finite false 4503599627370496 (-52)).
  change (Prim2SF 0) with (S754_zero false).
  clear Hr. pose proof (Prim2SF_valid d) as Hv.
  pose proof INF_RANK_large as HI. assert (H0 : 0 < 2 ^ 2098) by (apply pow2_pos; lia).
  unfold fnan, frank in *.
  destruct (Prim2SF d) as [sd|sd| |sd md ed]; try discriminate.
  - destruct sd; [unfold rank, cond_Zopp in Hpos; lia | reflexivity].
  - pose proof (rank_finite_bounds sd md ed Hv).
    destruct sd; [unfold rank, cond_Zopp in Hpos; lia |].
    unfold SF64div, SFdiv.
    pose proof (SFdiv_core_binary_nonneg 4503599627370496 md (-52) ed) as Hq.
    destruct (SFdiv_core_binary _ _ _ _ _ _) as [[mz ez] lz]. simpl in Hq.
    pose proof (binary_round_aux_sign (xorb false false) mz ez lz Hq) as Hs.
    destruct (binary_round_aux _ _ _ _ _ _) as [s|s| |s m e]; try contradiction;
      simpl in Hs; subst s; reflexivity.
Qed.

(** ** [i / 255.0] grows with [i] inside the unit interval *)

Lemma normalized_checked : normalized_ordered = true.
Proof. vm_compute. reflexivity. Qed.

Lemma normalized_step (i : nat) :
  (i < 255)%nat -> (normalized_of i <=? normalized_of (S i))%float = true.
Proof.
  intros Hi. pose proof normalized_checked as H. unfold normalized_ordered in H.
  apply andb_prop in H as [H _]. apply andb_prop in H as [_ H].
  rewrite forallb_forall in H. apply H, in_seq. lia.
Qed.

Lemma normalized_chain (i d : nat) :
  (i + d < 256)%nat ->
  fnan (normalized_of i) = false /\ fnan (normalized_of (i + d)) = false /\
  frank (normalized_of i) <= frank (normalized_of (i + d)).
Proof.
  induction d as [|d IH]; intros Hd.
  - replace (i + 0)%nat with i by lia.
    assert (Hn : fnan (normalized_of i) = false).
    { destruct (Nat.eq_dec i 255%nat) as [->|Hne]; [vm_compute; reflexivity|].
      pose proof (normalized_step i ltac:(lia)) as Hs. apply leb_true in Hs. apply Hs. }
    split; [assumption|]. split; [assumption | lia].
  - destruct (IH ltac:(lia)) as (H1 & H2 & H3).
    pose proof (normalized_step (i + d) ltac:(lia)) as Hs.
    apply leb_true in Hs as (_ & H4 & H5).
    replace (i + S d)%nat with (S (i + d)) by lia.
    split; [assumption|]. split; [assumption | lia].
Qed.

Lemma normalized_mono (i j : nat) :
  (i <= j)%nat -> (j < 256)%nat ->
  (0 <=? normalized_of i)%float = true /\
  (normalized_of i <=? normalized_of j)%float = true /\
  (normalized_of j <=? 1)%float = true.
Proof.
  intros Hij Hj. pose proof normalized_checked as H. unfold normalized_ordered in H.
  apply andb_prop in H as [H H1]. apply andb_prop in H as [H0 _].
  apply leb_true in H0 as (Z0 & _ & L0). apply leb_true in H1 as (_ & Z1 & L1).
  destruct (normalized_chain 0 i ltac:(lia)) as (_ & _ & A). simpl in A.
  destruct (normalized_chain i (j - i) ltac:(lia)) as (Ni & Nj & B).
  replace (i + (j - i))%nat with j in * by lia.
  destruct (normalized_chain j (255 - j) ltac:(lia)) as (_ & _ & C).
  replace (j + (255 - j))%nat with 255%nat in * by lia.
  repeat split; apply leb_true; repeat split; try assumption; lia.
Qed.

(** ** The loop body from the power onwards preserves order *)

Lemma frank_one_pos : 0 < frank 1.
Proof.
  assert ((0 <? 1)%float = true) as Hlt by reflexivity.
  apply ltb_true in Hlt. change (frank 0) with 0 in Hlt. apply Hlt.
Qed.

Lemma clamp_top (x : float) :
  Prim2SF x = S754_nan \/ Prim2SF x = S754_infinity false ->
  frank (py_max 0.0 (py_min 1.0 x)) = frank 1.
Proof.
  pose proof frank_one_pos as H1. pose proof (ffin_rank 1 eq_refl) as Hb.
  pose proof INF_RANK_large as HI.
  intros [H | H].
  - rewrite clamp_nan by (unfold fnan; rewrite H; reflexivity). reflexivity.
  - destruct (clamp_frank x) as [-> _]; [unfold fnan; rewrite H; reflexivity|].
    unfold frank at 2. rewrite H. unfold rank, cond_Zopp. lia.
Qed.

Lemma clamp_bottom (x : float) :
  Prim2SF x = S754_infinity true -> frank (py_max 0.0 (py_min 1.0 x)) = 0.
Proof.
  pose proof frank_one_pos as H1. pose proof INF_RANK_large as HI.
  assert (H0 : 0 < 2 ^ 2098) by (apply pow2_pos; lia).
  intros H. destruct (clamp_frank x) as [-> _]; [unfold fnan; rewrite H; reflexivity|].
  unfold frank at 2. rewrite H. unfold rank, cond_Zopp. lia.
Qed.

Lemma clamp_range (x : float) : 0 <= frank (py_max 0.0 (py_min 1.0 x)) <= frank 1.
Proof.
  pose proof frank_one_pos as H1. destruct (fnan x) eqn:Hx.
  - rewrite clamp_nan by assumption. lia.
  - destruct (clamp_frank x Hx) as [-> _]. lia.
Qed.

(** Adding NaN or an infinity: the clamp of the sum is 1.0, except that
    minus infinity sends every [g] but plus infinity to 0.0. *)
Lemma add_nonfinite (k : float) :
  ffin k = false ->
  (forall g, fnan g = false -> frank (py_max 0.0 (py_min 1.0 (g + k))) = frank 1) \/
  (forall g, fnan g = false ->
     frank (py_max 0.0 (py_min 1.0 (g + k))) = if frank g =? INF_RANK then frank 1 else 0).
Proof.
  intros Hk. unfold ffin in Hk.
  pose proof INF_RANK_large as HI. assert (H0 : 0 < 2 ^ 2098) by (apply pow2_pos; lia).
  destruct (Prim2SF k) as [sk|[]| |sk mk ek] eqn:Ek; try discriminate.
  - right. intros g Hg. pose proof (Prim2SF_valid g) as Hv.
    pose proof (FloatAxioms.add_spec g k) as Hs. unfold SF64add in Hs. rewrite Ek in Hs.
    unfold fnan in Hg. change (frank g) with (rank (Prim2SF g)).
    set (one := frank 1).
    destruct (Prim2SF g) as [sg|[]| |sg mg eg]; try discriminate; simpl in Hs.
    + rewrite (clamp_bottom _ Hs). cbn [rank].
      destruct (Z.eqb_spec 0 INF_RANK); [lia | reflexivity].
    + rewrite (clamp_bottom _ Hs). cbn [rank cond_Zopp].
      destruct (Z.eqb_spec (- INF_RANK) INF_RANK); [lia | reflexivity].
    + rewrite (clamp_top _ (or_introl Hs)). cbn [rank cond_Zopp].
      rewrite Z.eqb_refl. reflexivity.
    + rewrite (clamp_bottom _ Hs). pose proof (rank_finite_bounds sg mg eg Hv) as Hb.
      cbn [rank].
      destruct (Z.eqb_spec (cond_Zopp sg (Zpos mg * 2 ^ (eg + 1074))) INF_RANK) as [E|];
        [destruct sg; unfold cond_Zopp in E; lia | reflexivity].
  - left. intros g Hg.
    pose proof (FloatAxioms.add_spec g k) as Hs. unfold SF64add in Hs. rewrite Ek in Hs.
    unfold fnan in Hg. apply clamp_top.
    destruct (Prim2SF g) as [sg|[]| |sg mg eg]; try discriminate; simpl in Hs; auto.
  - left. intros g Hg.
    pose proof (FloatAxioms.add_spec g k) as Hs. unfold SF64add in Hs. rewrite Ek in Hs.
    apply clamp_top. left. rewrite Hs. destruct (Prim2SF g); reflexivity.
Qed.

(** [val = gamma_corrected + brightness * 0.3] followed by the first clamp. *)
Lemma first_clamp_mono (k g1 g2 : float) :
  fnan g1 = false -> fnan g2 = false -> frank g1 <= frank g2 ->
  frank (py_max 0.0 (py_min 1.0 (g1 + k))) <= frank (py_max 0.0 (py_min 1.0 (g2 + k))).
Proof.
  intros H1 H2 Hle. destruct (ffin k) eqn:Hk.
  - destruct (add_mono k g1 g2 Hk H1 H2 Hle) as (Hs & Hn1 & Hn2).
    apply clamp_mono; assumption.
  - pose proof frank_one_pos as P1. pose proof (frank_bounds g2) as B2.
    destruct (add_nonfinite k Hk) as [Htop | Hsplit].
    + rewrite (Htop g1 H1), (Htop g2 H2). lia.
    + rewrite (Hsplit g1 H1), (Hsplit g2 H2).
      destruct (Z.eqb_spec (frank g1) INF_RANK), (Z.eqb_spec (frank g2) INF_RANK); lia.
Qed.

(** An infinite contrast sends negative differences to 0.0 and the others,
    zero included (its product is NaN), to 1.0. *)
Lemma contrast_infinite (c d : float) :
  Prim2SF c = S754_infinity false -> fnan d = false ->
  frank (py_max 0.0 (py_min 1.0 (d * c + 0.5))) = if frank d <? 0 then 0 else frank 1.
Proof.
  intros Hc Hd. pose proof (Prim2SF_valid d) as Hv.
  pose proof INF_RANK_large as HI. assert (H0 : 0 < 2 ^ 2098) by (apply pow2_pos; lia).
  pose proof (FloatAxioms.add_spec (d * c) 0.5) as Hs. unfold SF64add in Hs.
  rewrite FloatAxioms.mul_spec in Hs. unfold SF64mul in Hs. rewrite Hc in Hs.
  change (Prim2SF 0.5) with (S754_finite false 4503599627370496 (-53)) in Hs.
  unfold fnan in Hd. change (frank d) with (rank (Prim2SF d)).
  set (one := frank 1).
  destruct (Prim2SF d) as [sd|sd| |sd md ed]; try discriminate; simpl in Hs.
  - rewrite (clamp_top _ (or_introl Hs)). reflexivity.
  - destruct sd; simpl in Hs; cbn [rank cond_Zopp].
    + rewrite (clamp_bottom _ Hs). destruct (Z.ltb_spec (- INF_RANK) 0); [reflexivity | lia].
    + rewrite (clamp_top _ (or_intror Hs)). destruct (Z.ltb_spec INF_RANK 0); [lia | reflexivity].
  - pose proof (rank_finite_bounds sd md ed Hv) as Hb.
    destruct sd; simpl in Hs; cbn [rank cond_Zopp].
    + rewrite (clamp_bottom _ Hs).
      destruct (Z.ltb_spec (- (Zpos md * 2 ^ (ed + 1074))) 0); [reflexivity | lia].
    + rewrite (clamp_top _ (or_intror Hs)).
      destruct (Z.ltb_spec (Zpos md * 2 ^ (ed + 1074)) 0); [lia | reflexivity].
Qed.

(** [val = (val - 0.5) * contrast + 0.5] followed by the second clamp, from
    the difference onwards. *)
Lemma contrast_mono (c d1 d2 : float) :
  (0 <? c)%float = true ->
  fnan d1 = false -> fnan d2 = false -> frank d1 <= frank d2 ->
  frank (py_max 0.0 (py_min 1.0 (d1 * c + 0.5))) <=
  frank (py_max 0.0 (py_min 1.0 (d2 * c + 0.5))).
Proof.
  intros Hc H1 H2 Hle. apply ltb_true in Hc as (_ & Hcn & Hcp). change (frank 0) with 0 in Hcp.
  pose proof INF_RANK_large as HI. assert (H0 : 0 < 2 ^ 2098) by (apply pow2_pos; lia).
  destruct (float_cases c Hcn) as [Fc | [[_ Rc] | [Ec _]]]; [| lia |].
  - destruct (mul_mono c d1 d2 Fc Hcp H1 H2 Hle) as (Hm & Hn1 & Hn2).
    destruct (add_mono 0.5 _ _ eq_refl Hn1 Hn2 Hm) as (Ha & Hn1' & Hn2').
    apply clamp_mono; assumption.
  - rewrite (contrast_infinite c d1 Ec H1), (contrast_infinite c d2 Ec H2).
    pose proof frank_one_pos.
    destruct (Z.ltb_spec (frank d1) 0), (Z.ltb_spec (frank d2) 0); lia.
Qed.

(** The loop body after the power, as one expression of [gamma_corrected]. *)
Lemma shade_mono (brightness contrast g1 g2 : float) :
  (0 <? contrast)%float = true ->
  fnan g1 = false -> fnan g2 = false -> frank g1 <= frank g2 ->
  frank (py_max 0.0 (py_min 1.0
           ((py_max 0.0 (py_min 1.0 (g1 + brightness * 0.3)) - 0.5) * contrast + 0.5))) <=
  frank (py_max 0.0 (py_min 1.0
           ((py_max 0.0 (py_min 1.0 (g2 + brightness * 0.3)) - 0.5) * contrast + 0.5))).
Proof.
  intros Hc H1 H2 Hle.
  pose proof (first_clamp_mono (brightness * 0.3) g1 g2 H1 H2 Hle) as Hf.
  destruct (sub_mono 0.5 _ _ eq_refl
              (ffin_nan _ (clamp_ffin (g1 + brightness * 0.3)))
              (ffin_nan _ (clamp_ffin (g2 + brightness * 0.3))) Hf) as (Hd & Hn1 & Hn2).
  apply contrast_mono; assumption.
Qed.

Section Monotone.
Variable float_pow : float -> float -> result float.

Lemma ramp_val_16bit_mono (gamma brightness contrast : float) (i j : nat) (vi vj : Z) :
  pow_monotone float_pow ->
  (0.1 <=? gamma)%float = true -> (0 <? contrast)%float = true ->
  (i <= j)%nat -> (j < GAMMA_RAMP_SIZE)%nat ->
  ramp_val_16bit float_pow gamma brightness contrast i = Ok vi ->
  ramp_val_16bit float_pow gamma brightness contrast j = Ok vj ->
  vi <= vj.
Proof.
  intros Hpow Hg Hc Hij Hj Hi Hvj.
  unfold ramp_val_16bit, ramp_final, py_truediv in Hi, Hvj.
  change (255 =? 0)%float with false in Hi, Hvj.
  rewrite gamma_floor_nonzero in Hi, Hvj. simpl rbind in Hi, Hvj.
  assert (He : (0 <=? 1.0 / py_max gamma 0.1)%float = true).
  { apply expo_nonneg. unfold py_max. destruct (gamma <? 0.1)%float; [reflexivity | assumption]. }
  destruct (normalized_mono i j Hij Hj) as (N0 & N1 & N2). unfold normalized_of in N0, N1, N2.
  destruct (float_pow (float_of_int (Z.of_nat i) / 255.0) (1.0 / py_max gamma 0.1)) as [gi|]
    eqn:Pi; [|discriminate].
  destruct (float_pow (float_of_int (Z.of_nat j) / 255.0) (1.0 / py_max gamma 0.1)) as [gj|]
    eqn:Pj; [|discriminate].
  simpl rbind in Hi, Hvj.
  pose proof (Hpow _ _ _ _ _ N0 N1 N2 He Pi Pj) as Hle.
  apply leb_true in Hle as (Hni & Hnj & Hle).
  pose proof (shade_mono brightness contrast gi gj Hc Hni Hnj Hle) as Hs.
  destruct (scale_mono _ _ Hs) as (u & v & Hu & Hv & Huv).
  rewrite Hu in Hi. rewrite Hv in Hvj. congruence.
Qed.

End Monotone.

Section MonotoneTable.
Variable float_pow : float -> float -> result float.

(** X1. With [gamma >= 0.1] and [contrast > 0] (brightness is any float, NaN
    and the infinities included) and a power that is monotone in its base on
    the unit interval, the table handed to the driver never decreases with
    the index, on each of its three channels; when the power raises, nothing
    is handed to the driver. *)
Theorem ramp_table_nondecreasing (gamma brightness contrast : float) (w : World) :
  pow_monotone float_pow ->
  (0.1 <=? gamma)%float = true -> (0 <? contrast)%float = true ->
  ramp_wf (screen w) ->
  match fst (set_gamma_ramp_all_screens float_pow gamma brightness contrast w) with
  | Ok ok =>
      exists buf ok0 t,
        events_of (set_gamma_ramp_all_screens float_pow gamma brightness contrast) w =
          [GetDeviceGammaRamp buf ok0; SetDeviceGammaRamp buf t ok] /\
        nondecreasing (red t) /\ nondecreasing (green t) /\ nondecreasing (blue t)
  | Raise e =>
      (exists buf ok0,
         events_of (set_gamma_ramp_all_screens float_pow gamma brightness contrast) w =
           [GetDeviceGammaRamp buf ok0]) /\
      exists i, (i < GAMMA_RAMP_SIZE)%nat /\
                ramp_val_16bit float_pow gamma brightness contrast i = Raise e
  end.
Proof.
  intros Hpow Hg Hc Hwf.
  pose proof (all_screens_events float_pow gamma brightness contrast w Hwf) as H.
  destruct (fst _) as [ok|e]; [|exact H].
  destruct H as (buf & ok0 & t & Hev & (Lr & Lg & Lb) & Hin).
  exists buf, ok0, t. split; [assumption|].
  assert (Hentry : forall i, (i < GAMMA_RAMP_SIZE)%nat ->
            exists v, ramp_val_16bit float_pow gamma brightness contrast i = Ok v /\
                      red t !! i = Some v /\ green t !! i = Some v /\ blue t !! i = Some v).
  { intros i Hi. destruct (Hin i Hi) as (v & Hv & Hr & Hgr & Hb).
    destruct (ramp_val_16bit_cases float_pow gamma brightness contrast i)
      as [(v' & Hv' & Hrange) | (n & x & e & _ & _ & _ & He)]; [|congruence].
    assert (v' = v) by congruence. subst v'.
    rewrite USHORT_small in Hr, Hgr, Hb by assumption. eauto. }
  assert (Hmono : forall i j vi vj, (i <= j)%nat -> (j < GAMMA_RAMP_SIZE)%nat ->
            ramp_val_16bit float_pow gamma brightness contrast i = Ok vi ->
            ramp_val_16bit float_pow gamma brightness contrast j = Ok vj -> vi <= vj).
  { intros i j vi vj. apply ramp_val_16bit_mono; assumption. }
  repeat split; intros i j vi vj Hij Hi Hj;
    pose proof (lookup_lt_Some _ _ _ Hj) as Hlt;
    rewrite ?Lr, ?Lg, ?Lb in Hlt;
    destruct (Hentry i ltac:(lia)) as (ui & Ui & Ri & Gi & Bi);
    destruct (Hentry j Hlt) as (uj & Uj & Rj & Gj & Bj);
    pose proof (Hmono i j ui uj Hij Hlt Ui Uj); congruence.
Qed.

End MonotoneTable.

Lemma pow_unit_exponent_monotone : pow_monotone pow_unit_exponent.
Proof.
  intros x y e p q _ Hxy _ _. unfold pow_unit_exponent.
  destruct (e =? 1)%float; [|discriminate]. intros [= <-] [= <-]. exact Hxy.
Qed.

(** X1, witness: gamma 1.0, brightness 0.2, contrast 1.5 on the linear display. *)
Lemma ramp_table_nondecreasing_witness :
  exists buf ok0 t,
    events_of (set_gamma_ramp_all_screens pow_unit_exponent 1.0 0.2 1.5)
      (boot (fun _ => true) Absent) =
      [GetDeviceGammaRamp buf ok0; SetDeviceGammaRamp buf t true] /\
    nondecreasing (red t) /\ nondecreasing (green t) /\ nondecreasing (blue t).
Proof.
  exact (ramp_table_nondecreasing pow_unit_exponent 1.0 0.2 1.5 (boot (fun _ => true) Absent)
           pow_unit_exponent_monotone eq_refl eq_refl linear_ramp_wf).
Defined.

(** ** Brightness *)

Lemma Prim2SF_inj (x y : float) : Prim2SF x = Prim2SF y -> x = y.
Proof.
  intros H. rewrite <- (FloatAxioms.SF2Prim_Prim2SF x), <- (FloatAxioms.SF2Prim_Prim2SF y), H.
  reflexivity.
Qed.

Lemma SFadd_comm (x y : spec_float) : SFadd prec emax x y = SFadd prec emax y x.
Proof.
  destruct x as [[]|[]| |sx mx ex], y as [[]|[]| |sy my ey]; try reflexivity.
  unfold SFadd. rewrite (Z.min_comm ey ex), Z.add_comm. reflexivity.
Qed.

Lemma float_add_comm (x y : float) : (x + y = y + x)%float.
Proof.
  apply Prim2SF_inj. rewrite !FloatAxioms.add_spec. apply SFadd_comm.
Qed.

(** The first clamp as a function of the shift [brightness * 0.3]. *)
Lemma shift_clamp_mono (g k1 k2 : float) :
  fnan k1 = false -> fnan k2 = false -> frank k1 <= frank k2 ->
  frank (py_max 0.0 (py_min 1.0 (g + k1))) <= frank (py_max 0.0 (py_min 1.0 (g + k2))).
Proof.
  intros H1 H2 Hle. rewrite (float_add_comm g k1), (float_add_comm g k2).
  apply first_clamp_mono; assumption.
Qed.

Lemma shade_mono_brightness (b1 b2 contrast g : float) :
  (b1 <=? b2)%float = true -> (0 <? contrast)%float = true ->
  frank (py_max 0.0 (py_min 1.0
           ((py_max 0.0 (py_min 1.0 (g + b1 * 0.3)) - 0.5) * contrast + 0.5))) <=
  frank (py_max 0.0 (py_min 1.0
           ((py_max 0.0 (py_min 1.0 (g + b2 * 0.3)) - 0.5) * contrast + 0.5))).
Proof.
  intros Hb Hc. apply leb_true in Hb as (N1 & N2 & Hle).
  destruct (mul_mono 0.3 b1 b2 eq_refl ltac:(vm_compute; reflexivity) N1 N2 Hle)
    as (Hk & Nk1 & Nk2).
  pose proof (shift_clamp_mono g _ _ Nk1 Nk2 Hk) as Hf.
  destruct (sub_mono 0.5 _ _ eq_refl
              (ffin_nan _ (clamp_ffin (g + b1 * 0.3)))
              (ffin_nan _ (clamp_ffin (g + b2 * 0.3))) Hf) as (Hd & Hn1 & Hn2).
  apply contrast_mono; assumption.
Qed.

Section Entries.
Variable float_pow : float -> float -> result float.

Lemma ramp_val_16bit_brightness (gamma b1 b2 contrast : float) (i : nat) (v1 v2 : Z) :
  (b1 <=? b2)%float = true -> (0 <? contrast)%float = true ->
  ramp_val_16bit float_pow gamma b1 contrast i = Ok v1 ->
  ramp_val_16bit float_pow gamma b2 contrast i = Ok v2 ->
  v1 <= v2.
Proof.
  intros Hb Hc H1 H2.
  unfold ramp_val_16bit, ramp_final, py_truediv in H1, H2.
  change (255 =? 0)%float with false in H1, H2.
  rewrite gamma_floor_nonzero in H1, H2. simpl rbind in H1, H2.
  destruct (float_pow (float_of_int (Z.of_nat i) / 255.0) (1.0 / py_max gamma 0.1)) as [g|];
    [|discriminate].
  simpl rbind in H1, H2.
  pose proof (shade_mono_brightness b1 b2 contrast g Hb Hc) as Hs.
  destruct (scale_mono _ _ Hs) as (u & v & Hu & Hv & Huv).
  rewrite Hu in H1. rewrite Hv in H2. congruence.
Qed.

(** The table of one successful call, entry by entry. *)
Lemma table_of_call (gamma brightness contrast : float) (w : World) (ok : bool) :
  ramp_wf (screen w) ->
  fst (set_gamma_ramp_all_screens float_pow gamma brightness contrast w) = Ok ok ->
  exists buf ok0 t,
    events_of (set_gamma_ramp_all_screens float_pow gamma brightness contrast) w =
      [GetDeviceGammaRamp buf ok0; SetDeviceGammaRamp buf t ok] /\
    ramp_wf t /\
    forall i, (i < GAMMA_RAMP_SIZE)%nat ->
      exists v, ramp_val_16bit float_pow gamma brightness contrast i = Ok v /\
                red t !! i = Some v /\ green t !! i = Some v /\ blue t !! i = Some v.
Proof.
  intros Hwf Hok.
  pose proof (all_screens_events float_pow gamma brightness contrast w Hwf) as H.
  rewrite Hok in H. destruct H as (buf & ok0 & t & Hev & Hwft & Hin).
  exists buf, ok0, t. split; [assumption|]. split; [assumption|].
  intros i Hi. destruct (Hin i Hi) as (v & Hv & Hr & Hgr & Hb).
  destruct (ramp_val_16bit_cases float_pow gamma brightness contrast i)
    as [(v' & Hv' & Hrange) | (n & x & e & _ & _ & _ & He)]; [|congruence].
  assert (v' = v) by congruence. subst v'.
  rewrite USHORT_small in Hr, Hgr, Hb by assumption. eauto.
Qed.

(** X14. Raising the brightness never darkens a level: for [b1 <= b2], the
    same gamma and a contrast above 0, each entry of the table written with
    [b2] is at least the entry of the table written with [b1], whatever the
    power function returns. *)
Theorem brightness_never_darkens (gamma b1 b2 contrast : float) (w1 w2 : World)
    (ok1 ok2 : bool) :
  (b1 <=? b2)%float = true -> (0 <? contrast)%float = true ->
  ramp_wf (screen w1) -> ramp_wf (screen w2) ->
  fst (set_gamma_ramp_all_screens float_pow gamma b1 contrast w1) = Ok ok1 ->
  fst (set_gamma_ramp_all_screens float_pow gamma b2 contrast w2) = Ok ok2 ->
  exists t1 t2,
    written_tables (events_of (set_gamma_ramp_all_screens float_pow gamma b1 contrast) w1) = [t1] /\
    written_tables (events_of (set_gamma_ramp_all_screens float_pow gamma b2 contrast) w2) = [t2] /\
    forall i v1 v2, red t1 !! i = Some v1 -> red t2 !! i = Some v2 ->
      v1 <= v2 /\ green t1 !! i = Some v1 /\ blue t1 !! i = Some v1 /\
      green t2 !! i = Some v2 /\ blue t2 !! i = Some v2.
Proof.
  intros Hb Hc Hwf1 Hwf2 Hok1 Hok2.
  destruct (table_of_call gamma b1 contrast w1 ok1 Hwf1 Hok1)
    as (buf1 & ok01 & t1 & Hev1 & (L1 & _) & Hin1).
  destruct (table_of_call gamma b2 contrast w2 ok2 Hwf2 Hok2)
    as (buf2 & ok02 & t2 & Hev2 & _ & Hin2).
  exists t1, t2. rewrite Hev1, Hev2. split; [reflexivity|]. split; [reflexivity|].
  intros i v1 v2 Hr1 Hr2.
  pose proof (lookup_lt_Some _ _ _ Hr1) as Hlt. rewrite L1 in Hlt.
  destruct (Hin1 i Hlt) as (u1 & U1 & R1 & G1 & B1).
  destruct (Hin2 i Hlt) as (u2 & U2 & R2 & G2 & B2).
  assert (u1 = v1) by congruence. assert (u2 = v2) by congruence. subst u1 u2.
  split; [|auto]. eapply ramp_val_16bit_brightness; eassumption.
Qed.

End Entries.

(** ** Parameters outside the sliders' ranges *)

Lemma for_each_ext {A} (l : list A) (f g : A -> M unit) :
  (forall a w, f a w = g a w) -> forall w, for_each l f w = for_each l g w.
Proof.
  intros H. induction l as [|a l IH]; intros w; [reflexivity|].
  cbn [for_each]. unfold bind. rewrite H.
  destruct (g a w) as [[u|e] w']; [apply IH | reflexivity].
Qed.

Lemma bind_ext {A B} (m : M A) (k1 k2 : A -> M B) (w : World) :
  (forall a w', k1 a w' = k2 a w') -> bind m k1 w = bind m k2 w.
Proof. intros H. unfold bind. destruct (m w) as [[a|e] w']; [apply H | reflexivity]. Qed.

Lemma bind_ext_l {A B} (m1 m2 : M A) (k : A -> M B) (w : World) :
  (forall w', m1 w' = m2 w') -> bind m1 k w = bind m2 k w.
Proof. intros H. unfold bind. rewrite H. reflexivity. Qed.

(** NaN times anything, plus 0.5, clamped: 1.0. *)
Lemma nan_contrast_clamp (d contrast : float) :
  fnan contrast = true -> py_max 0.0 (py_min 1.0 (d * contrast + 0.5)) = 1%float.
Proof.
  intros Hc. apply clamp_nan. unfold fnan in *.
  rewrite FloatAxioms.add_spec, FloatAxioms.mul_spec.
  destruct (Prim2SF contrast); try discriminate.
  destruct (Prim2SF d); reflexivity.
Qed.

(** A clamped value less one half is finite. *)
Lemma centred_finite (x : float) : ffin (py_max 0.0 (py_min 1.0 x) - 0.5) = true.
Proof.
  pose proof (clamp_range x) as [H0 H1].
  pose proof (ffin_nan _ (clamp_ffin x)) as Hn.
  destruct (sub_mono 0.5 0 _ eq_refl eq_refl Hn H0) as (Hlo & _ & Hnd).
  destruct (sub_mono 0.5 _ 1 eq_refl Hn eq_refl H1) as (Hhi & _ & _).
  apply ffin_of_rank; [assumption|].
  pose proof (ffin_rank (0 - 0.5) eq_refl). pose proof (ffin_rank (1 - 0.5) eq_refl).
  pose proof INF_RANK_large. lia.
Qed.

(** A zero contrast leaves one half, whatever the clamped value. *)
Lemma zero_contrast_clamp (x contrast : float) :
  (contrast =? 0)%float = true ->
  (py_max 0.0 (py_min 1.0 ((py_max 0.0 (py_min 1.0 x) - 0.5) * contrast + 0.5)) = 0.5)%float.
Proof.
  intros Hc. rewrite FloatAxioms.eqb_spec in Hc. change (Prim2SF 0) with (S754_zero false) in Hc.
  pose proof (centred_finite x) as Hd. unfold ffin in Hd.
  set (d := (py_max 0.0 (py_min 1.0 x) - 0.5)%float) in *.
  assert (Hv : (d * contrast + 0.5 = 0.5)%float).
  { apply Prim2SF_inj. rewrite FloatAxioms.add_spec, FloatAxioms.mul_spec.
    change (Prim2SF 0.5) with (S754_finite false 4503599627370496 (-53)).
    destruct (Prim2SF contrast) as [sc|sc| |sc mc ec]; try discriminate;
      try (destruct sc; discriminate).
    destruct (Prim2SF d) as [sd|sd| |sd md ed]; try discriminate; reflexivity. }
  rewrite Hv. reflexivity.
Qed.

Section Edges.
Variable float_pow : float -> float -> result float.

Lemma ramp_val_16bit_floor (gamma brightness contrast : float) (i : nat) :
  (gamma <? 0.1)%float = true ->
  ramp_val_16bit float_pow gamma brightness contrast i =
  ramp_val_16bit float_pow 0.1 brightness contrast i.
Proof.
  intros Hg. unfold ramp_val_16bit, ramp_final.
  replace (py_max gamma 0.1) with (py_max 0.1 0.1)
    by (unfold py_max; rewrite Hg; reflexivity).
  reflexivity.
Qed.

(** X11. The gamma floor: for every gamma below 0.1, zero and the negative
    values included, the exponent is [1.0 / 0.1 = 10.0], no division by zero
    can happen, and the call does exactly what it does for gamma = 0.1. *)
Theorem gamma_below_floor_is_floor (gamma brightness contrast : float) (w : World) :
  (gamma <? 0.1)%float = true ->
  py_truediv 1.0 (py_max gamma 0.1) = Ok 10%float /\
  set_gamma_ramp_all_screens float_pow gamma brightness contrast w =
  set_gamma_ramp_all_screens float_pow 0.1 brightness contrast w.
Proof.
  intros Hg. split.
  - unfold py_max. rewrite Hg. reflexivity.
  - unfold set_gamma_ramp_all_screens.
    apply bind_ext. intros r w1. apply bind_ext_l. intros w2.
    apply for_each_ext. intros i w3.
    rewrite (ramp_val_16bit_floor gamma brightness contrast i Hg). reflexivity.
Qed.

Lemma ramp_val_16bit_nan_contrast (gamma brightness contrast : float) (i : nat) (v : Z) :
  fnan contrast = true ->
  ramp_val_16bit float_pow gamma brightness contrast i = Ok v -> v = 65535.
Proof.
  intros Hc H. unfold ramp_val_16bit, ramp_final, py_truediv in H.
  change (255 =? 0)%float with false in H. rewrite gamma_floor_nonzero in H. simpl rbind in H.
  destruct (float_pow _ _) as [g|]; [|discriminate]. simpl rbind in H.
  rewrite nan_contrast_clamp in H by assumption.
  vm_compute in H. congruence.
Qed.

Lemma ramp_val_16bit_zero_contrast (gamma brightness contrast : float) (i : nat) (v : Z) :
  (contrast =? 0)%float = true ->
  ramp_val_16bit float_pow gamma brightness contrast i = Ok v -> v = 32767.
Proof.
  intros Hc H. unfold ramp_val_16bit, ramp_final, py_truediv in H.
  change (255 =? 0)%float with false in H. rewrite gamma_floor_nonzero in H. simpl rbind in H.
  destruct (float_pow _ _) as [g|]; [|discriminate]. simpl rbind in H.
  rewrite zero_contrast_clamp in H by assumption.
  vm_compute in H. congruence.
Qed.

(** X12. A NaN contrast (config.json may hold one) turns every level white:
    [min(1.0, NaN)] is 1.0 as the code orders its arguments, so a call that
    reaches the driver hands it a table whose 768 entries are all 65535. *)
Theorem nan_contrast_whitens (gamma brightness contrast : float) (w : World) (ok : bool) :
  fnan contrast = true -> ramp_wf (screen w) ->
  fst (set_gamma_ramp_all_screens float_pow gamma brightness contrast w) = Ok ok ->
  exists buf ok0 t,
    events_of (set_gamma_ramp_all_screens float_pow gamma brightness contrast) w =
      [GetDeviceGammaRamp buf ok0; SetDeviceGammaRamp buf t ok] /\
    forall i, (i < GAMMA_RAMP_SIZE)%nat ->
      red t !! i = Some 65535 /\ green t !! i = Some 65535 /\ blue t !! i = Some 65535.
Proof.
  intros Hc Hwf Hok.
  destruct (table_of_call float_pow gamma brightness contrast w ok Hwf Hok)
    as (buf & ok0 & t & Hev & _ & Hin).
  exists buf, ok0, t. split; [assumption|]. intros i Hi.
  destruct (Hin i Hi) as (v & Hv & Hr & Hg & Hb).
  rewrite (ramp_val_16bit_nan_contrast gamma brightness contrast i v Hc Hv) in *. auto.
Qed.

(** X13. A zero contrast flattens the ramp: whatever gamma and brightness are,
    a call that reaches the driver hands it a table whose entries are all
    32767, [int(0.5 * 65535)]. *)
Theorem zero_contrast_flattens (gamma brightness contrast : float) (w : World) (ok : bool) :
  (contrast =? 0)%float = true -> ramp_wf (screen w) ->
  fst (set_gamma_ramp_all_screens float_pow gamma brightness contrast w) = Ok ok ->
  exists buf ok0 t,
    events_of (set_gamma_ramp_all_screens float_pow gamma brightness contrast) w =
      [GetDeviceGammaRamp buf ok0; SetDeviceGammaRamp buf t ok] /\
    forall i, (i < GAMMA_RAMP_SIZE)%nat ->
      red t !! i = Some 32767 /\ green t !! i = Some 32767 /\ blue t !! i = Some 32767.
Proof.
  intros Hc Hwf Hok.
  destruct (table_of_call float_pow gamma brightness contrast w ok Hwf Hok)
    as (buf & ok0 & t & Hev & _ & Hin).
  exists buf, ok0, t. split; [assumption|]. intros i Hi.
  destruct (Hin i Hi) as (v & Hv & Hr & Hg & Hb).
  rewrite (ramp_val_16bit_zero_contrast gamma brightness contrast i v Hc Hv) in *. auto.
Qed.

End Edges.

(** * Relations the callbacks respect *)

Section Respects.
Variable float_pow : float -> float -> result float.
Variable R : World -> World -> Prop.
Hypothesis R_refl : forall w, R w w.
Hypothesis R_trans : forall w1 w2 w3, R w1 w2 -> R w2 w3 -> R w1 w3.

Lemma respects_ret {A} (a : A) : respects R (ret a).
Proof. intros w. apply R_refl. Qed.

Lemma respects_raise {A} (e : exn) : respects R (@raise A e).
Proof. intros w. apply R_refl. Qed.

Lemma respects_lift {A} (r : result A) : respects R (lift r).
Proof. intros w. apply R_refl. Qed.

Lemma respects_getattr {A} (attr : Gui -> option A) : respects R (getattr attr).
Proof. intros w. unfold getattr. destruct (attr (self w)); apply R_refl. Qed.

Lemma respects_hasattr {A} (attr : Gui -> option A) : respects R (hasattr attr).
Proof. intros w. apply R_refl. Qed.

Lemma respects_bind {A B} (m : M A) (k : A -> M B) :
  respects R m -> (forall a, respects R (k a)) -> respects R (bind m k).
Proof.
  intros Hm Hk w. unfold bind. specialize (Hm w).
  destruct (m w) as [[a|e] w']; simpl in *; [|assumption].
  eapply R_trans; [eassumption | apply Hk].
Qed.

Lemma respects_try_except {A} (m : M A) (h : exn -> M A) :
  respects R m -> (forall e, respects R (h e)) -> respects R (try_except m h).
Proof.
  intros Hm Hh w. unfold try_except. specialize (Hm w).
  destruct (m w) as [[a|e] w']; simpl in *; [assumption|].
  eapply R_trans; [eassumption | apply Hh].
Qed.

Lemma respects_try_finally {A} (m : M A) (c : M unit) :
  respects R m -> respects R c -> respects R (try_finally m c).
Proof.
  intros Hm Hc w. unfold try_finally. specialize (Hm w).
  destruct (m w) as [r w']. specialize (Hc w').
  destruct (c w') as [[u|e] w'']; simpl in *; eapply R_trans; eassumption.
Qed.

Lemma respects_if {A} (b : bool) (m1 m2 : M A) :
  respects R m1 -> respects R m2 -> respects R (if b then m1 else m2).
Proof. destruct b; auto. Qed.

Lemma respects_for_each {A} (l : list A) (body : A -> M unit) :
  (forall a, respects R (body a)) -> respects R (for_each l body).
Proof.
  intros Hb. induction l as [|a l IH]; simpl.
  - apply respects_ret.
  - apply respects_bind; auto.
Qed.

Lemma respects_modify (f : World -> World) :
  (forall w, R w (f w)) -> respects R (modify f).
Proof. intros Hf w. apply Hf. Qed.

(** ** The driver calls: they change the heap, the trace and the display *)

Hypothesis R_heap : forall w h, R w (set_heap h w).
Hypothesis R_trace : forall w t, R w (set_trace t w).
Hypothesis R_screen : forall w s, R w (set_screen s w).

Lemma R_driver (w : World) (s : GammaRamp) (h : gmap ref GammaRamp) (t : list event) :
  R w (mkWorld s (gdi_ok w) h (atexit_handlers w) (config_json w) (disk_ok w) t (self w)).
Proof.
  apply R_trans with (set_screen s w); [apply R_screen|].
  apply R_trans with (set_heap h (set_screen s w)); [apply R_heap|].
  apply (R_trace (set_heap h (set_screen s w)) t).
Qed.

Lemma respects_emit (e : event) : respects R (emit e).
Proof. intros w. apply R_trace. Qed.

Lemma respects_get_gamma_ramp : respects R get_gamma_ramp.
Proof. intros w. rewrite get_gamma_ramp_spec. apply R_driver. Qed.

Lemma respects_set_gamma_ramp (r : ref) : respects R (set_gamma_ramp r).
Proof.
  intros w. destruct (heap w !! r) as [t|] eqn:Hr.
  - rewrite (set_gamma_ramp_spec r w t Hr). apply R_driver.
  - rewrite set_gamma_ramp_unallocated by assumption. apply R_refl.
Qed.

Lemma respects_set_gamma_ramp_all_screens (gamma brightness contrast : float) :
  respects R (set_gamma_ramp_all_screens float_pow gamma brightness contrast).
Proof.
  intros w.
  destruct (all_screens_spec float_pow gamma brightness contrast w) as (t & res & -> & _).
  apply R_driver.
Qed.

Lemma respects_load_config : respects R load_config.
Proof.
  intros w. unfold load_config. destruct (config_json w); try apply R_refl. apply R_trace.
Qed.

(** ** Methods that assign attributes *)

Hypothesis R_status : forall w v, R w (on_self (set_status (Some v)) w).

Lemma respects_status_config (t : status_text) : respects R (status_config t).
Proof.
  intros w. rewrite status_config_spec. simpl.
  destruct (status (self w)); [apply R_status | apply R_refl].
Qed.

Lemma respects_restore_gamma : respects R _restore_gamma.
Proof.
  unfold _restore_gamma. apply respects_try_except; [|intros; apply respects_ret].
  apply respects_bind; [apply respects_getattr|]. intros r.
  apply respects_bind; [apply respects_set_gamma_ramp | intros; apply respects_ret].
Qed.

Lemma respects_update_gamma : respects R (update_gamma float_pow).
Proof.
  unfold update_gamma. apply respects_try_except; [|intros; apply respects_status_config].
  repeat (apply respects_bind; [apply respects_getattr|]; intros ?).
  apply respects_bind; [apply respects_set_gamma_ramp_all_screens|].
  intros. apply respects_status_config.
Qed.

Hypothesis R_gamma_var : forall w v, R w (on_self (set_gamma_var (Some v)) w).
Hypothesis R_brightness_var : forall w v, R w (on_self (set_brightness_var (Some v)) w).
Hypothesis R_contrast_var : forall w v, R w (on_self (set_contrast_var (Some v)) w).

Lemma respects_var_set (s : slider) (v : float) :
  respects R (var_set (slider_var s) (slider_set s) v).
Proof.
  unfold var_set. apply respects_bind; [apply respects_getattr|]. intros _.
  apply respects_modify. intros w. destruct s; simpl; auto.
Qed.

Lemma respects_apply_config : respects R apply_config.
Proof.
  unfold apply_config.
  repeat first [ simple apply respects_bind | simple apply respects_getattr | intros ? ].
  - apply (respects_var_set GammaSlider).
  - apply (respects_var_set BrightnessSlider).
  - apply (respects_var_set ContrastSlider).
Qed.

Lemma respects_load_from_config : respects R (load_from_config float_pow).
Proof.
  unfold load_from_config.
  repeat first [ simple apply respects_bind | simple apply respects_getattr | intros ?
               | simple apply respects_apply_config | simple apply respects_update_gamma
               | simple apply respects_status_config ].
Qed.

Lemma respects_reset : respects R (reset float_pow).
Proof.
  unfold reset.
  repeat first [ simple apply respects_bind | simple apply respects_getattr | intros ?
               | simple apply respects_update_gamma | simple apply respects_status_config
               | simple apply (respects_var_set GammaSlider)
               | simple apply (respects_var_set BrightnessSlider)
               | simple apply (respects_var_set ContrastSlider) ].
Qed.

Lemma respects_adjust_value (s : slider) (delta lo hi : float) :
  respects R (adjust_value float_pow s delta lo hi).
Proof.
  unfold adjust_value.
  repeat first [ simple apply respects_bind | simple apply respects_getattr | intros ?
               | simple apply respects_update_gamma | simple apply respects_var_set ].
Qed.

Lemma respects_drag (s : slider) (v : float) :
  respects R (handle float_pow (Drag s v)).
Proof.
  simpl. apply respects_bind; [apply respects_var_set | intros; apply respects_update_gamma].
Qed.

(** ** The window and the tray icon *)

Hypothesis R_icon : forall w t, R w (on_self (set_icon (Some t)) w).
Hypothesis R_window : forall w win v,
  root (self w) = Some win ->
  R w (on_self (set_root (Some (mkWindow v (quit_requested win)))) w).

Lemma respects_show_window : respects R show_window.
Proof.
  intros w. unfold show_window. destruct (root (self w)) as [win|] eqn:Hr.
  - rewrite (bind_getattr root _ w win Hr). apply R_window, Hr.
  - unfold bind, getattr. rewrite Hr. apply R_refl.
Qed.

Lemma respects_on_closing : respects R on_closing.
Proof.
  intros w. unfold on_closing.
  destruct (root (self w)) as [win|] eqn:Hr.
  - rewrite (bind_getattr root _ w win Hr), bind_modify.
    eapply R_trans; [apply (R_window w win false Hr)|].
    match goal with |- R ?w1 (snd (?m ?w1)) => generalize w1; change (respects R m) end.
    apply respects_bind; [apply respects_hasattr|]. intros has.
    apply respects_if; [|apply respects_ret].
    apply respects_bind; [apply respects_getattr|]. intros t.
    apply respects_bind; [apply respects_modify; intros; apply R_icon|].
    intros _. apply respects_emit.
  - unfold bind at 1, getattr at 1. rewrite Hr. apply R_refl.
Qed.

(** ** Saving, and quitting *)

Hypothesis R_config : forall w v, R w (on_self (set_config (Some v)) w).
Hypothesis R_file : forall w f, R w (set_config_json f w).

Lemma respects_save_config : respects R save_config.
Proof.
  unfold save_config. apply respects_try_except; [|intros; apply respects_emit].
  intros w. destruct (disk_ok w); [|apply R_refl].
  eapply R_trans; [apply (R_file w Corrupt)|].
  match goal with |- R ?w1 (snd (?m ?w1)) => generalize w1; change (respects R m) end.
  apply respects_bind; [apply respects_getattr|]. intros c.
  apply respects_bind; [apply respects_modify; intros; apply R_file|].
  intros _. apply respects_emit.
Qed.

Lemma respects_save_to_config : respects R save_to_config.
Proof.
  unfold save_to_config.
  repeat (apply respects_bind; [apply respects_getattr|]; intros ?).
  apply respects_bind; [apply respects_modify; intros; apply R_config|]. intros _.
  apply respects_bind; [apply respects_save_config|]. intros _.
  apply respects_status_config.
Qed.

Hypothesis R_quit : forall w win,
  root (self w) = Some win ->
  R w (on_self (set_root (Some (mkWindow (visible win) true))) w).

Lemma respects_quit_app : respects R quit_app.
Proof.
  unfold quit_app.
  apply respects_bind; [apply respects_save_to_config|]. intros _.
  apply respects_bind; [apply respects_restore_gamma|]. intros _.
  apply respects_bind; [apply respects_hasattr|]. intros has.
  apply respects_bind.
  - apply respects_if; [|apply respects_ret].
    apply respects_bind; [apply respects_getattr|]. intros t.
    apply respects_bind; [apply respects_modify; intros; apply R_icon|].
    intros _. apply respects_emit.
  - intros _ w. destruct (root (self w)) as [win|] eqn:Hr.
    + rewrite (bind_getattr root _ w win Hr), bind_modify.
      eapply R_trans; [apply (R_quit w win Hr)|]. apply R_trace.
    + unfold bind at 1, getattr at 1. rewrite Hr. apply R_refl.
Qed.

End Respects.

(** ** The three relations *)

Lemma steady_refl (w : World) : steady w w.
Proof. unfold steady, assigned. tauto. Qed.

Lemma steady_trans (w1 w2 w3 : World) : steady w1 w2 -> steady w2 w3 -> steady w1 w3.
Proof.
  unfold steady, assigned.
  intros (G1 & A1 & D1 & H1) (G2 & A2 & D2 & H2).
  split; [congruence|]. split; [congruence|]. split; [congruence|]. tauto.
Qed.

Lemma loop_open_refl (w : World) : loop_open w w.
Proof. reflexivity. Qed.

Lemma loop_open_trans (w1 w2 w3 : World) : loop_open w1 w2 -> loop_open w2 w3 -> loop_open w1 w3.
Proof. unfold loop_open. congruence. Qed.

Lemma saved_kept_refl (w : World) : saved_kept w w.
Proof. split; reflexivity. Qed.

Lemma saved_kept_trans (w1 w2 w3 : World) :
  saved_kept w1 w2 -> saved_kept w2 w3 -> saved_kept w1 w3.
Proof. unfold saved_kept. intros [] []. split; congruence. Qed.

(** An assignment [self.attr = value] deletes nothing. *)
Ltac steady_assign :=
  intros; unfold steady, assigned; simpl;
  repeat split; auto; intros _; eexists; reflexivity.

Section Instances.
Variable float_pow : float -> float -> result float.

Lemma steady_handle (a : action) : respects steady (handle float_pow a).
Proof.
  destruct a; cbn [handle].
  - apply respects_drag; try solve [steady_assign | apply steady_refl | apply steady_trans].
  - apply respects_adjust_value; try solve [steady_assign | apply steady_refl | apply steady_trans].
  - apply respects_adjust_value; try solve [steady_assign | apply steady_refl | apply steady_trans].
  - apply respects_reset; try solve [steady_assign | apply steady_refl | apply steady_trans].
  - apply respects_save_to_config; try solve [steady_assign | apply steady_refl | apply steady_trans].
  - apply respects_load_from_config; try solve [steady_assign | apply steady_refl | apply steady_trans].
  - apply respects_on_closing; try solve [steady_assign | apply steady_refl | apply steady_trans].
  - apply respects_show_window; try solve [steady_assign | apply steady_refl | apply steady_trans].
  - apply respects_quit_app; try solve [steady_assign | apply steady_refl | apply steady_trans].
Qed.

Lemma steady_restore_gamma : respects steady _restore_gamma.
Proof.
  apply respects_restore_gamma; try solve [steady_assign | apply steady_refl | apply steady_trans].
Qed.

Ltac loop_assign :=
  intros; unfold loop_open; simpl; try reflexivity;
  match goal with H : root (self _) = Some _ |- _ => rewrite H; reflexivity end.

Lemma loop_open_handle (a : action) :
  is_quit a = false -> respects loop_open (handle float_pow a).
Proof.
  intros Ha. destruct a; try discriminate; cbn [handle].
  - apply respects_drag; try solve [loop_assign | apply loop_open_trans].
  - apply respects_adjust_value; try solve [loop_assign | apply loop_open_trans].
  - apply respects_adjust_value; try solve [loop_assign | apply loop_open_trans].
  - apply respects_reset; try solve [loop_assign | apply loop_open_trans].
  - apply respects_save_to_config; try solve [loop_assign | apply loop_open_trans].
  - apply respects_load_from_config; try solve [loop_assign | apply loop_open_trans].
  - apply respects_on_closing; try solve [loop_assign | apply loop_open_trans].
  - apply respects_show_window; try solve [loop_assign | apply loop_open_trans].
Qed.

Ltac saved_assign := intros; split; reflexivity.

Lemma saved_kept_handle (a : action) :
  is_save a = false -> respects saved_kept (handle float_pow a).
Proof.
  intros Ha. destruct a; try discriminate; cbn [handle].
  - apply respects_drag; try solve [saved_assign | apply saved_kept_trans].
  - apply respects_adjust_value; try solve [saved_assign | apply saved_kept_trans].
  - apply respects_adjust_value; try solve [saved_assign | apply saved_kept_trans].
  - apply respects_reset; try solve [saved_assign | apply saved_kept_trans].
  - apply respects_load_from_config; try solve [saved_assign | apply saved_kept_trans].
  - apply respects_on_closing; try solve [saved_assign | apply saved_kept_trans].
  - apply respects_show_window; try solve [saved_assign | apply saved_kept_trans].
Qed.

(** Relations that hold step by step hold along a list of callbacks. *)
Lemma respects_handle_all (R : World -> World -> Prop) (ok : action -> bool) :
  (forall w, R w w) -> (forall w1 w2 w3, R w1 w2 -> R w2 w3 -> R w1 w3) ->
  (forall a, ok a = true -> respects R (handle float_pow a)) ->
  forall acts w, forallb ok acts = true -> R w (handle_all float_pow acts w).
Proof.
  intros Hrefl Htrans Hstep acts. induction acts as [|a acts IH]; intros w Hok.
  - apply Hrefl.
  - simpl in Hok. apply andb_prop in Hok as [Ha Hacts].
    change (handle_all float_pow (a :: acts) w)
      with (handle_all float_pow acts (exec (handle float_pow a) w)).
    eapply Htrans; [apply (Hstep a Ha) | apply IH, Hacts].
Qed.

End Instances.

(** One statement of a straight-line method body. *)
Ltac run_step :=
  first [ rewrite bind_modify
        | rewrite bind_assoc
        | erewrite bind_getattr by (simpl; reflexivity) ].

Section Startup.
Variable float_pow : float -> float -> result float.

(** [update_gamma] on an instance whose variables and status label exist: the
    transform runs once, whatever it returns or raises ends up in the status. *)
Lemma update_gamma_spec (w : World) (g b c : float) (st : status_text) :
  gamma_var (self w) = Some g -> brightness_var (self w) = Some b ->
  contrast_var (self w) = Some c -> status (self w) = Some st ->
  update_gamma float_pow w =
    (Ok tt,
     on_self (set_status (Some match fst (set_gamma_ramp_all_screens float_pow g b c w) with
                               | Ok _ => Live g b c
                               | Raise e => UpdateFailed e
                               end))
       (exec (set_gamma_ramp_all_screens float_pow g b c) w)).
Proof.
  intros Hg Hb Hc Hst. unfold update_gamma, try_except, exec.
  rewrite (bind_getattr gamma_var _ w g Hg), (bind_getattr brightness_var _ w b Hb),
    (bind_getattr contrast_var _ w c Hc).
  destruct (all_screens_spec float_pow g b c w) as (t & res & Heq & _).
  unfold bind at 1. rewrite Heq. simpl fst. simpl snd.
  destruct res as [ok|e]; rewrite status_config_spec; simpl; rewrite Hst; reflexivity.
Qed.

Lemma init_unfold (w : World) :
  __init__ float_pow w =
    (Ok tt, on_self (set_icon (Some (mkTray true true)))
              (exec (update_gamma float_pow) (prepared w))).
Proof.
  unfold exec, __init__. rewrite (bind_ok _ _ _ _ _ (get_gamma_ramp_spec w)).
  pose proof (update_gamma_ok float_pow) as Hok.
  revert Hok. generalize (update_gamma float_pow). intros u Hok.
  unfold backup_and_restore, setup_ui, apply_config, var_set, setup_tray.
  repeat run_step.
  match goal with |- context [bind load_config ?k ?w0] =>
    assert (Hload : load_config w0 =
              (Ok (loaded_config (config_json w)),
               set_trace (trace w0 ++ match config_json w with Corrupt => [ShowWarning] | _ => [] end) w0))
      by (unfold load_config; simpl; destruct (config_json w); simpl;
          rewrite ?app_nil_r; reflexivity);
    rewrite (bind_ok _ _ _ _ _ Hload)
  end.
  repeat run_step.
  match goal with |- context [bind u ?k ?w0] =>
    replace w0 with (prepared w); [|unfold prepared; simpl; rewrite <- !app_assoc; reflexivity]
  end.
  unfold bind at 1. specialize (Hok (prepared w)).
  destruct (u (prepared w)) as [[[]|e] w2]; [reflexivity | discriminate].
Qed.

End Startup.

Section Session.
Variable float_pow : float -> float -> result float.

Lemma started_step (w w' : World) (r : ref) (t : GammaRamp) :
  started w r t -> frame false w w' -> steady w w' -> loop_open w w' -> started w' r t.
Proof.
  intros [Ho Hh (win & Hw & Hq) Hg Hb Hc Hcf] (Fh & Fo & _)
         (_ & _ & _ & Ar & Ag & Ab & Ac & Acf & _) Hl.
  unfold assigned in *. constructor; auto.
  - rewrite Fo. exact Ho.
  - unfold loop_open in Hl. rewrite Hw in Hl. simpl in Hl.
    destruct (root (self w')) as [win'|]; [|discriminate].
    exists win'. split; [reflexivity|]. simpl in Hl. congruence.
Qed.

Lemma started_handle (a : action) (w : World) (r : ref) (t : GammaRamp) :
  started w r t -> is_quit a = false -> started (exec (handle float_pow a) w) r t.
Proof.
  intros Hs Ha. apply (started_step w); [assumption | | | ].
  - apply (framed_handle float_pow a).
  - apply (steady_handle float_pow a).
  - apply (loop_open_handle float_pow a Ha).
Qed.

Lemma started_handle_all (acts : list action) : forall (w : World) (r : ref) (t : GammaRamp),
  started w r t -> forallb (fun a => negb (is_quit a)) acts = true ->
  started (handle_all float_pow acts w) r t.
Proof.
  induction acts as [|a acts IH]; intros w r t Hs Hok; [assumption|].
  simpl in Hok. apply andb_prop in Hok as [Ha Hacts].
  change (handle_all float_pow (a :: acts) w)
    with (handle_all float_pow acts (exec (handle float_pow a) w)).
  apply IH; [|assumption]. apply started_handle; [assumption|].
  destruct (is_quit a); [discriminate | reflexivity].
Qed.

(** Without Quit the main loop runs every callback. *)
Lemma mainloop_runs_all (acts : list action) (crash : option exn) :
  forall (w : World) (r : ref) (t : GammaRamp),
  started w r t -> forallb (fun a => negb (is_quit a)) acts = true ->
  mainloop float_pow acts crash w = (loop_outcome crash, handle_all float_pow acts w).
Proof.
  induction acts as [|a acts IH]; intros w r t Hs Hok.
  - simpl. destruct crash; reflexivity.
  - simpl in Hok. apply andb_prop in Hok as [Ha Hacts].
    assert (Hq : is_quit a = false) by (destruct (is_quit a); [discriminate | reflexivity]).
    pose proof (started_handle a w r t Hs Hq) as Hs'.
    change (handle_all float_pow (a :: acts) w)
      with (handle_all float_pow acts (exec (handle float_pow a) w)).
    cbn [mainloop]. destruct (started_root _ _ _ Hs') as (win & -> & ->).
    apply (IH _ r t); assumption.
Qed.

(** Quit on a started instance goes through and raises the flag. *)
Lemma quit_app_stops (w : World) (r : ref) (t : GammaRamp) :
  started w r t ->
  fst (quit_app w) = Ok tt /\
  exists win, root (self (exec quit_app w)) = Some win /\ quit_requested win = true.
Proof.
  intros [Ho Hh (win & Hw & Hq) [g Hg] [b Hb] [c Hc] _]. unfold exec.
  destruct w as [scr gok hp ah cj dk tr [orp rt gv bv cv cf st ic]]; simpl in *; subst.
  unfold quit_app, save_to_config, save_config, status_config, _restore_gamma, set_gamma_ramp,
    gdi32_SetDeviceGammaRamp, try_except, bind, getattr, hasattr, modify, emit, ret; simpl.
  destruct dk; simpl; destruct st; simpl; rewrite Hh; simpl;
    match goal with |- context [gok ?n] => destruct (gok n) end; simpl;
    destruct ic; simpl; (split; [reflexivity|]); eexists; split; reflexivity.
Qed.

Lemma handle_all_app (xs ys : list action) (w : World) :
  handle_all float_pow (xs ++ ys) w = handle_all float_pow ys (handle_all float_pow xs w).
Proof. unfold handle_all. apply fold_left_app. Qed.

Lemma mainloop_stops_at_quit (pre post : list action) (crash : option exn) :
  forall (w : World) (r : ref) (t : GammaRamp),
  started w r t -> forallb (fun a => negb (is_quit a)) pre = true ->
  mainloop float_pow (pre ++ TrayQuit :: post) crash w =
    (Ok tt, handle_all float_pow (pre ++ [TrayQuit]) w).
Proof.
  induction pre as [|a pre IH]; intros w r t Hs Hok.
  - simpl app. cbn [mainloop handle]. destruct (quit_app_stops w r t Hs) as (_ & win & -> & ->).
    reflexivity.
  - simpl in Hok. apply andb_prop in Hok as [Ha Hacts].
    assert (Hq : is_quit a = false) by (destruct (is_quit a); [discriminate | reflexivity]).
    pose proof (started_handle a w r t Hs Hq) as Hs'.
    change (handle_all float_pow ((a :: pre) ++ [TrayQuit]) w)
      with (handle_all float_pow (pre ++ [TrayQuit]) (exec (handle float_pow a) w)).
    simpl app. cbn [mainloop]. destruct (started_root _ _ _ Hs') as (win & -> & ->).
    apply (IH _ r t); assumption.
Qed.

(** X8. On a started instance the main loop runs its callbacks in order until
    Quit: without a Quit every callback runs and the loop ends as the toolkit
    ends it; with one, the loop returns normally after it and the callbacks
    queued behind it never run. *)
Theorem loop_runs_until_quit (pre post : list action) (crash : option exn)
    (w : World) (r : ref) (t : GammaRamp) :
  started w r t -> forallb (fun a => negb (is_quit a)) pre = true ->
  mainloop float_pow pre crash w = (loop_outcome crash, handle_all float_pow pre w) /\
  mainloop float_pow (pre ++ TrayQuit :: post) crash w =
    (Ok tt, handle_all float_pow (pre ++ [TrayQuit]) w).
Proof.
  intros Hs Hok. split.
  - apply (mainloop_runs_all pre crash w r t); assumption.
  - apply (mainloop_stops_at_quit pre post crash w r t); assumption.
Qed.

End Session.

Section StartupFacts.
Variable float_pow : float -> float -> result float.

(** The state [__init__] leaves, field by field. *)
Lemma init_world (w : World) :
  let c := loaded_config (config_json w) in
  let p := prepared w in
  let r2 := fresh (dom (heap p)) in
  exists t res,
    fst (set_gamma_ramp_all_screens float_pow (cfg_gamma c) (cfg_brightness c) (cfg_contrast c) p)
      = res /\
    exec (__init__ float_pow) w =
      mkWorld (match res with Ok true => t | _ => screen w end) (gdi_ok w)
        (<[r2 := t]> (heap p)) (atexit_handlers p) (config_json w) (disk_ok w)
        (trace p ++ GetDeviceGammaRamp r2 (gdi_ok w (length (trace p))) ::
           match res with Ok ok => [SetDeviceGammaRamp r2 t ok] | Raise _ => [] end)
        (mkGui (original_ramp (self p)) (Some (mkWindow true false))
           (Some (cfg_gamma c)) (Some (cfg_brightness c)) (Some (cfg_contrast c)) (Some c)
           (Some match res with
                 | Ok _ => Live (cfg_gamma c) (cfg_brightness c) (cfg_contrast c)
                 | Raise e => UpdateFailed e
                 end)
           (Some (mkTray true true))).
Proof.
  intros c p r2. subst p r2. unfold exec at 1. rewrite init_unfold. simpl snd.
  unfold exec at 1.
  rewrite (update_gamma_spec float_pow (prepared w)
             (cfg_gamma c) (cfg_brightness c) (cfg_contrast c) Ready) by reflexivity.
  simpl snd. unfold exec.
  destruct (all_screens_spec float_pow (cfg_gamma c) (cfg_brightness c) (cfg_contrast c)
              (prepared w)) as (t & res & Heq & _).
  exists t, res. rewrite Heq. split; reflexivity.
Qed.

Lemma init_started (w : World) :
  started (exec (__init__ float_pow) w) (fresh (dom (heap w)))
    (if gdi_ok w (length (trace w)) then screen w else GammaRamp_new).
Proof.
  destruct (init_world w) as (t & res & _ & ->).
  constructor; simpl; eauto.
  apply lookup_insert_fresh. apply lookup_insert_eq.
Qed.

Lemma init_handlers (w : World) :
  atexit_handlers (exec (__init__ float_pow) w) =
    atexit_handlers w ++ [restore_closure (fresh (dom (heap w))); atexit_restore_method] /\
  gdi_ok (exec (__init__ float_pow) w) = gdi_ok w.
Proof. destruct (init_world w) as (t & res & _ & ->). split; reflexivity. Qed.


End StartupFacts.

Section Run.
Variable float_pow : float -> float -> result float.

Lemma respects_mainloop (R : World -> World -> Prop) (acts : list action) (crash : option exn) :
  (forall w, R w w) -> (forall w1 w2 w3, R w1 w2 -> R w2 w3 -> R w1 w3) ->
  (forall a, respects R (handle float_pow a)) ->
  respects R (mainloop float_pow acts crash).
Proof.
  intros Hrefl Htrans Hstep. induction acts as [|a acts IH]; intros w.
  - simpl. destruct crash; apply Hrefl.
  - cbn [mainloop]. pose proof (Hstep a w) as Ha. fold (exec (handle float_pow a) w) in Ha.
    destruct (root (self (exec (handle float_pow a) w))) as [win|];
      [destruct (quit_requested win)|]; simpl;
      first [exact Ha | eapply Htrans; [exact Ha | apply IH]].
Qed.

Lemma respects_run (R : World -> World -> Prop) (acts : list action) (crash : option exn) :
  (forall w, R w w) -> (forall w1 w2 w3, R w1 w2 -> R w2 w3 -> R w1 w3) ->
  (forall a, respects R (handle float_pow a)) -> respects R _restore_gamma ->
  respects R (run float_pow acts crash).
Proof.
  intros Hrefl Htrans Hstep Hrestore. unfold run.
  apply respects_try_finally; try assumption.
  apply respects_try_except; try assumption.
  - apply respects_mainloop; assumption.
  - intros e. apply respects_bind; try assumption.
    intros _. apply respects_raise; assumption.
Qed.

(** What [run] adds after the main loop: one restore, and one more before it
    when the loop raised. *)
Lemma run_spec (acts : list action) (crash : option exn) (w : World) (r : ref) (t : GammaRamp) :
  original_ramp (self w) = Some r -> heap w !! r = Some t ->
  let w1 := exec (mainloop float_pow acts crash) w in
  let n := length (trace w1) in
  run float_pow acts crash w =
    (fst (mainloop float_pow acts crash w),
     match fst (mainloop float_pow acts crash w) with
     | Ok _ =>
         mkWorld (if gdi_ok w1 n then t else screen w1) (gdi_ok w1) (heap w1)
           (atexit_handlers w1) (config_json w1) (disk_ok w1)
           (trace w1 ++ [SetDeviceGammaRamp r t (gdi_ok w1 n)]) (self w1)
     | Raise _ =>
         mkWorld (if gdi_ok w1 (S n) then t else if gdi_ok w1 n then t else screen w1)
           (gdi_ok w1) (heap w1)
           (atexit_handlers w1) (config_json w1) (disk_ok w1)
           (trace w1 ++ [SetDeviceGammaRamp r t (gdi_ok w1 n);
                         SetDeviceGammaRamp r t (gdi_ok w1 (S n))]) (self w1)
     end).
Proof.
  intros Ho Hh w1 n.
  assert (Hf : frame false w w1).
  { apply (respects_mainloop (frame false));
      [apply frame_refl | apply frame_trans | apply (framed_handle float_pow)]. }
  destruct Hf as (Fh & Fo & _).
  assert (Ho1 : original_ramp (self w1) = Some r) by congruence.
  assert (Hh1 : heap w1 !! r = Some t) by auto.
  subst n. unfold w1 in *. clear w1. unfold exec in *. unfold run, try_finally, try_except.
  destruct (mainloop float_pow acts crash w) as [[[]|e] w1]; simpl in *.
  - rewrite (restore_gamma_spec w1 r t Ho1 Hh1). reflexivity.
  - rewrite (bind_ok _ _ _ _ _ (restore_gamma_spec w1 r t Ho1 Hh1)). unfold raise.
    rewrite restore_gamma_spec with (r := r) (t := t) by assumption.
    simpl. rewrite length_app. simpl.
    replace (length (trace w1) + 1)%nat with (S (length (trace w1))) by lia.
    rewrite <- app_assoc. reflexivity.
Qed.

End Run.

Section Exit.
Variable float_pow : float -> float -> result float.

(** X10. [run] ends every path with a restore: when the main loop returns,
    the [finally] clause hands the saved ramp to the driver once; when the loop
    raises, the [except] clause does it first and the [finally] clause again,
    and the exception is raised again.  Nothing else is added to what the loop
    did, and the display holds the saved ramp if the last write is accepted. *)
Theorem run_restores_on_every_path (acts : list action) (crash : option exn)
    (w : World) (r : ref) (t : GammaRamp) :
  original_ramp (self w) = Some r -> heap w !! r = Some t ->
  let loop := mainloop float_pow acts crash in
  fst (run float_pow acts crash w) = fst (loop w) /\
  exists ok1 ok2,
    trace (exec (run float_pow acts crash) w) =
      trace (exec loop w) ++
        match fst (loop w) with
        | Ok _ => [SetDeviceGammaRamp r t ok2]
        | Raise _ => [SetDeviceGammaRamp r t ok1; SetDeviceGammaRamp r t ok2]
        end /\
    (ok2 = true -> screen (exec (run float_pow acts crash) w) = t).
Proof.
  intros Ho Hh loop. subst loop. unfold exec at 1 3.
  rewrite (run_spec float_pow acts crash w r t Ho Hh). simpl fst. simpl snd.
  split; [reflexivity|].
  set (w1 := exec (mainloop float_pow acts crash) w).
  destruct (fst (mainloop float_pow acts crash w)) as [[]|e].
  - exists true, (gdi_ok w1 (length (trace w1))). simpl. split; [reflexivity|].
    intros ->. reflexivity.
  - exists (gdi_ok w1 (length (trace w1))), (gdi_ok w1 (S (length (trace w1)))). simpl.
    split; [reflexivity|]. intros ->. reflexivity.
Qed.

Lemma restore_closure_spec (w : World) (r : ref) (t : GammaRamp) :
  heap w !! r = Some t ->
  let ok := gdi_ok w (length (trace w)) in
  run_exit_handler (restore_closure r) w =
    (Ok tt, mkWorld (if ok then t else screen w) (gdi_ok w) (heap w)
              (atexit_handlers w) (config_json w) (disk_ok w)
              (trace w ++ [SetDeviceGammaRamp r t ok]) (self w)).
Proof.
  intros Hh ok. unfold run_exit_handler, try_except.
  rewrite (bind_ok _ _ _ _ _ (set_gamma_ramp_spec r w t Hh)). reflexivity.
Qed.

(** The two handlers registered by [__init__], run at interpreter exit. *)
Lemma interpreter_exit_spec (w : World) (r : ref) (t : GammaRamp) :
  atexit_handlers w = [restore_closure r; atexit_restore_method] ->
  original_ramp (self w) = Some r -> heap w !! r = Some t ->
  let n := length (trace w) in
  interpreter_exit w =
    (Ok tt,
     mkWorld (if gdi_ok w (S n) then t else if gdi_ok w n then t else screen w)
       (gdi_ok w) (heap w) (atexit_handlers w) (config_json w) (disk_ok w)
       (trace w ++ [SetDeviceGammaRamp r t (gdi_ok w n); SetDeviceGammaRamp r t (gdi_ok w (S n))])
       (self w)).
Proof.
  intros Ha Ho Hh n. unfold interpreter_exit. rewrite Ha. simpl rev. cbn [for_each app].
  rewrite (bind_ok (run_exit_handler atexit_restore_method) _ w _ tt
             (restore_gamma_spec w r t Ho Hh)).
  cbv beta. erewrite bind_ok by (apply restore_closure_spec with (t := t); exact Hh).
  unfold ret. simpl. rewrite length_app. simpl.
  replace (length (trace w) + 1)%nat with (S (length (trace w))) by lia.
  rewrite <- app_assoc, ?Ha. reflexivity.
Qed.

(** A whole session, from [__init__] to the exit handlers: whatever happens
    in between, the last two driver calls write the structure captured on
    line 19, which holds the hardware ramp if the read was accepted and the
    zeros of [GammaRamp()] if it was not. *)
Lemma session_end (acts : list action) (crash : option exn) (w0 : World) :
  atexit_handlers w0 = [] ->
  let w' := exec (main float_pow acts crash) w0 in
  let ok0 := gdi_ok w0 (length (trace w0)) in
  let t0 := if ok0 then screen w0 else GammaRamp_new in
  fst (main float_pow acts crash w0) = Ok tt /\
  exists r evs n,
    (length (trace w0) < n)%nat /\
    trace w' = trace w0 ++ GetDeviceGammaRamp r ok0 :: evs ++
                 [SetDeviceGammaRamp r t0 (gdi_ok w0 n);
                  SetDeviceGammaRamp r t0 (gdi_ok w0 (S n))] /\
    (gdi_ok w0 (S n) = true -> screen w' = t0).
Proof.
  intros Hah w' ok0 t0. subst w'. unfold exec, main.
  set (r := fresh (dom (heap w0))).
  pose proof (init_started float_pow w0) as Hs. fold r ok0 t0 in Hs.
  destruct (init_handlers float_pow w0) as [Hh1 Hg1]. fold r in Hh1. rewrite Hah in Hh1.
  simpl in Hh1.
  assert (Ht1 : exists evs1, trace (exec (__init__ float_pow) w0) =
                  trace w0 ++ GetDeviceGammaRamp r ok0 :: evs1).
  { destruct (init_world float_pow w0) as (t & res & _ & ->). simpl trace.
    fold r ok0. rewrite <- app_assoc. simpl. eexists. reflexivity. }
  destruct Ht1 as (evs1 & Ht1).
  rewrite (bind_ok _ _ w0 (exec (__init__ float_pow) w0) tt)
    by (unfold exec; rewrite init_unfold; reflexivity).
  set (w1 := exec (__init__ float_pow) w0) in *.
  set (body := try_except (run float_pow acts crash) (fun _ => _crash_handler)).
  assert (Hbody : fst (body w1) = Ok tt).
  { unfold body, try_except. destruct (run float_pow acts crash w1) as [[[]|e] w2]; [reflexivity|].
    apply restore_gamma_ok. }
  assert (Hframe : frame false w1 (snd (body w1))).
  { apply (respects_try_except (frame false)); [apply frame_trans | |].
    - apply respects_run; [apply frame_refl | apply frame_trans
                          | apply (framed_handle float_pow) | apply framed_restore_gamma].
    - intros _. apply framed_restore_gamma. }
  assert (Hsteady : steady w1 (snd (body w1))).
  { apply (respects_try_except steady); [apply steady_trans | |].
    - apply respects_run; [apply steady_refl | apply steady_trans
                          | apply (steady_handle float_pow) | apply steady_restore_gamma].
    - intros _. apply steady_restore_gamma. }
  destruct (body w1) as [res w2] eqn:Eb. simpl in Hbody, Hframe, Hsteady. subst res.
  rewrite (bind_ok _ _ w1 w2 tt) by exact Eb.
  destruct Hframe as (Fh & Fo & evs2 & Ft & _).
  destruct Hsteady as (Sg & Sa & _).
  rewrite (interpreter_exit_spec w2 r t0).
  - simpl. rewrite Sg, Hg1. split; [reflexivity|].
    exists r, (evs1 ++ evs2), (length (trace w2)). split; [|split].
    + rewrite Ft, Ht1, !length_app. simpl. lia.
    + rewrite Ft, Ht1, <- !app_assoc. reflexivity.
    + intros ->. reflexivity.
  - rewrite Sa. exact Hh1.
  - rewrite Fo. apply (started_ramp _ _ _ Hs).
  - apply Fh, (started_heap _ _ _ Hs).
Qed.



End Exit.

(** ** Clamping between two bounds *)

Lemma clamp_between (lo hi x : float) :
  (lo <=? hi)%float = true ->
  (lo <=? py_max lo (py_min hi x))%float = true /\
  (py_max lo (py_min hi x) <=? hi)%float = true.
Proof.
  intros H. apply leb_true in H as (Hlo & Hhi & Hle).
  unfold py_max, py_min.
  destruct (x <? hi)%float eqn:Hx.
  - apply ltb_true in Hx as (Hxn & _ & Hxlt).
    destruct (lo <? x)%float eqn:Hl.
    + apply ltb_true in Hl as (_ & _ & Hllt). split; apply leb_true; repeat split; auto; lia.
    + split; apply leb_true; repeat split; auto; lia.
  - destruct (lo <? hi)%float; split; apply leb_true; repeat split; auto; lia.
Qed.

Section Callbacks.
Variable float_pow : float -> float -> result float.

(** X4. [update_gamma] never raises and tells the outcome in the status label:
    "Live" when the transform returned, even if the driver refused the table
    (the BOOL is dropped and the display is unchanged), "Update failed" with
    the exception when the transform raised, in which case nothing was handed
    to the driver. *)
Theorem update_gamma_reports_outcome (w : World) (g b c : float) (st : status_text) :
  gamma_var (self w) = Some g -> brightness_var (self w) = Some b ->
  contrast_var (self w) = Some c -> status (self w) = Some st ->
  let w' := exec (update_gamma float_pow) w in
  fst (update_gamma float_pow w) = Ok tt /\
  match fst (set_gamma_ramp_all_screens float_pow g b c w) with
  | Ok ok =>
      status (self w') = Some (Live g b c) /\
      ok = gdi_ok w (S (length (trace w))) /\
      (ok = false -> screen w' = screen w)
  | Raise e =>
      status (self w') = Some (UpdateFailed e) /\
      screen w' = screen w /\
      written_tables (events_of (update_gamma float_pow) w) = []
  end.
Proof.
  intros Hg Hb Hc Hst w'. subst w'. unfold events_of, exec.
  rewrite (update_gamma_spec float_pow w g b c st Hg Hb Hc Hst). simpl fst. simpl snd.
  split; [reflexivity|]. unfold exec.
  destruct (all_screens_spec float_pow g b c w) as (t & res & Heq & Hres).
  rewrite Heq. simpl fst. simpl snd. destruct res as [ok|e].
  - destruct Hres as [Hok _]. simpl. split; [reflexivity|]. split; [assumption|].
    intros ->. reflexivity.
  - simpl. split; [reflexivity|]. split; [reflexivity|].
    rewrite drop_app_length. reflexivity.
Qed.

(** What [save_to_config] leaves. *)
Lemma save_to_config_spec (w : World) (g b c : float) :
  gamma_var (self w) = Some g -> brightness_var (self w) = Some b ->
  contrast_var (self w) = Some c ->
  let cfg := mkConfig g b c in
  save_to_config w =
    (Ok tt,
     mkWorld (screen w) (gdi_ok w) (heap w) (atexit_handlers w)
       (if disk_ok w then Json cfg else config_json w) (disk_ok w)
       (trace w ++ [if disk_ok w then ConfigWritten cfg else ShowError])
       (set_status (match status (self w) with Some _ => Some ConfigSaved | None => None end)
          (set_config (Some cfg) (self w)))).
Proof.
  intros Hg Hb Hc cfg. subst cfg.
  destruct w as [scr gok hp ah cj dk tr [orp rt gv bv cv cf st ic]]; simpl in *; subst.
  unfold save_to_config, save_config, status_config, try_except, bind, getattr, hasattr,
    modify, emit, ret; simpl.
  destruct dk; simpl; destruct st; reflexivity.
Qed.

(** X5. Save, then read the file: when config.json can be opened, "Save"
    stores the three current values and [load_config] returns exactly them;
    the next start of the program applies them to its three variables. *)
Theorem save_then_load_round_trip (w : World) (g b c : float) :
  gamma_var (self w) = Some g -> brightness_var (self w) = Some b ->
  contrast_var (self w) = Some c -> disk_ok w = true ->
  let w' := exec save_to_config w in
  let again := exec (__init__ float_pow) w' in
  fst (save_to_config w) = Ok tt /\
  load_config w' = (Ok (mkConfig g b c), w') /\
  gamma_var (self again) = Some g /\
  brightness_var (self again) = Some b /\
  contrast_var (self again) = Some c.
Proof.
  intros Hg Hb Hc Hd w' again. subst again w'.
  change (exec save_to_config w) with (snd (save_to_config w)).
  rewrite (save_to_config_spec w g b c Hg Hb Hc), Hd. simpl fst. simpl snd.
  split; [reflexivity|]. split; [reflexivity|].
  match goal with |- context [exec (__init__ float_pow) ?w1] =>
    destruct (init_world float_pow w1) as (t & res & _ & ->)
  end.
  repeat split; reflexivity.
Qed.

(** X6. A save that fails is still announced as done: when config.json cannot
    be opened, "Save" shows an error box and leaves the file as it was, yet
    [self.config] holds the new values and the status label says
    "Configuration saved". *)
Theorem failed_save_is_reported_saved (w : World) (g b c : float) (st : status_text) :
  gamma_var (self w) = Some g -> brightness_var (self w) = Some b ->
  contrast_var (self w) = Some c -> status (self w) = Some st -> disk_ok w = false ->
  let w' := exec save_to_config w in
  fst (save_to_config w) = Ok tt /\
  events_of save_to_config w = [ShowError] /\
  config_json w' = config_json w /\
  config (self w') = Some (mkConfig g b c) /\
  status (self w') = Some ConfigSaved.
Proof.
  intros Hg Hb Hc Hst Hd w'. subst w'. unfold events_of, exec.
  rewrite (save_to_config_spec w g b c Hg Hb Hc), Hd, Hst. simpl.
  rewrite drop_app_length. repeat split; reflexivity.
Qed.

End Callbacks.

Section Sliders.
Variable float_pow : float -> float -> result float.

Lemma update_gamma_vars (w : World) :
  let w' := exec (update_gamma float_pow) w in
  gamma_var (self w') = gamma_var (self w) /\
  brightness_var (self w') = brightness_var (self w) /\
  contrast_var (self w') = contrast_var (self w) /\
  config (self w') = config (self w) /\
  root (self w') = root (self w).
Proof.
  intros w'. subst w'. destruct (update_gamma_self float_pow w) as (st & ->).
  repeat split; reflexivity.
Qed.

Lemma adjust_value_exec (s : slider) (delta lo hi v : float) (w : World) :
  slider_var s (self w) = Some v ->
  exec (adjust_value float_pow s delta lo hi) w =
    exec (update_gamma float_pow)
      (on_self (slider_set s (Some (py_max lo (py_min hi (v + delta))))) w).
Proof.
  intros Hv. unfold exec, adjust_value, var_set.
  rewrite (bind_getattr (slider_var s) _ w v Hv). rewrite bind_assoc.
  rewrite (bind_getattr (slider_var s) _ w v Hv). rewrite bind_modify. reflexivity.
Qed.

(** X3. The "+" and "-" buttons keep a slider inside its range: whatever the
    variable held (NaN and the infinities included), after the click it holds
    [max(lo, min(hi, v +- 0.1))], a value between the bounds of
    [sliders_config]; the other two variables are not touched. *)
Theorem buttons_keep_slider_in_range (s : slider) (up : bool) (w : World) (v : float) :
  slider_var s (self w) = Some v ->
  let lo := fst (slider_bounds s) in
  let hi := snd (slider_bounds s) in
  let w' := exec (handle float_pow (if up then Plus s else Minus s)) w in
  let v' := py_max lo (py_min hi (v + (if up then 0.1 else -0.1)))%float in
  slider_var s (self w') = Some v' /\
  (lo <=? v')%float = true /\ (v' <=? hi)%float = true /\
  forall s', s' <> s -> slider_var s' (self w') = slider_var s' (self w).
Proof.
  intros Hv lo hi w' v'. subst w' v' lo hi.
  assert (Hb : (fst (slider_bounds s) <=? snd (slider_bounds s))%float = true)
    by (destruct s; reflexivity).
  destruct (clamp_between _ _ (v + (if up then 0.1 else -0.1))%float Hb) as [H1 H2].
  split; [|split; [exact H1 | split; [exact H2|]]].
  - destruct up; cbn [handle]; rewrite (adjust_value_exec s _ _ _ v w Hv);
      match goal with |- context [exec (update_gamma float_pow) ?w1] =>
        destruct (update_gamma_vars w1) as (Eg & Eb & Ec & _)
      end; destruct s; simpl in *; congruence.
  - intros s' Hne.
    destruct up; cbn [handle]; rewrite (adjust_value_exec s _ _ _ v w Hv);
      match goal with |- context [exec (update_gamma float_pow) ?w1] =>
        destruct (update_gamma_vars w1) as (Eg & Eb & Ec & _)
      end; destruct s, s'; simpl in *; congruence.
Qed.

Lemma status_config_self (t : status_text) (w : World) :
  exists st, self (exec (status_config t) w) = set_status st (self w).
Proof.
  unfold exec. rewrite status_config_spec. simpl.
  destruct w as [scr gok hp ah cj dk tr [orp rt gv bv cv cf st ic]]; simpl.
  destruct st; eexists; reflexivity.
Qed.

Lemma load_from_config_exec (w : World) (cfg : Config) :
  is_Some (root (self w)) -> config (self w) = Some cfg ->
  is_Some (gamma_var (self w)) -> is_Some (brightness_var (self w)) ->
  is_Some (contrast_var (self w)) ->
  exec (load_from_config float_pow) w =
    exec (status_config ConfigLoaded)
      (exec (update_gamma float_pow)
         (on_self (set_contrast_var (Some (cfg_contrast cfg)))
            (on_self (set_brightness_var (Some (cfg_brightness cfg)))
               (on_self (set_gamma_var (Some (cfg_gamma cfg))) w)))).
Proof.
  intros [win Hr] Hcf [g Hg] [b Hb] [c Hc].
  unfold exec, load_from_config, apply_config, var_set.
  rewrite (bind_getattr root _ w win Hr).
  repeat first [ rewrite bind_modify | rewrite bind_assoc
               | erewrite bind_getattr by (simpl; eassumption) ].
  match goal with |- context [bind (update_gamma float_pow) ?k ?w1] =>
    pose proof (update_gamma_ok float_pow w1) as Hok; unfold bind;
    destruct (update_gamma float_pow w1) as [[[]|e] w2]; [reflexivity | discriminate]
  end.
Qed.

Lemma load_from_config_vars (w : World) (cfg : Config) :
  is_Some (root (self w)) -> config (self w) = Some cfg ->
  is_Some (gamma_var (self w)) -> is_Some (brightness_var (self w)) ->
  is_Some (contrast_var (self w)) ->
  let w' := exec (load_from_config float_pow) w in
  gamma_var (self w') = Some (cfg_gamma cfg) /\
  brightness_var (self w') = Some (cfg_brightness cfg) /\
  contrast_var (self w') = Some (cfg_contrast cfg).
Proof.
  intros Hr Hcf Hg Hb Hc w'. subst w'.
  rewrite (load_from_config_exec w cfg Hr Hcf Hg Hb Hc).
  match goal with |- context [exec (status_config ConfigLoaded) ?w2] =>
    destruct (status_config_self ConfigLoaded w2) as (st & ->)
  end.
  match goal with |- context [exec (update_gamma float_pow) ?w1] =>
    destruct (update_gamma_vars w1) as (Eg & Eb & Ec & _)
  end.
  simpl. rewrite Eg, Eb, Ec. repeat split; reflexivity.
Qed.

(** X9. "Load" brings back what was last saved: on a started instance, after
    any callbacks other than Save and Quit (sliders, buttons, Reset, closing
    and showing the window, earlier loads), "Load" sets the three variables to
    the values of [self.config], which those callbacks left alone, as they left
    config.json. *)
Theorem load_returns_saved_values (acts : list action) (w : World) (r : ref) (t : GammaRamp)
    (cfg : Config) :
  started w r t -> config (self w) = Some cfg ->
  forallb (fun a => negb (is_save a)) acts = true ->
  let w' := handle_all float_pow (acts ++ [ClickLoad]) w in
  gamma_var (self w') = Some (cfg_gamma cfg) /\
  brightness_var (self w') = Some (cfg_brightness cfg) /\
  contrast_var (self w') = Some (cfg_contrast cfg) /\
  config (self w') = Some cfg /\
  config_json w' = config_json w.
Proof.
  intros Hs Hcf Hacts w'. subst w'. rewrite handle_all_app.
  set (w1 := handle_all float_pow acts w).
  assert (Hq : forallb (fun a => negb (is_quit a)) acts = true).
  { rewrite forallb_forall in *. intros a Ha. specialize (Hacts a Ha).
    destruct a; try reflexivity; discriminate. }
  pose proof (started_handle_all float_pow acts w r t Hs Hq) as Hs1. fold w1 in Hs1.
  assert (Hk : saved_kept w w1).
  { apply (respects_handle_all float_pow saved_kept (fun a => negb (is_save a)));
      [apply saved_kept_refl | apply saved_kept_trans | | assumption].
    intros a Ha. apply saved_kept_handle. destruct (is_save a); [discriminate | reflexivity]. }
  destruct Hk as [Kc Kf].
  destruct Hs1 as [_ _ (win & Hw & _) Hg Hb Hc _].
  assert (Hcf1 : config (self w1) = Some cfg) by congruence.
  change (handle_all float_pow [ClickLoad] w1) with (exec (load_from_config float_pow) w1).
  destruct (load_from_config_vars w1 cfg) as (Vg & Vb & Vc); eauto.
  split; [assumption|]. split; [assumption|]. split; [assumption|].
  assert (Hk2 : saved_kept w1 (exec (load_from_config float_pow) w1)).
  { apply (saved_kept_handle float_pow ClickLoad). reflexivity. }
  destruct Hk2 as [Kc2 Kf2]. split; congruence.
Qed.

End Sliders.

Section ResetButton.
Variable float_pow : float -> float -> result float.

(** The entry the default parameters give at one index, for a power that
    returns its base at exponent one. *)
Lemma default_val (i : nat) :
  (forall x, float_pow x 1%float = Ok x) -> (i < GAMMA_RAMP_SIZE)%nat ->
  exists v, ramp_val_16bit float_pow 1.0 0.0 1.0 i = Ok v /\
            257 * Z.of_nat i - 1 <= v <= 257 * Z.of_nat i.
Proof.
  intros Hpow Hi.
  assert (Heq : ramp_val_16bit float_pow 1.0 0.0 1.0 i =
                ramp_val_16bit pow_unit_exponent 1.0 0.0 1.0 i).
  { unfold ramp_val_16bit, ramp_final.
    change (py_truediv 1.0 (py_max 1.0 0.1)) with (@Ok float 1%float).
    destruct (py_truediv _ _) as [n|e]; [simpl|reflexivity].
    rewrite Hpow. reflexivity. }
  pose proof default_entries_checked as Hall.
  rewrite forallb_forall in Hall.
  specialize (Hall i ltac:(apply in_seq; lia)).
  unfold default_entry_check in Hall. rewrite <- Heq in Hall.
  destruct (ramp_val_16bit float_pow 1.0 0.0 1.0 i) as [v|]; [|discriminate].
  destruct (py_round _) as [v'|]; [|discriminate].
  apply andb_prop in Hall as [Hall _]. apply andb_prop in Hall as [H1 H2].
  exists v. split; [reflexivity | lia].
Qed.

Lemma reset_exec (w : World) :
  is_Some (root (self w)) ->
  is_Some (gamma_var (self w)) -> is_Some (brightness_var (self w)) ->
  is_Some (contrast_var (self w)) ->
  exec (reset float_pow) w =
    exec (status_config ResetToDefault)
      (exec (update_gamma float_pow)
         (on_self (set_contrast_var (Some 1.0%float))
            (on_self (set_brightness_var (Some 0.0%float))
               (on_self (set_gamma_var (Some 1.0%float)) w)))).
Proof.
  intros [win Hr] [g Hg] [b Hb] [c Hc].
  unfold exec, reset, var_set.
  rewrite (bind_getattr root _ w win Hr).
  repeat first [ rewrite bind_modify | rewrite bind_assoc
               | erewrite bind_getattr by (simpl; eassumption) ].
  match goal with |- context [bind (update_gamma float_pow) ?k ?w1] =>
    pose proof (update_gamma_ok float_pow w1) as Hok; unfold bind;
    destruct (update_gamma float_pow w1) as [[[]|e] w2]; [reflexivity | discriminate]
  end.
Qed.

(** X15. Reset is not Restore: on a started instance "Reset" sets the three
    variables to 1.0, 0.0, 1.0 and hands the driver the table of those
    defaults, entry [i] being [257 * i] or one below it on the three channels,
    whatever ramp was captured at start-up; the display takes that table when
    the driver accepts it, and the label reads "Reset to Default!". *)
Theorem reset_writes_default_table (w : World) (r : ref) (t : GammaRamp) (st : status_text) :
  started w r t -> status (self w) = Some st -> ramp_wf (screen w) ->
  (forall x, float_pow x 1%float = Ok x) ->
  let w' := exec (reset float_pow) w in
  gamma_var (self w') = Some 1.0%float /\
  brightness_var (self w') = Some 0.0%float /\
  contrast_var (self w') = Some 1.0%float /\
  status (self w') = Some ResetToDefault /\
  exists buf ok0 tbl ok,
    events_of (reset float_pow) w =
      [GetDeviceGammaRamp buf ok0; SetDeviceGammaRamp buf tbl ok] /\
    (ok = true -> screen w' = tbl) /\
    forall i, (i < GAMMA_RAMP_SIZE)%nat ->
      exists v, red tbl !! i = Some v /\ green tbl !! i = Some v /\ blue tbl !! i = Some v /\
                257 * Z.of_nat i - 1 <= v <= 257 * Z.of_nat i.
Proof.
  intros [_ _ (win & Hw & _) Hg Hb Hc _] Hst Hwf Hpow w'. subst w'. unfold events_of.
  rewrite reset_exec by eauto.
  set (w1 := on_self (set_contrast_var (Some 1.0%float))
               (on_self (set_brightness_var (Some 0.0%float))
                  (on_self (set_gamma_var (Some 1.0%float)) w))).
  unfold exec at 2 4 6 8 10 12.
  rewrite (update_gamma_spec float_pow w1 1.0 0.0 1.0 st) by (try reflexivity; exact Hst).
  simpl snd. unfold exec at 2 4 6 8 10 12.
  destruct (all_screens_spec float_pow 1.0 0.0 1.0 w1) as (tbl & res & Heq & Hres).
  rewrite Heq. simpl fst. simpl snd.
  unfold exec. rewrite status_config_spec. simpl.
  destruct res as [ok|e].
  - destruct Hres as (_ & Hres). destruct (Hres Hwf) as (Hwft & Hin).
    repeat (split; [reflexivity|]).
    exists (fresh (dom (heap w))), (gdi_ok w (length (trace w))), tbl, ok.
    rewrite drop_app_length. split; [reflexivity|]. split; [intros ->; reflexivity|].
    intros i Hi. destruct (Hin i Hi) as (v & Hv & Hr & Hgr & Hbl).
    destruct (default_val i Hpow Hi) as (v' & Hv' & Hrange).
    assert (v' = v) by congruence. subst v'.
    assert (Hsmall : 0 <= v <= 65535).
    { destruct (ramp_val_16bit_cases float_pow 1.0 0.0 1.0 i)
        as [(u & Hu & Hur) | (n & x & e & _ & _ & _ & He)]; congruence. }
    rewrite USHORT_small in Hr, Hgr, Hbl by assumption. exists v. auto.
  - exfalso. destruct (Hres Hwf) as (i & Hi & He).
    destruct (default_val i Hpow Hi) as (v & Hv & _). congruence.
Qed.

End ResetButton.

Lemma same_display_refl (w : World) : same_display w w.
Proof. repeat split. Qed.

Lemma same_display_trans (w1 w2 w3 : World) :
  same_display w1 w2 -> same_display w2 w3 -> same_display w1 w3.
Proof. unfold same_display. intros (?&?&?&?) (?&?&?&?). repeat split; congruence. Qed.

Section Sync.
Variable float_pow : float -> float -> result float.
Hypothesis pow_ok : pow_returns float_pow.

Lemma ramp_val_16bit_returns (gamma brightness contrast : float) (i : nat) :
  (i < GAMMA_RAMP_SIZE)%nat ->
  exists v, ramp_val_16bit float_pow gamma brightness contrast i = Ok v /\ 0 <= v <= 65535.
Proof.
  intros Hi.
  destruct (ramp_val_16bit_cases float_pow gamma brightness contrast i)
    as [H | (n & x & e & Hn & _ & Hp & _)]; [exact H|].
  exfalso. unfold py_truediv in Hn. change (255 =? 0)%float with false in Hn.
  injection Hn as <-.
  destruct (normalized_mono i i (le_n i) Hi) as (H0 & _ & H1).
  destruct (pow_ok _ x H0 H1) as (p & Hp'). unfold normalized_of in Hp'. congruence.
Qed.

(** One [update_gamma] with a willing driver puts the table of the variables
    on the display. *)
Lemma update_gamma_shows (w : World) (g b c : float) (st : status_text) :
  gamma_var (self w) = Some g -> brightness_var (self w) = Some b ->
  contrast_var (self w) = Some c -> status (self w) = Some st ->
  (forall n, gdi_ok w n = true) -> ramp_wf (screen w) ->
  let w' := exec (update_gamma float_pow) w in
  shows float_pow w' /\ ramp_wf (screen w') /\
  gamma_var (self w') = Some g /\ brightness_var (self w') = Some b /\
  contrast_var (self w') = Some c.
Proof.
  intros Hg Hb Hc Hst Hok Hwf w'. subst w'. unfold exec.
  rewrite (update_gamma_spec float_pow w g b c st Hg Hb Hc Hst). simpl snd. unfold exec.
  destruct (all_screens_spec float_pow g b c w) as (t & res & Heq & Hres).
  rewrite Heq. simpl fst. simpl snd. destruct res as [ok|e].
  - destruct Hres as (Hok' & Hres). destruct (Hres Hwf) as (Hwft & Hin).
    rewrite Hok in Hok'. subst ok. simpl.
    split; [|auto]. exists g, b, c. repeat (split; [assumption|]).
    intros i Hi. destruct (Hin i Hi) as (v & Hv & Hr & Hgr & Hbl).
    destruct (ramp_val_16bit_returns g b c i Hi) as (v' & Hv' & Hrange).
    assert (v' = v) by congruence. subst v'.
    rewrite USHORT_small in Hr, Hgr, Hbl by assumption. exists v. auto.
  - exfalso. destruct (Hres Hwf) as (i & Hi & He).
    destruct (ramp_val_16bit_returns g b c i Hi) as (v & Hv & _). congruence.
Qed.

Lemma same_display_shows (w w' : World) :
  same_display w w' -> shows float_pow w -> shows float_pow w'.
Proof.
  intros (Hs & Hg & Hb & Hc) (g & b & c & Vg & Vb & Vc & Hin).
  exists g, b, c. rewrite Hs, Hg, Hb, Hc. auto.
Qed.

Lemma same_display_wf (w w' : World) :
  same_display w w' -> ramp_wf (screen w) -> ramp_wf (screen w').
Proof. intros (-> & _). auto. Qed.

Lemma status_config_display (t : status_text) (w : World) :
  same_display w (exec (status_config t) w).
Proof.
  unfold exec. rewrite status_config_spec. simpl.
  destruct (status (self w)); repeat split.
Qed.

Lemma quiet_handle (a : action) :
  match a with ClickSave | CloseWindow | TrayShow => True | _ => False end ->
  respects same_display (handle float_pow a).
Proof.
  destruct a; try contradiction; intros _; cbn [handle].
  - apply respects_save_to_config;
      first [apply same_display_refl | apply same_display_trans | intros; repeat split].
  - apply respects_on_closing;
      first [apply same_display_refl | apply same_display_trans | intros; repeat split].
  - apply respects_show_window;
      first [apply same_display_refl | intros; repeat split].
Qed.

(** Setting variables and calling [update_gamma]. *)
Lemma tuned_update (w w1 : World) (g b c : float) :
  tuned float_pow w ->
  screen w1 = screen w -> gdi_ok w1 = gdi_ok w -> status (self w1) = status (self w) ->
  gamma_var (self w1) = Some g -> brightness_var (self w1) = Some b ->
  contrast_var (self w1) = Some c ->
  let w' := exec (update_gamma float_pow) w1 in
  shows float_pow w' /\ ramp_wf (screen w').
Proof.
  intros [_ Hwf Hok [st Hst] _ _] Hs Hd Hst1 Hg Hb Hc w'. subst w'.
  destruct (update_gamma_shows w1 g b c st) as (H1 & H2 & _); auto; try congruence;
    try (intros n; rewrite Hd; apply Hok).
Qed.

Lemma tuned_handle (a : action) (w : World) :
  tuned float_pow w -> is_quit a = false -> tuned float_pow (exec (handle float_pow a) w).
Proof.
  intros Ht Ha.
  pose proof (steady_handle float_pow a w) as (Sg & _ & _ & Ar & _ & _ & _ & Acf & Ast & _).
  assert (Hdisplay : shows float_pow (exec (handle float_pow a) w) /\
                     ramp_wf (screen (exec (handle float_pow a) w))).
  { pose proof Ht as [(g & b & c & Vg & Vb & Vc & Hin) Hwf Hok Hst Hroot [cfg Hcf]].
    destruct a; try discriminate; cbn [handle].
    - (* a slider is dragged *)
      assert (He : exec (var_set (slider_var s) (slider_set s) value ;; update_gamma float_pow)%py w
                   = exec (update_gamma float_pow) (on_self (slider_set s (Some value)) w)).
      { unfold exec, var_set. rewrite bind_assoc.
        destruct s; simpl slider_var; erewrite bind_getattr by eassumption;
          rewrite bind_modify; reflexivity. }
      rewrite He. destruct s.
      + apply (tuned_update w _ value b c); auto.
      + apply (tuned_update w _ g value c); auto.
      + apply (tuned_update w _ g b value); auto.
    - destruct s.
      + rewrite (adjust_value_exec float_pow GammaSlider _ _ _ g w Vg).
        eapply (tuned_update w _ _ b c); auto; reflexivity.
      + rewrite (adjust_value_exec float_pow BrightnessSlider _ _ _ b w Vb).
        eapply (tuned_update w _ g _ c); auto; reflexivity.
      + rewrite (adjust_value_exec float_pow ContrastSlider _ _ _ c w Vc).
        eapply (tuned_update w _ g b _); auto; reflexivity.
    - destruct s.
      + rewrite (adjust_value_exec float_pow GammaSlider _ _ _ g w Vg).
        eapply (tuned_update w _ _ b c); auto; reflexivity.
      + rewrite (adjust_value_exec float_pow BrightnessSlider _ _ _ b w Vb).
        eapply (tuned_update w _ g _ c); auto; reflexivity.
      + rewrite (adjust_value_exec float_pow ContrastSlider _ _ _ c w Vc).
        eapply (tuned_update w _ g b _); auto; reflexivity.
    - rewrite (reset_exec float_pow w) by eauto.
      match goal with |- context [exec (update_gamma float_pow) ?w1] =>
        destruct (tuned_update w w1 1.0 0.0 1.0 Ht) as (H1 & H2); try reflexivity;
        pose proof (status_config_display ResetToDefault (exec (update_gamma float_pow) w1)) as Hd
      end.
      split; [exact (same_display_shows _ _ Hd H1) | exact (same_display_wf _ _ Hd H2)].
    - pose proof (quiet_handle ClickSave I w) as Hd. cbn [handle] in Hd.
      split; [exact (same_display_shows _ _ Hd (tuned_shows _ _ Ht))
             | exact (same_display_wf _ _ Hd Hwf)].
    - rewrite (load_from_config_exec float_pow w cfg) by eauto.
      match goal with |- context [exec (update_gamma float_pow) ?w1] =>
        destruct (tuned_update w w1 (cfg_gamma cfg) (cfg_brightness cfg) (cfg_contrast cfg) Ht)
          as (H1 & H2); try reflexivity;
        pose proof (status_config_display ConfigLoaded (exec (update_gamma float_pow) w1)) as Hd
      end.
      split; [exact (same_display_shows _ _ Hd H1) | exact (same_display_wf _ _ Hd H2)].
    - pose proof (quiet_handle CloseWindow I w) as Hd. cbn [handle] in Hd.
      split; [exact (same_display_shows _ _ Hd (tuned_shows _ _ Ht))
             | exact (same_display_wf _ _ Hd Hwf)].
    - pose proof (quiet_handle TrayShow I w) as Hd. cbn [handle] in Hd.
      split; [exact (same_display_shows _ _ Hd (tuned_shows _ _ Ht))
             | exact (same_display_wf _ _ Hd Hwf)]. }
  destruct Hdisplay as [H1 H2]. destruct Ht as [_ _ Hok Hst Hroot Hcf].
  constructor; auto.
  intros n. unfold exec in Sg. unfold exec. rewrite Sg. apply Hok.
Qed.

Lemma tuned_handle_all (acts : list action) : forall w,
  tuned float_pow w -> forallb (fun a => negb (is_quit a)) acts = true ->
  tuned float_pow (handle_all float_pow acts w).
Proof.
  induction acts as [|a acts IH]; intros w Ht Hok; [assumption|].
  simpl in Hok. apply andb_prop in Hok as [Ha Hacts].
  change (handle_all float_pow (a :: acts) w)
    with (handle_all float_pow acts (exec (handle float_pow a) w)).
  apply IH; [|assumption]. apply tuned_handle; [assumption|].
  destruct (is_quit a); [discriminate | reflexivity].
Qed.

Lemma tuned_init (w0 : World) :
  (forall n, gdi_ok w0 n = true) -> ramp_wf (screen w0) ->
  tuned float_pow (exec (__init__ float_pow) w0).
Proof.
  intros Hok Hwf. unfold exec. rewrite init_unfold. simpl snd.
  set (c := loaded_config (config_json w0)).
  destruct (update_gamma_shows (prepared w0) (cfg_gamma c) (cfg_brightness c) (cfg_contrast c)
              Ready) as ((g & b & c' & Vg & Vb & Vc & Hin) & Hwf' & _); try reflexivity;
    try assumption.
  destruct (update_gamma_self float_pow (prepared w0)) as (st & Hself).
  pose proof (steady_handle float_pow (Drag GammaSlider 1.0)) as _.
  assert (Hs : respects steady (update_gamma float_pow)).
  { apply respects_update_gamma;
      first [apply steady_refl | apply steady_trans
            | intros; unfold steady, assigned; simpl; repeat split; auto;
              intros _; eexists; reflexivity]. }
  destruct (Hs (prepared w0)) as (Sg & _ & _ & _ & _ & _ & _ & _ & Ast & _).
  fold (exec (update_gamma float_pow) (prepared w0)) in *.
  constructor; simpl.
  - exists g, b, c'. auto.
  - assumption.
  - intros n. rewrite Sg. simpl. apply Hok.
  - apply Ast. eexists. reflexivity.
  - rewrite Hself. eexists. reflexivity.
  - rewrite Hself. eexists. reflexivity.
Qed.


End Sync.

(** * The added properties on concrete runs *)

(** The instance of a fresh process, once [__init__] has returned: the driver
    accepts every call, config.json is missing, the power is taken at
    exponent one. *)
Lemma started_after_init :
  started (exec (__init__ pow_unit_exponent) (boot (fun _ => true) Absent))
    1%positive linear_ramp.
Proof.
  constructor; try (vm_compute; reflexivity); try (eexists; vm_compute; reflexivity).
  eexists. split; vm_compute; reflexivity.
Defined.


(** X3, witness: "+" on the gamma slider at 3.95 stops at the bound 4.0. *)
Lemma buttons_keep_slider_in_range_witness :
  let w := exec (handle pow_unit_exponent (Drag GammaSlider 3.95))
             (exec (__init__ pow_unit_exponent) (boot (fun _ => true) Absent)) in
  let lo := fst (slider_bounds GammaSlider) in
  let hi := snd (slider_bounds GammaSlider) in
  let w' := exec (handle pow_unit_exponent (Plus GammaSlider)) w in
  let v' := py_max lo (py_min hi (3.95 + 0.1))%float in
  slider_var GammaSlider (self w') = Some v' /\
  (lo <=? v')%float = true /\ (v' <=? hi)%float = true /\
  forall s', s' <> GammaSlider -> slider_var s' (self w') = slider_var s' (self w).
Proof.
  exact (buttons_keep_slider_in_range pow_unit_exponent GammaSlider true
           (exec (handle pow_unit_exponent (Drag GammaSlider 3.95))
              (exec (__init__ pow_unit_exponent) (boot (fun _ => true) Absent)))
           3.95%float ltac:(vm_compute; reflexivity)).
Defined.

(** X4, witness: the driver accepts the start-up calls and refuses the next
    write; the label says "Live" and the display keeps the start-up table. *)
Lemma update_gamma_reports_outcome_witness :
  let w := exec (__init__ pow_unit_exponent) (boot (fun n => (n <? 3)%nat) Absent) in
  let w' := exec (update_gamma pow_unit_exponent) w in
  fst (update_gamma pow_unit_exponent w) = Ok tt /\
  status (self w') = Some (Live 1.0 0.0 1.0) /\
  false = gdi_ok w (S (length (trace w))) /\
  (false = false -> screen w' = screen w).
Proof.
  exact (update_gamma_reports_outcome pow_unit_exponent
           (exec (__init__ pow_unit_exponent) (boot (fun n => (n <? 3)%nat) Absent))
           1.0 0.0 1.0 (Live 1.0 0.0 1.0)
           ltac:(vm_compute; reflexivity) ltac:(vm_compute; reflexivity)
           ltac:(vm_compute; reflexivity) ltac:(vm_compute; reflexivity)).
Defined.

(** X5, witness: contrast 0.5 saved, read back, applied by the next start. *)
Lemma save_then_load_round_trip_witness :
  let w := exec (handle pow_unit_exponent (Drag ContrastSlider 0.5))
             (exec (__init__ pow_unit_exponent) (boot (fun _ => true) Absent)) in
  let w' := exec save_to_config w in
  let again := exec (__init__ pow_unit_exponent) w' in
  fst (save_to_config w) = Ok tt /\
  load_config w' = (Ok (mkConfig 1.0 0.0 0.5), w') /\
  gamma_var (self again) = Some 1.0%float /\
  brightness_var (self again) = Some 0.0%float /\
  contrast_var (self again) = Some 0.5%float.
Proof.
  exact (save_then_load_round_trip pow_unit_exponent
           (exec (handle pow_unit_exponent (Drag ContrastSlider 0.5))
              (exec (__init__ pow_unit_exponent) (boot (fun _ => true) Absent)))
           1.0 0.0 0.5
           ltac:(vm_compute; reflexivity) ltac:(vm_compute; reflexivity)
           ltac:(vm_compute; reflexivity) ltac:(vm_compute; reflexivity)).
Defined.

(** X6, witness. *)
Lemma failed_save_is_reported_saved_witness :
  let w := exec (handle pow_unit_exponent (Drag ContrastSlider 0.5)) read_only_session in
  let w' := exec save_to_config w in
  fst (save_to_config w) = Ok tt /\
  events_of save_to_config w = [ShowError] /\
  config_json w' = config_json w /\
  config (self w') = Some (mkConfig 1.0 0.0 0.5) /\
  status (self w') = Some ConfigSaved.
Proof.
  exact (failed_save_is_reported_saved
           (exec (handle pow_unit_exponent (Drag ContrastSlider 0.5)) read_only_session)
           1.0 0.0 0.5 (Live 1.0 0.0 0.5)
           ltac:(vm_compute; reflexivity) ltac:(vm_compute; reflexivity)
           ltac:(vm_compute; reflexivity) ltac:(vm_compute; reflexivity)
           ltac:(vm_compute; reflexivity)).
Defined.

(** X8, witness: two callbacks, Quit, and one callback that never runs. *)
Lemma loop_runs_until_quit_witness :
  let w := exec (__init__ pow_unit_exponent) (boot (fun _ => true) Absent) in
  let pre := [Plus ContrastSlider; CloseWindow] in
  mainloop pow_unit_exponent pre None w = (Ok tt, handle_all pow_unit_exponent pre w) /\
  mainloop pow_unit_exponent (pre ++ TrayQuit :: [ClickReset]) None w =
    (Ok tt, handle_all pow_unit_exponent (pre ++ [TrayQuit]) w).
Proof.
  exact (loop_runs_until_quit pow_unit_exponent [Plus ContrastSlider; CloseWindow] [ClickReset]
           None (exec (__init__ pow_unit_exponent) (boot (fun _ => true) Absent))
           1%positive linear_ramp started_after_init eq_refl).
Defined.

(** X9, witness: the defaults are in [self.config]; two sliders are moved,
    Reset is clicked, and Load brings the defaults back. *)
Lemma load_returns_saved_values_witness :
  let w := exec (__init__ pow_unit_exponent) (boot (fun _ => true) Absent) in
  let acts := [Drag GammaSlider 2.2; Minus BrightnessSlider; ClickReset; CloseWindow] in
  let w' := handle_all pow_unit_exponent (acts ++ [ClickLoad]) w in
  gamma_var (self w') = Some 1.0%float /\
  brightness_var (self w') = Some 0.0%float /\
  contrast_var (self w') = Some 1.0%float /\
  config (self w') = Some default_config /\
  config_json w' = config_json w.
Proof.
  exact (load_returns_saved_values pow_unit_exponent
           [Drag GammaSlider 2.2; Minus BrightnessSlider; ClickReset; CloseWindow]
           (exec (__init__ pow_unit_exponent) (boot (fun _ => true) Absent))
           1%positive linear_ramp default_config
           started_after_init ltac:(vm_compute; reflexivity) eq_refl).
Defined.

(** X10, witness: the loop crashes after one callback. *)
Lemma run_restores_on_every_path_witness :
  let w := exec (__init__ pow_unit_exponent) (boot (fun _ => true) Absent) in
  let loop := mainloop pow_unit_exponent [Plus GammaSlider] (Some ValueError) in
  fst (run pow_unit_exponent [Plus GammaSlider] (Some ValueError) w) = fst (loop w) /\
  exists ok1 ok2,
    trace (exec (run pow_unit_exponent [Plus GammaSlider] (Some ValueError)) w) =
      trace (exec loop w) ++
        match fst (loop w) with
        | Ok _ => [SetDeviceGammaRamp 1%positive linear_ramp ok2]
        | Raise _ => [SetDeviceGammaRamp 1%positive linear_ramp ok1;
                      SetDeviceGammaRamp 1%positive linear_ramp ok2]
        end /\
    (ok2 = true ->
     screen (exec (run pow_unit_exponent [Plus GammaSlider] (Some ValueError)) w) = linear_ramp).
Proof.
  exact (run_restores_on_every_path pow_unit_exponent [Plus GammaSlider] (Some ValueError)
           (exec (__init__ pow_unit_exponent) (boot (fun _ => true) Absent))
           1%positive linear_ramp
           ltac:(vm_compute; reflexivity) ltac:(vm_compute; reflexivity)).
Defined.

(** X11, witness: gamma = -2.0. *)
Lemma gamma_below_floor_is_floor_witness :
  py_truediv 1.0 (py_max (-2.0) 0.1) = Ok 10%float /\
  set_gamma_ramp_all_screens pow_unit_exponent (-2.0) 0.0 1.0 (boot (fun _ => true) Absent) =
  set_gamma_ramp_all_screens pow_unit_exponent 0.1 0.0 1.0 (boot (fun _ => true) Absent).
Proof.
  exact (gamma_below_floor_is_floor pow_unit_exponent (-2.0) 0.0 1.0
           (boot (fun _ => true) Absent) eq_refl).
Defined.

(** X12, witness. *)
Lemma nan_contrast_whitens_witness :
  exists buf ok0 t,
    events_of (set_gamma_ramp_all_screens pow_unit_exponent 1.0 0.0 nan)
      (boot (fun _ => true) Absent) =
      [GetDeviceGammaRamp buf ok0; SetDeviceGammaRamp buf t true] /\
    forall i, (i < GAMMA_RAMP_SIZE)%nat ->
      red t !! i = Some 65535 /\ green t !! i = Some 65535 /\ blue t !! i = Some 65535.
Proof.
  exact (nan_contrast_whitens pow_unit_exponent 1.0 0.0 nan (boot (fun _ => true) Absent) true
           eq_refl linear_ramp_wf ltac:(vm_compute; reflexivity)).
Defined.

(** X13, witness. *)
Lemma zero_contrast_flattens_witness :
  exists buf ok0 t,
    events_of (set_gamma_ramp_all_screens pow_unit_exponent 1.0 0.5 0.0)
      (boot (fun _ => true) Absent) =
      [GetDeviceGammaRamp buf ok0; SetDeviceGammaRamp buf t true] /\
    forall i, (i < GAMMA_RAMP_SIZE)%nat ->
      red t !! i = Some 32767 /\ green t !! i = Some 32767 /\ blue t !! i = Some 32767.
Proof.
  exact (zero_contrast_flattens pow_unit_exponent 1.0 0.5 0.0 (boot (fun _ => true) Absent) true
           eq_refl linear_ramp_wf ltac:(vm_compute; reflexivity)).
Defined.

(** X14, witness: brightness -0.5 against 0.25 at contrast 2.0. *)
Lemma brightness_never_darkens_witness :
  let w := boot (fun _ => true) Absent in
  exists t1 t2,
    written_tables (events_of (set_gamma_ramp_all_screens pow_unit_exponent 1.0 (-0.5) 2.0) w)
      = [t1] /\
    written_tables (events_of (set_gamma_ramp_all_screens pow_unit_exponent 1.0 0.25 2.0) w)
      = [t2] /\
    forall i v1 v2, red t1 !! i = Some v1 -> red t2 !! i = Some v2 ->
      v1 <= v2 /\ green t1 !! i = Some v1 /\ blue t1 !! i = Some v1 /\
      green t2 !! i = Some v2 /\ blue t2 !! i = Some v2.
Proof.
  exact (brightness_never_darkens pow_unit_exponent 1.0 (-0.5) 0.25 2.0
           (boot (fun _ => true) Absent) (boot (fun _ => true) Absent) true true
           eq_refl eq_refl linear_ramp_wf linear_ramp_wf
           ltac:(vm_compute; reflexivity) ltac:(vm_compute; reflexivity)).
Defined.

(** X15, witness: Reset on the instance of a fresh process. *)
Lemma reset_writes_default_table_witness :
  let w := exec (__init__ pow_unit_exponent) (boot (fun _ => true) Absent) in
  let w' := exec (reset pow_unit_exponent) w in
  gamma_var (self w') = Some 1.0%float /\
  brightness_var (self w') = Some 0.0%float /\
  contrast_var (self w') = Some 1.0%float /\
  status (self w') = Some ResetToDefault /\
  exists buf ok0 tbl ok,
    events_of (reset pow_unit_exponent) w =
      [GetDeviceGammaRamp buf ok0; SetDeviceGammaRamp buf tbl ok] /\
    (ok = true -> screen w' = tbl) /\
    forall i, (i < GAMMA_RAMP_SIZE)%nat ->
      exists v, red tbl !! i = Some v /\ green tbl !! i = Some v /\ blue tbl !! i = Some v /\
                257 * Z.of_nat i - 1 <= v <= 257 * Z.of_nat i.
Proof.
  exact (reset_writes_default_table pow_unit_exponent
           (exec (__init__ pow_unit_exponent) (boot (fun _ => true) Absent))
           1%positive linear_ramp (Live 1.0 0.0 1.0)
           started_after_init ltac:(vm_compute; reflexivity)
           ltac:(vm_compute; repeat split; reflexivity) (fun x => eq_refl)).
Defined.


Lemma pow_total_unit_returns : pow_returns pow_total_unit.
Proof. intros x e _ _. eexists. reflexivity. Qed.


